(** * AESA core scheduling engine: a shallow embedding and its properties

    The development follows [engine/src/scheduler.c] and
    [engine/src/json_output.c].

    Conventions of the embedding.
    - A C [int] is a [Z].  Where a computation of the code leaves the
      range of [int] on values the code receives (the subtraction of
      [task_compare_priority], the product of [timeline_init], the
      accumulation of [parse_int]), the result is the exact one wrapped
      around to 32 bits ([wrap_int]); elsewhere the arithmetic is exact.
    - An array is a [list]; every indexed access is checked and an access
      outside the array yields [Fault].
    - A pointer that may be [NULL] is an [option].
    - [malloc], [realloc] and [qsort] belong to the C library, not to the
      engine.  They are the members of the [Libc] and [IoLibc] interfaces:
      [malloc_succeeds] and [io_malloc_succeeds] give the outcome of the
      allocation made at each site, and [qsort] comes with the contract
      [qsort_conforms]: what the C standard gives it, and that it only
      moves the elements of the array.
    - The timeline the solver mutates through its pointer and the
      [placements] array are threaded through the search as a [State]. *)

From Stdlib Require Import ZArith Lia Bool List Sorted Permutation.
From Stdlib Require Import Ascii String DecimalString DecimalPos.
From stdpp Require Import base tactics option list.

Local Open Scope Z_scope.

(** ** Constants of [scheduler.h] *)

Definition MAX_TASKS : Z := 500.
Definition MAX_SLOTS : Z := 336.
Definition MAX_NAME_LEN : Z := 128.
Definition MAX_ERROR_LEN : Z := 256.
Definition SLOTS_PER_DAY : Z := 48.

Definition PRIORITY_REGULAR_STUDY : Z := 50.

Inductive TaskType : Type :=
  | TASK_UNIVERSITY | TASK_STUDY | TASK_REVISION | TASK_PRACTICE
  | TASK_ASSIGNMENT | TASK_LAB_WORK | TASK_DEEP_WORK | TASK_BREAK
  | TASK_FREE_TIME | TASK_SLEEP | TASK_WAKE_ROUTINE | TASK_BREAKFAST
  | TASK_LUNCH | TASK_DINNER.

(** [PreferredEnergy] is kept as the integer the parser casts into it. *)
Definition ENERGY_ANY : Z := 0.
Definition ENERGY_PREFER_LOW : Z := 1.
Definition ENERGY_PREFER_MEDIUM : Z := 2.
Definition ENERGY_PREFER_PEAK : Z := 3.

(** ** Machine integers

    An [int] has 32 bits.  A structure field or a variable of type [int]
    is a [Z].  The subtraction of [task_compare_priority], the product of
    [timeline_init] and the accumulation of [parse_int] leave the range
    of [int] on values the code receives: there the value is the exact
    result wrapped around. *)

Definition INT_MIN : Z := -2147483648.
Definition INT_MAX : Z := 2147483647.

Definition wrap_int (z : Z) : Z := (z - INT_MIN) mod 4294967296 + INT_MIN.

(** ** Structures *)

Module Task.
Record t : Type := mk {
  id : Z;
  name : string;
  type : TaskType;
  duration_slots : Z;
  priority : Z;
  deadline_slot : Z;
  is_fixed : bool;
  preferred_energy : Z
}.
End Task.
Abbreviation Task := Task.t.

Module TimeSlot.
Record t : Type := mk {
  slot_index : Z;
  task_id : Z;
  energy_level : Z;
  is_fixed : bool
}.
End TimeSlot.
Abbreviation TimeSlot := TimeSlot.t.

Module Timeline.
Record t : Type := mk {
  slots : list TimeSlot;
  num_slots : Z;
  success : bool;
  error_message : string
}.
End Timeline.
Abbreviation Timeline := Timeline.t.

(** ** Checked array access *)

Inductive outcome (A : Type) : Type :=
  | Ret (a : A)
  | Fault.
Arguments Ret {A} a.
Arguments Fault {A}.

Definition bind {A B : Type} (m : outcome A) (k : A -> outcome B) : outcome B :=
  match m with
  | Ret a => k a
  | Fault => Fault
  end.

Notation "x <- m ;; k" := (bind m (fun x => k))
  (at level 100, m at next level, right associativity).

Definition array_get {A : Type} (a : list A) (i : Z) : outcome A :=
  if i <? 0 then Fault
  else match a !! Z.to_nat i with
       | Some x => Ret x
       | None => Fault
       end.

Definition array_set {A : Type} (a : list A) (i : Z) (x : A) : outcome (list A) :=
  if i <? 0 then Fault
  else if (Z.to_nat i <? length a)%nat then Ret (<[Z.to_nat i := x]> a)
  else Fault.

(** ** Energy map *)

(** C's [%] and [/] truncate toward zero: [Z.rem] and [Z.quot]. *)
Definition slot_to_hour (slot_index : Z) : Z :=
  let slot_in_day := Z.rem slot_index SLOTS_PER_DAY in
  Z.quot slot_in_day 2.

Definition get_energy_level (slot_index : Z) : Z :=
  let hour := slot_to_hour slot_index in
  if ((8 <=? hour) && (hour <? 10)) || ((16 <=? hour) && (hour <? 18)) then 9
  else if ((6 <=? hour) && (hour <? 8)) ||
          ((10 <=? hour) && (hour <? 12)) ||
          ((14 <=? hour) && (hour <? 16)) ||
          ((18 <=? hour) && (hour <? 20)) then 6
  else if ((12 <=? hour) && (hour <? 14)) || (20 <=? hour) || (hour <? 6) then 3
  else 5.

Definition is_peak_energy_period (slot_index : Z) : bool :=
  let hour := slot_to_hour slot_index in
  ((8 <=? hour) && (hour <? 10)) || ((16 <=? hour) && (hour <? 18)).

Definition is_medium_energy_period (slot_index : Z) : bool :=
  let hour := slot_to_hour slot_index in
  ((6 <=? hour) && (hour <? 8)) ||
  ((10 <=? hour) && (hour <? 12)) ||
  ((14 <=? hour) && (hour <? 16)) ||
  ((18 <=? hour) && (hour <? 20)).

Definition is_low_energy_period (slot_index : Z) : bool :=
  let hour := slot_to_hour slot_index in
  ((12 <=? hour) && (hour <? 14)) || (20 <=? hour) || (hour <? 6).

(** ** Initialisation *)

Definition task_init : Task :=
  Task.mk (-1) EmptyString TASK_STUDY 1 PRIORITY_REGULAR_STUDY (-1) false ENERGY_ANY.

Definition timeslot_init (index : Z) : TimeSlot :=
  TimeSlot.mk index (-1) (get_energy_level index) false.

(** The loop [for (i = 0; i < total_slots; i++) timeslot_init(&slots[i], i)]:
    [n] iterations are left and [i] is the loop variable. *)
Fixpoint init_slots (n : nat) (i : Z) : list TimeSlot :=
  match n with
  | O => []
  | S n' => timeslot_init i :: init_slots n' (i + 1)
  end.

Definition timeline_init (num_days : Z) : Timeline :=
  let total_slots := wrap_int (num_days * SLOTS_PER_DAY) in
  let total_slots := if total_slots >? MAX_SLOTS then MAX_SLOTS else total_slots in
  Timeline.mk (init_slots (Z.to_nat total_slots) 0) total_slots false EmptyString.

(** ** Priority comparison *)

(** The difference of two [int]s is an [int]: the subtraction wraps
    around. *)
Definition task_compare_priority (a b : Task) : Z :=
  wrap_int (Task.priority b - Task.priority a).

(** ** The C library

    [malloc_succeeds site] tells whether the allocation made at [site]
    returns a non-null pointer.  [qsort base cmp] is the library sort; the
    engine only calls it on the working copy of the tasks. *)

Inductive alloc_site : Type :=
  | AllocTimeline
  | AllocSortedTasks
  | AllocPlacements
  | AllocBuffer
  | AllocEscaped.

Class Libc : Type := {
  malloc_succeeds : alloc_site -> bool;
  qsort : (Task -> Task -> Z) -> list Task -> list Task
}.

(** The other allocations: the array of [timeslot_array_create], the
    input buffer of [main] and the [realloc] of [buffer_append]. *)
Inductive io_site : Type :=
  | AllocFixedSlots
  | AllocInput
  | AllocGrow.

Class IoLibc : Type := {
  io_malloc_succeeds : io_site -> bool
}.

(** ** Constraint checking *)

(** The assignments [slot->task_id = v] and [slot->is_fixed = true]. *)
Definition set_task_id (s : TimeSlot) (v : Z) : TimeSlot :=
  TimeSlot.mk (TimeSlot.slot_index s) v (TimeSlot.energy_level s) (TimeSlot.is_fixed s).

Definition set_is_fixed (s : TimeSlot) (b : bool) : TimeSlot :=
  TimeSlot.mk (TimeSlot.slot_index s) (TimeSlot.task_id s) (TimeSlot.energy_level s) b.

Definition set_slots (timeline : Timeline) (l : list TimeSlot) : Timeline :=
  Timeline.mk l (Timeline.num_slots timeline) (Timeline.success timeline)
    (Timeline.error_message timeline).

Definition set_result (timeline : Timeline) (ok : bool) (msg : string) : Timeline :=
  Timeline.mk (Timeline.slots timeline) (Timeline.num_slots timeline) ok msg.

(** [timeline->slots[i].task_id = v] *)
Definition write_task_id (timeline : Timeline) (i v : Z) : outcome Timeline :=
  s <- array_get (Timeline.slots timeline) i ;;
  l <- array_set (Timeline.slots timeline) i (set_task_id s v) ;;
  Ret (set_slots timeline l).

Definition is_slot_available (timeline : Timeline) (slot_index : Z) : outcome bool :=
  if (slot_index <? 0) || (slot_index >=? Timeline.num_slots timeline) then Ret false
  else
    s <- array_get (Timeline.slots timeline) slot_index ;;
    Ret ((TimeSlot.task_id s =? -1) && negb (TimeSlot.is_fixed s)).

(** The availability loop of [can_place_task]: [n] iterations are left, [i]
    is the loop variable. *)
Fixpoint can_place_loop (timeline : Timeline) (start_slot : Z) (n : nat) (i : Z)
  : outcome bool :=
  match n with
  | O => Ret true
  | S n' =>
      a <- is_slot_available timeline (start_slot + i) ;;
      if a then can_place_loop timeline start_slot n' (i + 1) else Ret false
  end.

Definition can_place_task (timeline : Timeline) (task : Task) (start_slot : Z)
  : outcome bool :=
  if (start_slot <? 0) ||
     (start_slot + Task.duration_slots task >? Timeline.num_slots timeline)
  then Ret false
  else if (Task.deadline_slot task >=? 0) &&
          (start_slot + Task.duration_slots task >? Task.deadline_slot task)
  then Ret false
  else can_place_loop timeline start_slot (Z.to_nat (Task.duration_slots task)) 0.

(** The loop shared by [place_task] (which writes [task->id]) and
    [remove_task] (which writes [-1]). *)
Fixpoint fill_loop (timeline : Timeline) (start_slot v : Z) (n : nat) (i : Z)
  : outcome Timeline :=
  match n with
  | O => Ret timeline
  | S n' =>
      timeline' <- write_task_id timeline (start_slot + i) v ;;
      fill_loop timeline' start_slot v n' (i + 1)
  end.

Definition place_task (timeline : Timeline) (task : Task) (start_slot : Z)
  : outcome Timeline :=
  fill_loop timeline start_slot (Task.id task) (Z.to_nat (Task.duration_slots task)) 0.

Definition remove_task (timeline : Timeline) (task : Task) (start_slot : Z)
  : outcome Timeline :=
  fill_loop timeline start_slot (-1) (Z.to_nat (Task.duration_slots task)) 0.

Definition is_study_like (ty : TaskType) : bool :=
  match ty with TASK_STUDY | TASK_DEEP_WORK => true | _ => false end.

Definition is_practice_like (ty : TaskType) : bool :=
  match ty with TASK_PRACTICE | TASK_REVISION => true | _ => false end.

Definition is_break_like (ty : TaskType) : bool :=
  match ty with TASK_BREAK | TASK_FREE_TIME => true | _ => false end.

Definition calculate_energy_score (task : Task) (slot_index : Z) : Z :=
  let score := 0 in
  let score :=
    if is_study_like (Task.type task) then
      if is_peak_energy_period slot_index then score + 10
      else if is_medium_energy_period slot_index then score + 5
      else score
    else if is_practice_like (Task.type task) then
      if is_peak_energy_period slot_index then score + 7
      else if is_medium_energy_period slot_index then score + 8
      else score
    else if is_break_like (Task.type task) then
      if is_low_energy_period slot_index then score + 10 else score
    else score in
  if negb (Task.preferred_energy task =? ENERGY_ANY) then
    if (Task.preferred_energy task =? ENERGY_PREFER_PEAK) &&
       is_peak_energy_period slot_index then score + 5
    else if (Task.preferred_energy task =? ENERGY_PREFER_MEDIUM) &&
            is_medium_energy_period slot_index then score + 5
    else if (Task.preferred_energy task =? ENERGY_PREFER_LOW) &&
            is_low_energy_period slot_index then score + 5
    else score
  else score.

(** ** Backtracking *)

Module SlotScore.
Record t : Type := mk { slot : Z; score : Z }.
End SlotScore.
Abbreviation SlotScore := SlotScore.t.

(** First pass of [backtrack]: the loop over [slot = 0 .. num_slots - 1]
    appending every placeable slot with its score.  [n] iterations are left. *)
Fixpoint collect_candidates (timeline : Timeline) (task : Task) (n : nat) (slot : Z)
  : outcome (list SlotScore) :=
  match n with
  | O => Ret []
  | S n' =>
      ok <- can_place_task timeline task slot ;;
      rest <- collect_candidates timeline task n' (slot + 1) ;;
      Ret (if ok
           then SlotScore.mk slot (calculate_energy_score task slot) :: rest
           else rest)
  end.

(** Inner loop of the bubble sort: [k] adjacent pairs, from the front. *)
Fixpoint bubble_pass (k : nat) (c : list SlotScore) : list SlotScore :=
  match k, c with
  | S k', a :: b :: r =>
      if SlotScore.score a <? SlotScore.score b
      then b :: bubble_pass k' (a :: r)
      else a :: bubble_pass k' (b :: r)
  | _, _ => c
  end.

(** Outer loop: [m] passes are left, [i] is the loop variable; pass [i]
    compares the pairs [j = 0 .. num_candidates - i - 2]. *)
Fixpoint bubble_outer (num_candidates : nat) (m i : nat) (c : list SlotScore)
  : list SlotScore :=
  match m with
  | O => c
  | S m' =>
      bubble_outer num_candidates m' (S i) (bubble_pass (num_candidates - i - 1) c)
  end.

Definition sort_candidates (c : list SlotScore) : list SlotScore :=
  let num_candidates := length c in
  bubble_outer num_candidates (num_candidates - 1) 0 c.

(** The solver's mutable state: the timeline it writes through its pointer
    and the [placements] array. *)
Module State.
Record t : Type := mk {
  timeline : Timeline;
  placements : list Z
}.
End State.
Abbreviation State := State.t.

(** Third part of [backtrack]: the loop over the sorted candidates.  [recurse]
    is the recursive call [backtrack(timeline, tasks, num_tasks, task_index + 1,
    placements)]. *)
Fixpoint try_candidates (recurse : State -> outcome (bool * State))
    (task : Task) (task_index : Z) (candidates : list SlotScore) (st : State)
  : outcome (bool * State) :=
  match candidates with
  | [] => Ret (false, st)
  | c :: candidates' =>
      let slot := SlotScore.slot c in
      tl1 <- place_task (State.timeline st) task slot ;;
      pl1 <- array_set (State.placements st) task_index slot ;;
      r <- recurse (State.mk tl1 pl1) ;;
      if fst r then Ret (true, snd r)
      else
        tl2 <- remove_task (State.timeline (snd r)) task slot ;;
        pl2 <- array_set (State.placements (snd r)) task_index (-1) ;;
        try_candidates recurse task task_index candidates' (State.mk tl2 pl2)
  end.

(** [backtrack rest task_index st]: [rest] is [tasks[task_index .. num_tasks)],
    so that the base case [task_index >= num_tasks] is the empty list. *)
Fixpoint backtrack (rest : list Task) (task_index : Z) (st : State)
  : outcome (bool * State) :=
  match rest with
  | [] => Ret (true, st)
  | task :: rest' =>
      if Task.is_fixed task then backtrack rest' (task_index + 1) st
      else
        candidates <- collect_candidates (State.timeline st) task
                        (Z.to_nat (Timeline.num_slots (State.timeline st))) 0 ;;
        try_candidates (backtrack rest' (task_index + 1)) task task_index
          (sort_candidates candidates) st
  end.

(** ** Main optimisation function *)

Definition set_success (timeline : Timeline) (ok : bool) : Timeline :=
  set_result timeline ok (Timeline.error_message timeline).

(** [snprintf] with ["%d"]. *)
Definition int_to_string (v : Z) : string :=
  NilZero.string_of_int (Z.to_int v).

Definition timeline_create {L : Libc} : option Timeline :=
  if malloc_succeeds AllocTimeline then Some (timeline_init 7) else None.

Definition task_array_create {L : Libc} (count : Z) : option (list Task) :=
  if (count <=? 0) || (count >? MAX_TASKS) then None
  else if malloc_succeeds AllocSortedTasks
       then Some (replicate (Z.to_nat count) task_init)
       else None.

(** [memcpy(dst, src, n * sizeof(Task))] *)
Definition memcpy (dst src : list Task) (n : Z) : outcome (list Task) :=
  if ((Z.to_nat n <=? length src)%nat && (Z.to_nat n <=? length dst)%nat)%bool
  then Ret (take (Z.to_nat n) src ++ drop (Z.to_nat n) dst)
  else Fault.

(** [timeline->slots[i].is_fixed = b] *)
Definition write_is_fixed (timeline : Timeline) (i : Z) (b : bool) : outcome Timeline :=
  s <- array_get (Timeline.slots timeline) i ;;
  l <- array_set (Timeline.slots timeline) i (set_is_fixed s b) ;;
  Ret (set_slots timeline l).

(** The loop applying the fixed-slot descriptors: [n] iterations are left. *)
Fixpoint apply_fixed_slots (fixed_slots : list TimeSlot) (timeline : Timeline)
    (n : nat) (i : Z) : outcome Timeline :=
  match n with
  | O => Ret timeline
  | S n' =>
      f <- array_get fixed_slots i ;;
      let idx := TimeSlot.slot_index f in
      timeline' <-
        (if (idx >=? 0) && (idx <? Timeline.num_slots timeline) then
           tl1 <- write_task_id timeline idx (TimeSlot.task_id f) ;;
           write_is_fixed tl1 idx true
         else Ret timeline) ;;
      apply_fixed_slots fixed_slots timeline' n' (i + 1)
  end.

Definition NO_SOLUTION_MESSAGE : string :=
  "NO_SOLUTION: Cannot find valid placement for all tasks"%string.

Definition optimize_schedule {L : Libc} (tasks : option (list Task)) (num_tasks : Z)
    (fixed_slots : option (list TimeSlot)) (num_fixed : Z)
  : outcome (option Timeline) :=
  if (num_tasks <? 0) || (num_tasks >? MAX_TASKS) then
    match timeline_create with
    | Some timeline =>
        Ret (Some (set_result timeline false
               (String.append "Invalid number of tasks: " (int_to_string num_tasks))))
    | None => Ret None
    end
  else
    match timeline_create with
    | None => Ret None
    | Some timeline =>
        timeline <-
          match fixed_slots with
          | Some fs =>
              if num_fixed >? 0
              then apply_fixed_slots fs timeline (Z.to_nat num_fixed) 0
              else Ret timeline
          | None => Ret timeline
          end ;;
        match tasks with
        | None => Ret (Some (set_success timeline true))
        | Some tasks =>
            if num_tasks =? 0 then Ret (Some (set_success timeline true))
            else
              match task_array_create num_tasks with
              | None =>
                  Ret (Some (set_result timeline false "Memory allocation failed"))
              | Some sorted_tasks =>
                  sorted_tasks <- memcpy sorted_tasks tasks num_tasks ;;
                  let sorted_tasks := qsort task_compare_priority sorted_tasks in
                  if malloc_succeeds AllocPlacements then
                    let placements := replicate (Z.to_nat num_tasks) (-1) in
                    r <- backtrack sorted_tasks 0 (State.mk timeline placements) ;;
                    if fst r
                    then Ret (Some (set_success (State.timeline (snd r)) true))
                    else Ret (Some (set_result (State.timeline (snd r)) false
                                      NO_SOLUTION_MESSAGE))
                  else
                    Ret (Some (set_result timeline false "Memory allocation failed"))
              end
        end
    end.

(** ** Task type names *)

Definition TASK_TYPE_COUNT : Z := 14.

Definition TASK_TYPE_STRINGS : list string :=
  [ "university"; "study"; "revision"; "practice"; "assignment"; "lab_work";
    "deep_work"; "break"; "free_time"; "sleep"; "wake_routine"; "breakfast";
    "lunch"; "dinner" ]%string.

(** The value of an enumerator of [TaskType], and the enumerator of a value. *)
Definition TaskType_to_int (ty : TaskType) : Z :=
  match ty with
  | TASK_UNIVERSITY => 0 | TASK_STUDY => 1 | TASK_REVISION => 2
  | TASK_PRACTICE => 3 | TASK_ASSIGNMENT => 4 | TASK_LAB_WORK => 5
  | TASK_DEEP_WORK => 6 | TASK_BREAK => 7 | TASK_FREE_TIME => 8
  | TASK_SLEEP => 9 | TASK_WAKE_ROUTINE => 10 | TASK_BREAKFAST => 11
  | TASK_LUNCH => 12 | TASK_DINNER => 13
  end.

Definition TaskType_of_int (v : Z) : option TaskType :=
  match v with
  | 0 => Some TASK_UNIVERSITY | 1 => Some TASK_STUDY | 2 => Some TASK_REVISION
  | 3 => Some TASK_PRACTICE | 4 => Some TASK_ASSIGNMENT | 5 => Some TASK_LAB_WORK
  | 6 => Some TASK_DEEP_WORK | 7 => Some TASK_BREAK | 8 => Some TASK_FREE_TIME
  | 9 => Some TASK_SLEEP | 10 => Some TASK_WAKE_ROUTINE | 11 => Some TASK_BREAKFAST
  | 12 => Some TASK_LUNCH | 13 => Some TASK_DINNER
  | _ => None
  end.

(** [task_type_to_string]: the argument is the integer value of the
    enumeration, which a cast can take out of the range of the enumerators. *)
Definition task_type_to_string (type : Z) : outcome string :=
  if (type >=? 0) && (type <? TASK_TYPE_COUNT)
  then array_get TASK_TYPE_STRINGS type
  else Ret "unknown"%string.

(** The loop of [task_type_from_string]: [n] iterations are left;
    [strcmp(str, s) == 0] is [String.eqb str s]. *)
Fixpoint task_type_from_string_loop (str : string) (n : nat) (i : Z) : outcome Z :=
  match n with
  | O => Ret (-1)
  | S n' =>
      s <- array_get TASK_TYPE_STRINGS i ;;
      if String.eqb str s then Ret i
      else task_type_from_string_loop str n' (i + 1)
  end.

Definition task_type_from_string (str : option string) : outcome Z :=
  match str with
  | None => Ret (-1)
  | Some str => task_type_from_string_loop str (Z.to_nat TASK_TYPE_COUNT) 0
  end.

(** ** Greedy slot selection ([find_best_slot], compiled under
    [USE_GREEDY_SCHEDULER]) *)

(** The loop of [find_best_slot]: [n] iterations are left. *)
Fixpoint find_best_slot_loop (timeline : Timeline) (task : Task) (n : nat)
    (slot best_slot best_score : Z) : outcome Z :=
  match n with
  | O => Ret best_slot
  | S n' =>
      ok <- can_place_task timeline task slot ;;
      if ok then
        let score := calculate_energy_score task slot in
        if score >? best_score
        then find_best_slot_loop timeline task n' (slot + 1) slot score
        else find_best_slot_loop timeline task n' (slot + 1) best_slot best_score
      else find_best_slot_loop timeline task n' (slot + 1) best_slot best_score
  end.

Definition find_best_slot (timeline : Timeline) (task : Task) : outcome Z :=
  find_best_slot_loop timeline task (Z.to_nat (Timeline.num_slots timeline)) 0 (-1) (-1).

(** ** JSON output ([json_output.c])

    A C string is a [string] without the terminating NUL; a [const char*]
    walking through a buffer is the part of the buffer it still has in front
    of it. *)

Definition quote : ascii := "034"%char.
Definition backslash : ascii := "092"%char.
Definition char_b : ascii := "008"%char.
Definition char_f : ascii := "012"%char.
Definition char_n : ascii := "010"%char.
Definition char_r : ascii := "013"%char.
Definition char_t : ascii := "009"%char.

Definition str1 (c : ascii) : string := String c EmptyString.
Definition str2 (c d : ascii) : string := String c (String d EmptyString).

(** One digit of [sprintf]'s ["%x"]. *)
Definition hex_digit (n : nat) : ascii :=
  match String.get n "0123456789abcdef" with
  | Some c => c
  | None => "0"%char
  end.

(** The body of the second loop of [json_escape_string]. *)
Definition json_escape_char (c : ascii) : string :=
  if Ascii.eqb c quote then str2 backslash quote
  else if Ascii.eqb c backslash then str2 backslash backslash
  else if Ascii.eqb c char_b then str2 backslash "b"
  else if Ascii.eqb c char_f then str2 backslash "f"
  else if Ascii.eqb c char_n then str2 backslash "n"
  else if Ascii.eqb c char_r then str2 backslash "r"
  else if Ascii.eqb c char_t then str2 backslash "t"
  else if (nat_of_ascii c <? 32)%nat then
    String backslash (String "u" (String "0" (String "0"
      (str2 (hex_digit (nat_of_ascii c / 16)) (hex_digit (nat_of_ascii c mod 16))))))
  else str1 c.

Fixpoint json_escape_body (str : string) : string :=
  match str with
  | EmptyString => EmptyString
  | String c str' => String.append (json_escape_char c) (json_escape_body str')
  end.

Definition json_escape_string {L : Libc} (str : option string) : option string :=
  if malloc_succeeds AllocEscaped then
    match str with
    | None => Some (str2 quote quote)
    | Some str => Some (String quote (String.append (json_escape_body str) (str1 quote)))
    end
  else None.

(** The growing buffer, with its sizes and with the [realloc] that may
    fail.  The sizes are exact integers: a [size_t] that wraps around is
    not modelled. *)

Definition INITIAL_BUFFER_SIZE : Z := 4096.
Definition BUFFER_GROW_FACTOR : Z := 2.

(** [strcpy(data + offset, str)] on a buffer that holds the C string
    [data]: a write behind the terminator of [data] does not change the
    string the buffer holds. *)
Definition strcpy_at (data : string) (offset : Z) (str : string) : string :=
  if (Z.to_nat offset <=? String.length data)%nat
  then String.append (String.substring 0 (Z.to_nat offset) data) str
  else data.

Module StringBuffer.
Record t : Type := mk {
  data : string;
  size : Z;
  capacity : Z
}.

Definition buffer_create {L : Libc} : option t :=
  if malloc_succeeds AllocBuffer
  then Some (mk EmptyString 0 INITIAL_BUFFER_SIZE)
  else None.

(** The loop that doubles [new_capacity] while it is below [required];
    [fuel] bounds the number of iterations, and [None] stands for a loop
    that does not end within it. *)
Fixpoint grow (fuel : nat) (new_capacity required : Z) : option Z :=
  if new_capacity <? required then
    match fuel with
    | O => None
    | S fuel' => grow fuel' (new_capacity * BUFFER_GROW_FACTOR) required
    end
  else Some new_capacity.

(** [buffer_append]: the returned code and the buffer afterwards.  A loop
    that does not end is a [Fault]. *)
Definition buffer_append {IO : IoLibc} (buf : option t) (str : option string)
  : outcome (Z * option t) :=
  match buf, str with
  | Some buf, Some str =>
      let len := Z.of_nat (String.length str) in
      let required := size buf + len + 1 in
      if required >? capacity buf then
        match grow (Z.to_nat required) (capacity buf * BUFFER_GROW_FACTOR) required with
        | None => Fault
        | Some new_capacity =>
            if io_malloc_succeeds AllocGrow then
              Ret (0, Some (mk (strcpy_at (data buf) (size buf) str)
                              (size buf + len) new_capacity))
            else Ret (-1, Some buf)
        end
      else
        Ret (0, Some (mk (strcpy_at (data buf) (size buf) str)
                        (size buf + len) (capacity buf)))
  | _, _ => Ret (-1, buf)
  end.

Definition buffer_append_int {IO : IoLibc} (buf : option t) (value : Z)
  : outcome (Z * option t) :=
  buffer_append buf (Some (int_to_string value)).

Definition buffer_detach (buf : option t) : option string :=
  match buf with
  | Some buf => Some (data buf)
  | None => None
  end.
End StringBuffer.
Abbreviation StringBuffer := StringBuffer.t.

(** [buffer_append(buf, str);] as [timeline_to_json] calls it: the code
    returned is not looked at. *)
Definition append {IO : IoLibc} (buf : StringBuffer) (str : string)
  : outcome StringBuffer :=
  r <- StringBuffer.buffer_append (Some buf) (Some str) ;;
  Ret (match snd r with Some buf' => buf' | None => buf end).

Definition append_int {IO : IoLibc} (buf : StringBuffer) (value : Z)
  : outcome StringBuffer :=
  r <- StringBuffer.buffer_append_int (Some buf) value ;;
  Ret (match snd r with Some buf' => buf' | None => buf end).

Definition bool_to_json (b : bool) : string :=
  if b then "true"%string else "false"%string.

Definition newline : string := str1 char_n.

(** ["key": ] preceded by [indent]. *)
Definition json_key (indent key : string) : string :=
  String.append indent (String quote (String.append key (String quote ": "))).

(** The loop over the slots in [timeline_to_json]: [n] iterations are left. *)
Fixpoint slots_to_json {IO : IoLibc} (timeline : Timeline) (n : nat) (i : Z)
    (buf : StringBuffer) : outcome StringBuffer :=
  match n with
  | O => Ret buf
  | S n' =>
      slot <- array_get (Timeline.slots timeline) i ;;
      buf <- append buf (String.append "    {" newline) ;;
      buf <- append buf (json_key "      " "slot_index") ;;
      buf <- append_int buf (TimeSlot.slot_index slot) ;;
      buf <- append buf (String.append "," newline) ;;
      buf <- append buf (json_key "      " "task_id") ;;
      buf <- append_int buf (TimeSlot.task_id slot) ;;
      buf <- append buf (String.append "," newline) ;;
      buf <- append buf (json_key "      " "energy_level") ;;
      buf <- append_int buf (TimeSlot.energy_level slot) ;;
      buf <- append buf (String.append "," newline) ;;
      buf <- append buf (json_key "      " "is_fixed") ;;
      buf <- append buf (bool_to_json (TimeSlot.is_fixed slot)) ;;
      buf <- append buf newline ;;
      buf <- append buf "    }" ;;
      buf <- (if i <? Timeline.num_slots timeline - 1
              then append buf "," else Ret buf) ;;
      buf <- append buf newline ;;
      slots_to_json timeline n' (i + 1) buf
  end.

Definition timeline_to_json {L : Libc} {IO : IoLibc} (timeline : option Timeline)
  : outcome (option string) :=
  match timeline with
  | None => Ret None
  | Some timeline =>
      match StringBuffer.buffer_create with
      | None => Ret None
      | Some buf =>
          buf <- append buf (String.append "{" newline) ;;
          buf <- append buf (json_key "  " "success") ;;
          buf <- append buf (bool_to_json (Timeline.success timeline)) ;;
          buf <- append buf (String.append "," newline) ;;
          buf <- append buf (json_key "  " "error_message") ;;
          buf <-
            match json_escape_string (Some (Timeline.error_message timeline)) with
            | Some escaped_error => append buf escaped_error
            | None => append buf (str2 quote quote)
            end ;;
          buf <- append buf (String.append "," newline) ;;
          buf <- append buf (json_key "  " "num_slots") ;;
          buf <- append_int buf (Timeline.num_slots timeline) ;;
          buf <- append buf (String.append "," newline) ;;
          buf <- append buf (String.append (json_key "  " "slots")
                               (String.append "[" newline)) ;;
          buf <- slots_to_json timeline (Z.to_nat (Timeline.num_slots timeline)) 0 buf ;;
          buf <- append buf (String.append "  ]" newline) ;;
          buf <- append buf (String.append "}" newline) ;;
          Ret (StringBuffer.buffer_detach (Some buf))
      end
  end.

(** ** JSON parsing helpers *)

(** [isspace] in the C locale. *)
Definition isspace (c : ascii) : bool :=
  let n := nat_of_ascii c in
  ((n =? 32) || ((9 <=? n) && (n <=? 13)))%nat.

Fixpoint skip_whitespace (p : string) : string :=
  match p with
  | String c p' => if isspace c then skip_whitespace p' else p
  | EmptyString => p
  end.

(** The [switch] of [parse_string] on the character after a backslash. *)
Definition unescape_char (c : ascii) : ascii :=
  if Ascii.eqb c quote then quote
  else if Ascii.eqb c backslash then backslash
  else if Ascii.eqb c "b" then char_b
  else if Ascii.eqb c "f" then char_f
  else if Ascii.eqb c "n" then char_n
  else if Ascii.eqb c "r" then char_r
  else if Ascii.eqb c "t" then char_t
  else c.

(** The [while] loop of [parse_string]; [room] is [max_len - 1 - i].  It
    returns what was stored in [dest] and where [p] stopped.  After a
    backslash that ends the buffer, [p] is moved past the terminator. *)
Fixpoint parse_string_loop (p : string) (room : nat) : outcome (string * string) :=
  match p with
  | EmptyString => Ret (EmptyString, p)
  | String c p' =>
      if Ascii.eqb c quote then Ret (EmptyString, p)
      else
        match room with
        | O => Ret (EmptyString, p)
        | S room' =>
            if Ascii.eqb c backslash then
              match p' with
              | EmptyString => Fault
              | String e p'' =>
                  r <- parse_string_loop p'' room' ;;
                  Ret (String (unescape_char e) (fst r), snd r)
              end
            else
              r <- parse_string_loop p' room' ;;
              Ret (String c (fst r), snd r)
        end
  end.

(** [parse_string p dest max_len]: [None] is the [NULL] result; otherwise
    the contents of [dest] and the returned pointer. *)
Definition parse_string (p : string) (max_len : Z) : outcome (option (string * string)) :=
  match skip_whitespace p with
  | String c p' =>
      if Ascii.eqb c quote then
        r <- parse_string_loop p' (Z.to_nat (max_len - 1)) ;;
        let p_end :=
          match snd r with
          | String d rest => if Ascii.eqb d quote then rest else snd r
          | EmptyString => snd r
          end in
        Ret (Some (fst r, p_end))
      else Ret None
  | EmptyString => Ret None
  end.

Fixpoint strstr (haystack needle : string) : option string :=
  if String.prefix needle haystack then Some haystack
  else match haystack with
       | EmptyString => None
       | String _ haystack' => strstr haystack' needle
       end.

(** The needle [snprintf] writes into [char search[256]]: the key between
    quotes, cut after 255 characters. *)
Definition SEARCH_SIZE : Z := 256.

Definition snprintf_search (key : string) : string :=
  String.substring 0 (Z.to_nat (SEARCH_SIZE - 1))
    (String quote (String.append key (str1 quote))).

Definition find_key (p key : string) : option string :=
  let search := snprintf_search key in
  match strstr p search with
  | None => None
  | Some found =>
      let found := String.substring (String.length search)
                     (String.length found - String.length search) found in
      let found := skip_whitespace found in
      let found := match found with
                   | String c rest => if Ascii.eqb c ":" then rest else found
                   | EmptyString => found
                   end in
      Some (skip_whitespace found)
  end.

(** ** The size [json_escape_string] allocates *)

(** One step of the first loop of [json_escape_string]: what a character
    adds to [escaped_len]. *)
Definition escaped_len_char (c : ascii) : Z :=
  if Ascii.eqb c quote || Ascii.eqb c backslash || Ascii.eqb c char_b ||
     Ascii.eqb c char_f || Ascii.eqb c char_n || Ascii.eqb c char_r ||
     Ascii.eqb c char_t
  then 2
  else if (nat_of_ascii c <? 32)%nat then 6
  else 1.

Fixpoint escaped_len_loop (str : string) (escaped_len : Z) : Z :=
  match str with
  | EmptyString => escaped_len
  | String c str' => escaped_len_loop str' (escaped_len + escaped_len_char c)
  end.

(** [escaped_len] as it stands when [malloc(escaped_len + 1)] is called. *)
Definition escaped_len (str : string) : Z := escaped_len_loop str 2.

(** ** Integers and booleans of the input *)

(** [p + n] for a pointer into a string. *)
Definition string_drop (n : nat) (p : string) : string :=
  String.substring n (String.length p - n) p.

Definition is_digit (c : ascii) : bool :=
  ((48 <=? nat_of_ascii c) && (nat_of_ascii c <=? 57))%nat.

(** The digit loop of [parse_int]: the value read so far and where [p]
    stops.  The value is accumulated in an [int]. *)
Fixpoint parse_int_loop (p : string) (value : Z) : Z * string :=
  match p with
  | String c p' =>
      if is_digit c
      then parse_int_loop p'
             (wrap_int (value * 10 + (Z.of_nat (nat_of_ascii c) - 48)))
      else (value, p)
  | EmptyString => (value, p)
  end.

(** [parse_int p &value]: the value stored and the returned pointer. *)
Definition parse_int (p : string) : Z * string :=
  let p := skip_whitespace p in
  let sp :=
    match p with
    | String c p' => if Ascii.eqb c "-" then (-1, p') else (1, p)
    | EmptyString => (1, p)
    end in
  let r := parse_int_loop (snd sp) 0 in
  (wrap_int (fst r * fst sp), snd r).

(** [parse_bool p &value]: [None] is the [NULL] result, which leaves
    [value] unwritten. *)
Definition parse_bool (p : string) : option (bool * string) :=
  let p := skip_whitespace p in
  if String.prefix "true" p then Some (true, string_drop 4 p)
  else if String.prefix "false" p then Some (false, string_drop 5 p)
  else None.

(** ** JSON input ([parse_json_input]) *)

(** The loop of [count_array_elements].  [prev] is the character before
    [p]; the loop starts one past [start], so [p == start] never holds in
    it. *)
Fixpoint count_array_loop (p : string) (prev : ascii) (count depth : Z)
    (in_string : bool) : Z :=
  match p with
  | EmptyString => count
  | String c p' =>
      if Ascii.eqb c quote && negb (Ascii.eqb prev backslash) then
        count_array_loop p' c count depth (negb in_string)
      else if negb in_string then
        if Ascii.eqb c "{" then
          count_array_loop p' c (if depth =? 0 then count + 1 else count)
            (depth + 1) in_string
        else if Ascii.eqb c "}" then
          count_array_loop p' c count (depth - 1) in_string
        else if Ascii.eqb c "]" && (depth =? 0) then count
        else count_array_loop p' c count depth in_string
      else count_array_loop p' c count depth in_string
  end.

Definition count_array_elements (p : string) : Z :=
  match p with
  | String c p' =>
      if Ascii.eqb c "[" then count_array_loop p' c 0 0 false else 0
  | EmptyString => 0
  end.

(** The loop that moves [p] past the end of the object it is in: it runs
    while [p] is not at the terminator and [depth > 0]. *)
Fixpoint skip_object (p : string) (depth : Z) : string :=
  match p with
  | EmptyString => p
  | String c p' =>
      if depth >? 0 then
        skip_object p'
          (if Ascii.eqb c "{" then depth + 1
           else if Ascii.eqb c "}" then depth - 1
           else depth)
      else p
  end.

(** Assignments to the fields of a task. *)
Definition set_id (t : Task) (v : Z) : Task :=
  Task.mk v (Task.name t) (Task.type t) (Task.duration_slots t) (Task.priority t)
    (Task.deadline_slot t) (Task.is_fixed t) (Task.preferred_energy t).

Definition set_name (t : Task) (v : string) : Task :=
  Task.mk (Task.id t) v (Task.type t) (Task.duration_slots t) (Task.priority t)
    (Task.deadline_slot t) (Task.is_fixed t) (Task.preferred_energy t).

Definition set_type (t : Task) (v : TaskType) : Task :=
  Task.mk (Task.id t) (Task.name t) v (Task.duration_slots t) (Task.priority t)
    (Task.deadline_slot t) (Task.is_fixed t) (Task.preferred_energy t).

Definition set_duration_slots (t : Task) (v : Z) : Task :=
  Task.mk (Task.id t) (Task.name t) (Task.type t) v (Task.priority t)
    (Task.deadline_slot t) (Task.is_fixed t) (Task.preferred_energy t).

Definition set_priority (t : Task) (v : Z) : Task :=
  Task.mk (Task.id t) (Task.name t) (Task.type t) (Task.duration_slots t) v
    (Task.deadline_slot t) (Task.is_fixed t) (Task.preferred_energy t).

Definition set_deadline_slot (t : Task) (v : Z) : Task :=
  Task.mk (Task.id t) (Task.name t) (Task.type t) (Task.duration_slots t)
    (Task.priority t) v (Task.is_fixed t) (Task.preferred_energy t).

Definition set_task_is_fixed (t : Task) (v : bool) : Task :=
  Task.mk (Task.id t) (Task.name t) (Task.type t) (Task.duration_slots t)
    (Task.priority t) (Task.deadline_slot t) v (Task.preferred_energy t).

Definition set_preferred_energy (t : Task) (v : Z) : Task :=
  Task.mk (Task.id t) (Task.name t) (Task.type t) (Task.duration_slots t)
    (Task.priority t) (Task.deadline_slot t) (Task.is_fixed t) v.

Definition set_slot_index (s : TimeSlot) (v : Z) : TimeSlot :=
  TimeSlot.mk v (TimeSlot.task_id s) (TimeSlot.energy_level s) (TimeSlot.is_fixed s).

(** The size of the local buffer [type_str]. *)
Definition TYPE_STR_LEN : Z := 64.

(** The field assignments made for one task object.  [find_key] searches
    from [obj_start] to the end of the document.  When the value of
    ["type"] is not a string, [parse_string] writes nothing and
    [task_type_from_string] reads [type_str] uninitialised: [Fault]. *)
Definition parse_task_fields (obj_start : string) (task : Task) : outcome Task :=
  let task :=
    match find_key obj_start "id" with
    | Some val => set_id task (fst (parse_int val))
    | None => task
    end in
  task <-
    match find_key obj_start "name" with
    | Some val =>
        r <- parse_string val MAX_NAME_LEN ;;
        Ret (match r with
             | Some (dest, _) => set_name task dest
             | None => task
             end)
    | None => Ret task
    end ;;
  task <-
    match find_key obj_start "type" with
    | Some val =>
        r <- parse_string val TYPE_STR_LEN ;;
        match r with
        | Some (type_str, _) =>
            type <- task_type_from_string (Some type_str) ;;
            Ret (if type >=? 0
                 then match TaskType_of_int type with
                      | Some ty => set_type task ty
                      | None => task
                      end
                 else task)
        | None => Fault
        end
    | None => Ret task
    end ;;
  let task :=
    match find_key obj_start "duration_slots" with
    | Some val => set_duration_slots task (fst (parse_int val))
    | None => task
    end in
  let task :=
    match find_key obj_start "priority" with
    | Some val => set_priority task (fst (parse_int val))
    | None => task
    end in
  let task :=
    match find_key obj_start "deadline_slot" with
    | Some val => set_deadline_slot task (fst (parse_int val))
    | None => task
    end in
  let task :=
    match find_key obj_start "is_fixed" with
    | Some val =>
        match parse_bool val with
        | Some (b, _) => set_task_is_fixed task b
        | None => task
        end
    | None => task
    end in
  let task :=
    match find_key obj_start "preferred_energy" with
    | Some val => set_preferred_energy task (fst (parse_int val))
    | None => task
    end in
  Ret task.

(** The step shared by the two object loops: from [p], the start of the
    next object and the pointer past its end; [None] is the [break]. *)
Definition next_object (p : string) : option (string * string) :=
  let p := skip_whitespace p in
  match p with
  | String c p' =>
      if Ascii.eqb c "{" then Some (p, skip_object p' 1) else None
  | EmptyString => None
  end.

(** Skips white space, then one comma if there is one. *)
Definition skip_comma (p : string) : string :=
  let p := skip_whitespace p in
  match p with
  | String c p' => if Ascii.eqb c "," then p' else p
  | EmptyString => p
  end.

(** The loop over the task objects: [n] iterations are left. *)
Fixpoint parse_tasks_loop (p : string) (tasks : list Task) (n : nat) (i : Z)
  : outcome (list Task) :=
  match n with
  | O => Ret tasks
  | S n' =>
      match next_object p with
      | None => Ret tasks
      | Some (obj_start, p) =>
          task <- array_get tasks i ;;
          task <- parse_task_fields obj_start task ;;
          tasks <- array_set tasks i task ;;
          parse_tasks_loop (skip_comma p) tasks n' (i + 1)
      end
  end.

Definition parse_slot_fields (obj_start : string) (slot : TimeSlot) : TimeSlot :=
  let slot :=
    match find_key obj_start "slot_index" with
    | Some val => set_slot_index slot (fst (parse_int val))
    | None => slot
    end in
  let slot :=
    match find_key obj_start "task_id" with
    | Some val => set_task_id slot (fst (parse_int val))
    | None => slot
    end in
  set_is_fixed slot true.

(** The loop over the fixed-slot objects: [n] iterations are left. *)
Fixpoint parse_slots_loop (p : string) (slots : list TimeSlot) (n : nat) (i : Z)
  : outcome (list TimeSlot) :=
  match n with
  | O => Ret slots
  | S n' =>
      match next_object p with
      | None => Ret slots
      | Some (obj_start, p) =>
          slot <- array_get slots i ;;
          slots <- array_set slots i (parse_slot_fields obj_start slot) ;;
          parse_slots_loop (skip_comma p) slots n' (i + 1)
      end
  end.

Definition timeslot_array_create {IO : IoLibc} (count : Z) : option (list TimeSlot) :=
  if (count <=? 0) || (count >? MAX_SLOTS) then None
  else if io_malloc_succeeds AllocFixedSlots
       then Some (init_slots (Z.to_nat count) 0)
       else None.

(** The code [parse_json_input] returns and the four values it has then
    written through its out-pointers. *)
Module Parsed.
Record t : Type := mk {
  status : Z;
  tasks : option (list Task);
  num_tasks : Z;
  fixed_slots : option (list TimeSlot);
  num_fixed : Z
}.
End Parsed.
Abbreviation Parsed := Parsed.t.

Definition starts_with (c : ascii) (p : string) : bool :=
  match p with
  | String d _ => Ascii.eqb d c
  | EmptyString => false
  end.

(** The out-pointers of [parse_json_input]: a null pointer is [None], and
    a pointer to a variable of the caller is [Some] of what the variable
    holds.  The pointers that are not null point to variables of their
    own, as the four of [main] do. *)
Module Out.
Record t : Type := mk {
  tasks : option (option (list Task));
  num_tasks : option Z;
  fixed_slots : option (option (list TimeSlot));
  num_fixed : option Z
}.
End Out.
Abbreviation Out := Out.t.

(** The body of [parse_json_input] behind its guard, where the five
    pointers are not null: the four variables are set to [NULL] and [0]
    first, so what they hold at the end does not depend on what they
    held. *)
Definition parse_document {L : Libc} {IO : IoLibc} (json_input : string)
  : outcome Parsed :=
      let tasks_start := find_key json_input "tasks" in
      t <-
        match tasks_start with
        | Some tasks_start =>
            if starts_with "[" tasks_start then
              let count := count_array_elements tasks_start in
              if (count >? 0) && (count <=? MAX_TASKS) then
                match task_array_create count with
                | None => Ret (-1, None, 0)
                | Some tasks =>
                    tasks <- parse_tasks_loop (string_drop 1 tasks_start) tasks
                               (Z.to_nat count) 0 ;;
                    Ret (0, Some tasks, count)
                end
              else Ret (0, None, 0)
            else Ret (0, None, 0)
        | None => Ret (0, None, 0)
        end ;;
      let '(status, tasks, num_tasks) := t in
      if status =? -1 then Ret (Parsed.mk (-1) None 0 None 0)
      else
        let fixed_start := find_key json_input "fixed_slots" in
        match fixed_start with
        | Some fixed_start =>
            if starts_with "[" fixed_start then
              let count := count_array_elements fixed_start in
              if (count >? 0) && (count <=? MAX_SLOTS) then
                match timeslot_array_create count with
                | None => Ret (Parsed.mk (-1) None 0 None 0)
                | Some slots =>
                    slots <- parse_slots_loop (string_drop 1 fixed_start) slots
                               (Z.to_nat count) 0 ;;
                    Ret (Parsed.mk 0 tasks num_tasks (Some slots) count)
                end
              else Ret (Parsed.mk 0 tasks num_tasks None 0)
            else Ret (Parsed.mk 0 tasks num_tasks None 0)
        | None => Ret (Parsed.mk 0 tasks num_tasks None 0)
        end.

(** The variables behind the four out-pointers after the body. *)
Definition written (r : Parsed) : Out :=
  Out.mk (Some (Parsed.tasks r)) (Some (Parsed.num_tasks r))
    (Some (Parsed.fixed_slots r)) (Some (Parsed.num_fixed r)).

(** [parse_json_input]: the code returned and the out-pointers with what
    their variables hold then.  With a null pointer among the five
    arguments nothing is written. *)
Definition parse_json_input {L : Libc} {IO : IoLibc} (json_input : option string)
    (out : Out) : outcome (Z * Out) :=
  match json_input, Out.tasks out, Out.num_tasks out, Out.fixed_slots out,
        Out.num_fixed out with
  | Some json_input, Some _, Some _, Some _, Some _ =>
      r <- parse_document json_input ;;
      Ret (Parsed.status r, written r)
  | _, _, _, _, _ => Ret (-1, out)
  end.

(** ** Entry point ([main.c]) *)

Definition MAX_INPUT_SIZE : Z := 1024 * 1024.

Definition nul : ascii := "000"%char.

(** What the [fread] loop of [main] stores: the first [room] bytes of the
    standard input. *)
Fixpoint read_input (stdin : string) (room : Z) : string :=
  match stdin with
  | EmptyString => EmptyString
  | String c stdin' =>
      if room <=? 0 then EmptyString else String c (read_input stdin' (room - 1))
  end.

(** The C string held by bytes that a terminator follows: the bytes in
    front of the first NUL. *)
Fixpoint c_string (bytes : string) : string :=
  match bytes with
  | EmptyString => EmptyString
  | String c bytes' => if Ascii.eqb c nul then EmptyString else String c (c_string bytes')
  end.

(** The one-line documents [main] writes to the standard error. *)
Definition error_document (message : string) : string :=
  String.append "{"
    (String.append (json_key "" "success")
       (String.append "false, "
          (String.append (json_key "" "error_message")
             (String quote
                (String.append message
                   (String quote (String.append "}" newline))))))).

(** What a run of the program leaves: its exit code and what it wrote. *)
Module Run.
Record t : Type := mk {
  exit_code : Z;
  stdout : string;
  stderr : string
}.
End Run.
Abbreviation Run := Run.t.

(** The variables [tasks], [num_tasks], [fixed_slots] and [num_fixed] of
    [main] as it hands over their addresses.  The pointers are not null,
    which leaves nothing to the last case of the [match] in [main]. *)
Definition main_locals : Out := Out.mk (Some None) (Some 0) (Some None) (Some 0).

Definition main {L : Libc} {IO : IoLibc} (stdin : string) : outcome Run :=
  if io_malloc_succeeds AllocInput then
    let input := c_string (read_input stdin (MAX_INPUT_SIZE - 1)) in
    r <- parse_json_input (Some input) main_locals ;;
    if negb (fst r =? 0) then
      Ret (Run.mk 1 EmptyString (error_document "Failed to parse input JSON"))
    else
      match Out.tasks (snd r), Out.num_tasks (snd r), Out.fixed_slots (snd r),
            Out.num_fixed (snd r) with
      | Some tasks, Some num_tasks, Some fixed_slots, Some num_fixed =>
          timeline <- optimize_schedule tasks num_tasks fixed_slots num_fixed ;;
          match timeline with
          | None => Ret (Run.mk 1 EmptyString (error_document "Optimization failed"))
          | Some timeline =>
              json_output <- timeline_to_json (Some timeline) ;;
              match json_output with
              | None =>
                  Ret (Run.mk 1 EmptyString
                         (error_document "JSON serialization failed"))
              | Some json_output => Ret (Run.mk 0 json_output EmptyString)
              end
          end
      | _, _, _, _ => Fault
      end
  else Ret (Run.mk 1 EmptyString (error_document "Memory allocation failed")).

(** * Notions used to state the properties *)

(** ** The contract of the C library *)

(** What the C standard asks of a comparison function: it is a total
    ordering on the array.  On the elements of [l], the sign of [cmp a b]
    is opposite to the sign of [cmp b a], and the induced order is
    transitive. *)
Definition comparator_ok (cmp : Task -> Task -> Z) (l : list Task) : Prop :=
  (forall a b, In a l -> In b l -> Z.sgn (cmp a b) = - Z.sgn (cmp b a)) /\
  (forall a b c, In a l -> In b l -> In c l ->
     cmp a b <= 0 -> cmp b c <= 0 -> cmp a c <= 0).

(** What is taken of [qsort]: it rearranges the array, and into ascending
    order according to [cmp] when [cmp] is a total ordering on the array,
    as the C standard promises.  The order of elements that compare equal
    is left unspecified.  For a comparison function that is no ordering
    on the array the standard promises nothing; the contract keeps that
    the sort only moves the elements. *)
Definition qsort_conforms (L : Libc) : Prop :=
  forall cmp l,
    Permutation l (qsort cmp l) /\
    (comparator_ok cmp l ->
     StronglySorted (fun a b => cmp a b <= 0) (qsort cmp l)).


Definition allocations_succeed (L : Libc) : Prop :=
  forall site, malloc_succeeds site = true.

(** A sort that meets the contract and is stable.  It inserts the
    elements one by one, from the last to the first, each in front of the
    first element it does not compare greater than. *)
Fixpoint insert_sorted (cmp : Task -> Task -> Z) (x : Task) (l : list Task)
  : list Task :=
  match l with
  | [] => [x]
  | y :: l' => if cmp x y <=? 0 then x :: l else y :: insert_sorted cmp x l'
  end.

Definition insertion_sort (cmp : Task -> Task -> Z) (l : list Task) : list Task :=
  foldr (insert_sorted cmp) [] l.

Definition stable_libc : Libc :=
  {| malloc_succeeds := fun _ => true; qsort := insertion_sort |}.

(** ** Inputs *)

(** The elements a call hands over through a pointer and a count. *)
Definition input_tasks (tasks : option (list Task)) (num_tasks : Z) : list Task :=
  match tasks with
  | Some a => take (Z.to_nat num_tasks) a
  | None => []
  end.

Definition input_fixed (fixed_slots : option (list TimeSlot)) (num_fixed : Z)
  : list TimeSlot :=
  match fixed_slots with
  | Some a => take (Z.to_nat num_fixed) a
  | None => []
  end.

(** The array behind a pointer holds at least the announced number of
    elements. *)
Definition array_ok {A : Type} (a : option (list A)) (n : Z) : Prop :=
  match a with
  | Some l => n <= Z.of_nat (length l)
  | None => True
  end.

(** The task id carried by the last descriptor for slot [i], if any. *)
Definition fixed_task_id (fixed : list TimeSlot) (i : Z) : option Z :=
  fold_left
    (fun acc f => if TimeSlot.slot_index f =? i then Some (TimeSlot.task_id f) else acc)
    fixed None.

(** The sequence [backtrack] iterates over. *)
Definition working_tasks {L : Libc} (tasks : option (list Task)) (num_tasks : Z)
  : list Task :=
  qsort task_compare_priority (input_tasks tasks num_tasks).

(** The first part of [optimize_schedule] on a valid task count: the fresh
    seven-day timeline with the fixed-slot descriptors applied, as it is
    handed to the search. *)
Definition timeline_after_fixed (fixed_slots : option (list TimeSlot)) (num_fixed : Z)
  : outcome Timeline :=
  match fixed_slots with
  | Some fs =>
      if num_fixed >? 0
      then apply_fixed_slots fs (timeline_init 7) (Z.to_nat num_fixed) 0
      else Ret (timeline_init 7)
  | None => Ret (timeline_init 7)
  end.

(** ** Timelines *)

Definition wf_timeline (tl : Timeline) : Prop :=
  0 <= Timeline.num_slots tl /\
  Z.of_nat (length (Timeline.slots tl)) = Timeline.num_slots tl.

Definition slot_is_free (s : TimeSlot) : bool :=
  (TimeSlot.task_id s =? -1) && negb (TimeSlot.is_fixed s).

Definition free_at (tl : Timeline) (i : Z) : bool :=
  (0 <=? i) && (i <? Timeline.num_slots tl) &&
  match Timeline.slots tl !! Z.to_nat i with
  | Some s => slot_is_free s
  | None => false
  end.

(** Feasibility of a start slot: in bounds, before the deadline, on empty
    slots that are not fixed. *)
Definition fits (tl : Timeline) (task : Task) (s : Z) : Prop :=
  0 <= s /\
  s + Task.duration_slots task <= Timeline.num_slots tl /\
  (Task.deadline_slot task >= 0 -> s + Task.duration_slots task <= Task.deadline_slot task) /\
  forall i, s <= i < s + Task.duration_slots task -> free_at tl i = true.

Definition fitsb (tl : Timeline) (task : Task) (s : Z) : bool :=
  (0 <=? s) &&
  (s + Task.duration_slots task <=? Timeline.num_slots tl) &&
  ((Task.deadline_slot task <? 0) ||
   (s + Task.duration_slots task <=? Task.deadline_slot task)) &&
  forallb (free_at tl) (seqZ s (Task.duration_slots task)).

(** The timeline with the task id of the slots [start .. start + d - 1]
    set to [v]. *)
Definition fill (tl : Timeline) (start v d : Z) : Timeline :=
  set_slots tl
    (imap (fun i s => if decide (start <= Z.of_nat i < start + d)
                      then set_task_id s v else s)
       (Timeline.slots tl)).

(** [placed rest task_index tl pl tl']: starting from [tl], the tasks of
    [rest] that are not fixed have been put one after the other on a feasible
    start, recorded in [pl] at their index, and the result is [tl']. *)
Inductive placed : list Task -> Z -> Timeline -> list Z -> Timeline -> Prop :=
  | placed_nil task_index tl pl :
      placed [] task_index tl pl tl
  | placed_fixed task rest task_index tl pl tl' :
      Task.is_fixed task = true ->
      placed rest (task_index + 1) tl pl tl' ->
      placed (task :: rest) task_index tl pl tl'
  | placed_task task rest task_index tl pl tl' s :
      Task.is_fixed task = false ->
      fits tl task s ->
      0 <= task_index ->
      pl !! Z.to_nat task_index = Some s ->
      placed rest (task_index + 1)
        (fill tl s (Task.id task) (Task.duration_slots task)) pl tl' ->
      placed (task :: rest) task_index tl pl tl'.

(** The slots bearing [id] are exactly the [d] slots from [s] on: one run
    of [d] slots, with every slot outside it (the two bordering it too)
    bearing another id or the empty sentinel. *)
Definition occupies (tl : Timeline) (id s d : Z) : Prop :=
  0 <= s /\ 0 <= d /\ s + d <= Timeline.num_slots tl /\
  forall i sl, Timeline.slots tl !! i = Some sl ->
    (TimeSlot.task_id sl = id <-> s <= Z.of_nat i < s + d).

Definition ranges_disjoint (s1 d1 s2 d2 : Z) : Prop :=
  forall i, s1 <= i < s1 + d1 -> s2 <= i < s2 + d2 -> False.

(** An assignment gives a start to every task (the start of a fixed task is
    ignored).  It is feasible on [tl] when every task that is not fixed fits
    on [tl] at its start and no two of their ranges overlap. *)
Definition assignment_fits (tl : Timeline) (a : Task * Z) : Prop :=
  Task.is_fixed (fst a) = false -> fits tl (fst a) (snd a).

Definition assignment_apart (a b : Task * Z) : Prop :=
  Task.is_fixed (fst a) = false -> Task.is_fixed (fst b) = false ->
  ranges_disjoint (snd a) (Task.duration_slots (fst a))
                  (snd b) (Task.duration_slots (fst b)).

(** The start of a task that is not fixed is a slot of the timeline. *)
Definition assignment_on_timeline (tl : Timeline) (a : Task * Z) : Prop :=
  Task.is_fixed (fst a) = false -> snd a < Timeline.num_slots tl.

Definition feasible (tl : Timeline) (asg : list (Task * Z)) : Prop :=
  Forall (assignment_fits tl) asg /\ ForallOrdPairs assignment_apart asg.

(** ** Candidates *)

(** The candidate list in the order [backtrack] walks through it. *)
Definition tried_candidates (tl : Timeline) (task : Task) : outcome (list SlotScore) :=
  candidates <- collect_candidates tl task (Z.to_nat (Timeline.num_slots tl)) 0 ;;
  Ret (sort_candidates candidates).

Definition candidate_of (task : Task) (s : Z) : SlotScore :=
  SlotScore.mk s (calculate_energy_score task s).

(** Candidates of equal score are in ascending slot order. *)
Definition tie_ordered (a b : SlotScore) : Prop :=
  SlotScore.score a = SlotScore.score b -> SlotScore.slot a < SlotScore.slot b.

Definition score_ge (a b : SlotScore) : Prop :=
  SlotScore.score a >= SlotScore.score b.

(** Descending score, ties by ascending slot. *)
Definition tried_before (a b : SlotScore) : Prop :=
  SlotScore.score a > SlotScore.score b \/
  (SlotScore.score a = SlotScore.score b /\ SlotScore.slot a < SlotScore.slot b).

(** One step of the running maximum [find_best_slot] keeps: the pair
    ([best_slot], [best_score]) after candidate [c] has been looked at. *)
Definition best_step (best : Z * Z) (c : SlotScore) : Z * Z :=
  if SlotScore.score c >? snd best
  then (SlotScore.slot c, SlotScore.score c)
  else best.

(** ** Decimal numerals *)

(** The number a decimal numeral denotes, read from the left with the
    digits seen so far in [acc]. *)
Fixpoint uint_value (d : Decimal.uint) (acc : Z) : Z :=
  match d with
  | Decimal.Nil => acc
  | Decimal.D0 l => uint_value l (acc * 10 + 0)
  | Decimal.D1 l => uint_value l (acc * 10 + 1)
  | Decimal.D2 l => uint_value l (acc * 10 + 2)
  | Decimal.D3 l => uint_value l (acc * 10 + 3)
  | Decimal.D4 l => uint_value l (acc * 10 + 4)
  | Decimal.D5 l => uint_value l (acc * 10 + 5)
  | Decimal.D6 l => uint_value l (acc * 10 + 6)
  | Decimal.D7 l => uint_value l (acc * 10 + 7)
  | Decimal.D8 l => uint_value l (acc * 10 + 8)
  | Decimal.D9 l => uint_value l (acc * 10 + 9)
  end.

Definition starts_with_digit (p : string) : bool :=
  match p with
  | String c _ => is_digit c
  | EmptyString => false
  end.

(** ** Texts *)

Fixpoint string_forall (f : ascii -> bool) (s : string) : bool :=
  match s with
  | EmptyString => true
  | String c s' => f c && string_forall f s'
  end.

(** The characters of a decimal numeral. *)
Definition numeral_char (c : ascii) : bool := is_digit c || Ascii.eqb c "-".

Definition numeral (s : string) : bool := string_forall numeral_char s.

(** Printable characters with no meaning of their own for the parser:
    no quote, no backslash, no brace. *)
Definition ordinary_char (c : ascii) : bool :=
  (32 <=? nat_of_ascii c)%nat &&
  negb (Ascii.eqb c quote) && negb (Ascii.eqb c backslash) &&
  negb (Ascii.eqb c "{") && negb (Ascii.eqb c "}").

Definition ordinary (s : string) : bool := string_forall ordinary_char s.

Definition no_quote (s : string) : bool :=
  string_forall (fun c => negb (Ascii.eqb c quote)) s.

Definition no_brace (s : string) : bool :=
  string_forall (fun c => negb (Ascii.eqb c "{") && negb (Ascii.eqb c "}")) s.

(** A key short enough to stand between its quotes in the 256 bytes of
    [search]. *)
Definition key_fits (key : string) : bool := (String.length key <=? 253)%nat.

(** A string between quotes, followed by [rest]. *)
Definition quoted (s rest : string) : string :=
  String quote (String.append s (String quote rest)).

(** The text after the colon that follows a key, as [find_key] returns it. *)
Definition after_colon (p : string) : string :=
  let p := skip_whitespace p in
  skip_whitespace (match p with
                   | String c rest => if Ascii.eqb c ":" then rest else p
                   | EmptyString => p
                   end).

(** ** Output documents *)

(** The text [timeline_to_json] writes in front of the slots. *)
Definition document_head (escaped_error : string) (tl : Timeline) (rest : string)
  : string :=
  String.append (String.append "{" newline)
   (String.append (json_key "  " "success")
    (String.append (bool_to_json (Timeline.success tl))
     (String.append (String.append "," newline)
      (String.append (json_key "  " "error_message")
       (String.append escaped_error
        (String.append (String.append "," newline)
         (String.append (json_key "  " "num_slots")
          (String.append (int_to_string (Timeline.num_slots tl))
           (String.append (String.append "," newline)
            (String.append (String.append (json_key "  " "slots") "[")
             (String.append newline rest))))))))))).

Definition escaped_message {L : Libc} (tl : Timeline) : string :=
  match json_escape_string (Some (Timeline.error_message tl)) with
  | Some escaped_error => escaped_error
  | None => str2 quote quote
  end.

(** The text of one slot, as [slots_to_json] appends it. *)
Definition slot_text (slot_index task_id energy_level : string) (is_fixed comma : bool)
    (rest : string) : string :=
  String.append (String.append "    {" newline)
   (String.append (json_key "      " "slot_index")
    (String.append slot_index
     (String.append (String.append "," newline)
      (String.append (json_key "      " "task_id")
       (String.append task_id
        (String.append (String.append "," newline)
         (String.append (json_key "      " "energy_level")
          (String.append energy_level
           (String.append (String.append "," newline)
            (String.append (json_key "      " "is_fixed")
             (String.append (bool_to_json is_fixed)
              (String.append newline
               (String.append "    }"
                (String.append (if comma then "," else EmptyString)
                 (String.append newline rest))))))))))))))).

(** The text of [n] slots from index [i] on. *)
Fixpoint slots_text (tl : Timeline) (n : nat) (i : Z) : outcome string :=
  match n with
  | O => Ret EmptyString
  | S n' =>
      slot <- array_get (Timeline.slots tl) i ;;
      rest <- slots_text tl n' (i + 1) ;;
      Ret (slot_text (int_to_string (TimeSlot.slot_index slot))
             (int_to_string (TimeSlot.task_id slot))
             (int_to_string (TimeSlot.energy_level slot))
             (TimeSlot.is_fixed slot) (i <? Timeline.num_slots tl - 1) rest)
  end.

(** A run of calls of [buffer_append] on the same buffer, followed by
    [k], and the text the calls append when none fails. *)
Fixpoint appends {IO : IoLibc} {B : Type} (pieces : list string)
    (k : StringBuffer -> outcome B) (buf : StringBuffer) : outcome B :=
  match pieces with
  | [] => k buf
  | str :: pieces' => buf <- append buf str ;; appends pieces' k buf
  end.

Definition pieces_text (pieces : list string) : string :=
  fold_right String.append EmptyString pieces.

(** The texts [timeline_to_json] appends in front of the slots, for one
    slot, and behind the slots. *)
Definition head_pieces {L : Libc} (tl : Timeline) : list string :=
  [ String.append "{" newline;
    json_key "  " "success";
    bool_to_json (Timeline.success tl);
    String.append "," newline;
    json_key "  " "error_message";
    escaped_message tl;
    String.append "," newline;
    json_key "  " "num_slots";
    int_to_string (Timeline.num_slots tl);
    String.append "," newline;
    String.append (json_key "  " "slots") (String.append "[" newline) ].

Definition slot_pieces (slot : TimeSlot) (comma : bool) : list string :=
  [ String.append "    {" newline;
    json_key "      " "slot_index";
    int_to_string (TimeSlot.slot_index slot);
    String.append "," newline;
    json_key "      " "task_id";
    int_to_string (TimeSlot.task_id slot);
    String.append "," newline;
    json_key "      " "energy_level";
    int_to_string (TimeSlot.energy_level slot);
    String.append "," newline;
    json_key "      " "is_fixed";
    bool_to_json (TimeSlot.is_fixed slot);
    newline;
    "    }"%string ] ++
  (if comma then [","%string] else []) ++ [newline].

Definition tail_pieces : list string :=
  [ String.append "  ]" newline; String.append "}" newline ].

(** No out-pointer is null. *)
Definition pointers_valid (out : Out) : Prop :=
  Out.tasks out <> None /\ Out.num_tasks out <> None /\
  Out.fixed_slots out <> None /\ Out.num_fixed out <> None.

(** What the four out-parameters hold fits what [optimize_schedule]
    expects of its arguments. *)
Definition parsed_ok (r : Parsed) : Prop :=
  0 <= Parsed.num_tasks r <= MAX_TASKS /\
  match Parsed.tasks r with
  | Some tasks => Z.of_nat (length tasks) = Parsed.num_tasks r /\ 1 <= Parsed.num_tasks r
  | None => Parsed.num_tasks r = 0
  end /\
  0 <= Parsed.num_fixed r <= MAX_SLOTS /\
  match Parsed.fixed_slots r with
  | Some slots => Z.of_nat (length slots) = Parsed.num_fixed r /\ 1 <= Parsed.num_fixed r
  | None => Parsed.num_fixed r = 0
  end.

(** The messages of the engine are ordinary texts and none is a key. *)
Definition engine_message (msg : string) : Prop :=
  ordinary msg = true /\ msg <> "num_slots"%string /\ msg <> "slots"%string.

(** ** Request documents

    The text of a request as a JSON library writes it, with [", "] between
    the members of an object and between the elements of an array, and
    [": "] behind a key. *)

Inductive json_value : Type :=
  | JInt (v : Z)
  | JString (s : string)
  | JBool (b : bool).

Definition value_text (v : json_value) (rest : string) : string :=
  match v with
  | JInt n => String.append (int_to_string n) rest
  | JString s => quoted s rest
  | JBool b => String.append (bool_to_json b) rest
  end.

Definition key_text (key rest : string) : string :=
  quoted key (String ":" (String " " rest)).

(** What follows a member or an element: the separator and the next ones,
    or [rest] behind the last one. *)
Definition separated {A : Type} (next : list A) (more rest : string) : string :=
  match next with
  | [] => rest
  | _ :: _ => String "," (String " " more)
  end.

Fixpoint members_text (members : list (string * json_value)) (rest : string) : string :=
  match members with
  | [] => rest
  | (key, v) :: members' =>
      key_text key (value_text v (separated members' (members_text members' rest) rest))
  end.

Definition object_text (members : list (string * json_value)) (rest : string) : string :=
  String "{" (members_text members (String "}" rest)).

Fixpoint elements_text (elements : list (list (string * json_value))) (rest : string)
  : string :=
  match elements with
  | [] => rest
  | e :: elements' =>
      object_text e (separated elements' (elements_text elements' rest) rest)
  end.

(** The name of a task type. *)
Definition type_name (ty : TaskType) : string :=
  match task_type_to_string (TaskType_to_int ty) with
  | Ret s => s
  | Fault => EmptyString
  end.

Definition task_members (t : Task) : list (string * json_value) :=
  [ ("id", JInt (Task.id t));
    ("name", JString (Task.name t));
    ("type", JString (type_name (Task.type t)));
    ("duration_slots", JInt (Task.duration_slots t));
    ("priority", JInt (Task.priority t));
    ("deadline_slot", JInt (Task.deadline_slot t));
    ("is_fixed", JBool (Task.is_fixed t));
    ("preferred_energy", JInt (Task.preferred_energy t)) ]%string.

Definition slot_members (s : TimeSlot) : list (string * json_value) :=
  [ ("slot_index", JInt (TimeSlot.slot_index s));
    ("task_id", JInt (TimeSlot.task_id s)) ]%string.

Definition request_document (tasks : list Task) (fixed_slots : list TimeSlot) : string :=
  String "{"
    (key_text "tasks"
       (String "["
          (elements_text (map task_members tasks)
             (String "]" (String "," (String " "
                (key_text "fixed_slots"
                   (String "["
                      (elements_text (map slot_members fixed_slots)
                         (String "]" (String "}" EmptyString))))))))))).

(** The keys of a request. *)
Definition request_keys : list string :=
  [ "tasks"; "fixed_slots"; "id"; "name"; "type"; "duration_slots"; "priority";
    "deadline_slot"; "is_fixed"; "preferred_energy"; "slot_index"; "task_id" ]%string.

(** A name the parser reads back: an ordinary text that fits the [name]
    field and is not itself a key. *)
Definition name_ok (name : string) : Prop :=
  ordinary name = true /\
  Z.of_nat (String.length name) < MAX_NAME_LEN /\
  ~ In name request_keys.

(** A key is found behind everything that is neither this key nor a
    string equal to it. *)
Definition member_clear (key : string) (m : string * json_value) : Prop :=
  fst m <> key /\ no_quote (fst m) = true /\
  match snd m with
  | JString s => s <> key /\ no_quote s = true
  | _ => True
  end.

(** Keys and strings without characters that end an object or a string
    early. *)
Definition member_plain (m : string * json_value) : Prop :=
  ordinary (fst m) = true /\
  match snd m with
  | JString s => ordinary s = true
  | _ => True
  end.

(** The first character of a key is none of the characters that follow a
    closing quote in a request. *)
Definition key_start (key : string) : bool :=
  match key with
  | String c _ =>
      negb (Ascii.eqb c ":") && negb (Ascii.eqb c ",") && negb (Ascii.eqb c "}") &&
      negb (Ascii.eqb c quote)
  | EmptyString => false
  end.

(** A fixed slot as the parser builds it from the element of index [i]. *)
Definition parsed_slot (i : nat) (s : TimeSlot) : TimeSlot :=
  TimeSlot.mk (TimeSlot.slot_index s) (TimeSlot.task_id s)
    (get_energy_level (Z.of_nat i)) true.

(** Numbers that are [int]s, and the tasks and fixed slots whose integer
    fields are. *)
Definition is_int (z : Z) : Prop := INT_MIN <= z <= INT_MAX.

Definition task_ints (t : Task) : Prop :=
  is_int (Task.id t) /\ is_int (Task.duration_slots t) /\ is_int (Task.priority t) /\
  is_int (Task.deadline_slot t) /\ is_int (Task.preferred_energy t).

Definition slot_ints (s : TimeSlot) : Prop :=
  is_int (TimeSlot.slot_index s) /\ is_int (TimeSlot.task_id s).

(** A task and a fixed slot as [parse_int] reads their integer fields. *)
Definition wrap_task (t : Task) : Task :=
  Task.mk (wrap_int (Task.id t)) (Task.name t) (Task.type t)
    (wrap_int (Task.duration_slots t)) (wrap_int (Task.priority t))
    (wrap_int (Task.deadline_slot t)) (Task.is_fixed t)
    (wrap_int (Task.preferred_energy t)).

Definition wrap_slot (s : TimeSlot) : TimeSlot :=
  TimeSlot.mk (wrap_int (TimeSlot.slot_index s)) (wrap_int (TimeSlot.task_id s))
    (TimeSlot.energy_level s) (TimeSlot.is_fixed s).

(** An array as the parser leaves it: no array for no element. *)
Definition array_of {A : Type} (l : list A) : option (list A) :=
  match l with
  | [] => None
  | _ :: _ => Some l
  end.

(** An array the parser reads when it has at most [limit] elements. *)
Definition capped {A : Type} (limit : Z) (l : list A) : list A :=
  if Z.of_nat (length l) <=? limit then l else [].

(** Texts without a terminator inside. *)
Definition no_nul (s : string) : bool :=
  string_forall (fun c => negb (Ascii.eqb c nul)) s.

(** A buffer that holds a C string within its capacity: [size] is the
    length of the string, and the terminator fits. *)
Definition buffer_valid (buf : StringBuffer) : Prop :=
  StringBuffer.size buf = Z.of_nat (String.length (StringBuffer.data buf)) /\
  StringBuffer.size buf < StringBuffer.capacity buf.

(** ** Task order *)



(** ** Fixed slots *)

(** The effect of one descriptor. *)
Definition apply_descriptor (tl : Timeline) (f : TimeSlot) : Timeline :=
  let idx := TimeSlot.slot_index f in
  if (idx >=? 0) && (idx <? Timeline.num_slots tl) then
    set_slots tl
      (alter (fun s => set_is_fixed (set_task_id s (TimeSlot.task_id f)) true)
         (Z.to_nat idx) (Timeline.slots tl))
  else tl.

(** The timeline after the descriptors [fixed] have been applied. *)
Definition with_fixed (fixed : list TimeSlot) : Timeline :=
  fold_left apply_descriptor fixed (timeline_init 7).

(** Slot [i] as the descriptors [fixed] leave it. *)
Definition fixed_slot (fixed : list TimeSlot) (i : Z) : TimeSlot :=
  match fixed_task_id fixed i with
  | Some v => TimeSlot.mk i v (get_energy_level i) true
  | None => timeslot_init i
  end.

(** Slot [i] is named by one of the descriptors. *)
Definition is_fixed_slot (fixed : list TimeSlot) (i : Z) : Prop :=
  exists f, In f fixed /\ TimeSlot.slot_index f = i.

(** The range of a task that is not fixed lies inside the timeline and off
    the fixed slots, and ends on or before the deadline if there is one. *)
Definition range_allowed (fixed : list TimeSlot) (num_slots : Z) (a : Task * Z) : Prop :=
  Task.is_fixed (fst a) = false ->
  (forall i, snd a <= i < snd a + Task.duration_slots (fst a) ->
     0 <= i < num_slots /\ ~ is_fixed_slot fixed i) /\
  (Task.deadline_slot (fst a) >= 0 ->
     snd a + Task.duration_slots (fst a) <= Task.deadline_slot (fst a)).

(** There is an assignment of start slots under which every range is
    allowed and no two ranges overlap. *)
Definition schedulable (tasks : list Task) (fixed : list TimeSlot) (num_slots : Z)
  : Prop :=
  exists asg : list (Task * Z),
    map fst asg = tasks /\
    Forall (range_allowed fixed num_slots) asg /\
    ForallOrdPairs assignment_apart asg.

(** A task whose range is empty can start anywhere; the search puts it on
    slot 0. *)
Definition normalise (a : Task * Z) : Task * Z :=
  (fst a, if Task.duration_slots (fst a) <=? 0 then 0 else snd a).

(** ** Properties of a call, as the specification words them *)

(** Task ids are pairwise distinct and differ from the ids carried by the
    fixed-slot descriptors. *)
Definition distinct_ids (tasks : list Task) (fixed : list TimeSlot) : Prop :=
  List.NoDup (map Task.id tasks) /\
  forall task f, In task tasks -> In f fixed -> Task.id task <> TimeSlot.task_id f.

(** On success every task that is not fixed has its id on exactly one run
    of [duration_slots] slots, and the runs of two tasks do not overlap. *)
Definition contiguous_runs {L : Libc} (tasks : option (list Task)) (num_tasks : Z)
    (fixed_slots : option (list TimeSlot)) (num_fixed : Z) : Prop :=
  forall tl,
    optimize_schedule tasks num_tasks fixed_slots num_fixed = Ret (Some tl) ->
    Timeline.success tl = true ->
    (forall task, In task (input_tasks tasks num_tasks) ->
       Task.is_fixed task = false ->
       exists s, occupies tl (Task.id task) s (Task.duration_slots task)) /\
    (forall t1 t2 s1 s2,
       In t1 (input_tasks tasks num_tasks) -> In t2 (input_tasks tasks num_tasks) ->
       Task.is_fixed t1 = false -> Task.is_fixed t2 = false ->
       Task.id t1 <> Task.id t2 ->
       occupies tl (Task.id t1) s1 (Task.duration_slots t1) ->
       occupies tl (Task.id t2) s2 (Task.duration_slots t2) ->
       ranges_disjoint s1 (Task.duration_slots t1) s2 (Task.duration_slots t2)).

(** In the returned timeline every slot named by a descriptor carries the
    task id of the last descriptor that names it and is fixed; the other
    slots are not fixed. *)
Definition fixed_slots_kept {L : Libc} (tasks : option (list Task)) (num_tasks : Z)
    (fixed_slots : option (list TimeSlot)) (num_fixed : Z) : Prop :=
  forall tl,
    optimize_schedule tasks num_tasks fixed_slots num_fixed = Ret (Some tl) ->
    forall i, 0 <= i < MAX_SLOTS ->
      match fixed_task_id (input_fixed fixed_slots num_fixed) i with
      | Some v =>
          exists sl, Timeline.slots tl !! Z.to_nat i = Some sl /\
            TimeSlot.slot_index sl = i /\ TimeSlot.task_id sl = v /\
            TimeSlot.is_fixed sl = true
      | None =>
          exists sl, Timeline.slots tl !! Z.to_nat i = Some sl /\
            TimeSlot.is_fixed sl = false
      end.

(** ** Sample inputs *)

(** The task of [test_single_task]. *)
Definition study_task : Task :=
  Task.mk 1 "Study Math" TASK_STUDY 2 PRIORITY_REGULAR_STUDY (-1) false ENERGY_ANY.

(** A second task of the same priority. *)
Definition practice_task : Task :=
  Task.mk 2 "Practice" TASK_PRACTICE 1 PRIORITY_REGULAR_STUDY (-1) false ENERGY_ANY.

(** A task that cannot meet its deadline. *)
Definition late_task : Task :=
  Task.mk 1 "Late" TASK_STUDY 10 PRIORITY_REGULAR_STUDY 5 false ENERGY_ANY.

(** A task with a negative duration. *)
Definition negative_task : Task :=
  Task.mk 1 "Negative" TASK_STUDY (-1) PRIORITY_REGULAR_STUDY (-1) false ENERGY_ANY.

(** The task of scenario S3: duration 2, deadline 10. *)
Definition due_task : Task :=
  Task.mk 3 "Due" TASK_STUDY 2 PRIORITY_REGULAR_STUDY 10 false ENERGY_ANY.



(** A task of priority 85. *)
Definition exam_task : Task :=
  Task.mk 3 "Exam" TASK_REVISION 2 85 (-1) false ENERGY_ANY.

(** A descriptor fixing slot 16. *)
Definition class_slot : TimeSlot := TimeSlot.mk 16 7 0 true.

(** A request with two tasks and one fixed slot. *)
Definition sample_request : string :=
  request_document [study_task; practice_task] [class_slot].

(** An environment in which the allocations of the input path succeed. *)
Definition stable_io : IoLibc := {| io_malloc_succeeds := fun _ => true |}.

(** A successful timeline of two slots. *)
Definition short_timeline : Timeline :=
  Timeline.mk [timeslot_init 0; timeslot_init 1] 2 true "ok".

(** ** Strings *)

(** Characters [json_escape_string] writes without a [\u] escape. *)
Definition plain_char (c : ascii) : bool :=
  (32 <=? nat_of_ascii c)%nat ||
  Ascii.eqb c char_b || Ascii.eqb c char_f || Ascii.eqb c char_n ||
  Ascii.eqb c char_r || Ascii.eqb c char_t.

Fixpoint all_plain (str : string) : bool :=
  match str with
  | EmptyString => true
  | String c str' => plain_char c && all_plain str'
  end.

(** An error message holding the control character of code 1, and a
    one-slot timeline that carries it. *)
Definition control_message : string := str1 "001"%char.

Definition failed_timeline : Timeline :=
  Timeline.mk [timeslot_init 0] 1 false control_message.

(** ** The search *)

(** What [backtrack] needs of its state: a well-formed timeline and room
    in [placements] for the tasks still to come. *)
Definition state_ok (rest : list Task) (task_index : Z) (st : State) : Prop :=
  wf_timeline (State.timeline st) /\
  0 <= task_index /\
  task_index + Z.of_nat (length rest) <= Z.of_nat (length (State.placements st)).

(** What [backtrack rest task_index st] guarantees of its result [r]. *)
Definition search_post (rest : list Task) (task_index : Z) (st : State)
    (r : bool * State) : Prop :=
  wf_timeline (State.timeline (snd r)) /\
  length (State.placements (snd r)) = length (State.placements st) /\
  (forall j, (j < Z.to_nat task_index)%nat ->
     State.placements (snd r) !! j = State.placements st !! j) /\
  (fst r = false -> State.timeline (snd r) = State.timeline st) /\
  (fst r = true ->
     placed rest task_index (State.timeline st)
       (State.placements (snd r)) (State.timeline (snd r))).

(** * Properties *)

(** Turns boolean comparisons in [H] into arithmetic facts. *)
Ltac bool_to_prop H :=
  rewrite ?orb_true_iff, ?orb_false_iff, ?andb_true_iff, ?andb_false_iff,
    ?negb_true_iff, ?negb_false_iff,
    ?Z.leb_le, ?Z.leb_gt, ?Z.ltb_lt, ?Z.ltb_ge, ?Z.geb_le, ?Z.gtb_lt,
    ?Z.eqb_eq, ?Z.eqb_neq in H.

(** Case analysis on the condition of the first [if] of the goal. *)
Ltac case_if :=
  match goal with
  | |- context [if ?b then _ else _] =>
      let E := fresh "E" in destruct b eqn:E; bool_to_prop E
  end.

(** ** Energy map *)

Lemma slot_to_hour_nonneg (i : Z) :
  0 <= i -> slot_to_hour i = (i mod 48) / 2 /\ 0 <= slot_to_hour i < 24.
Proof.
  intros Hi. unfold slot_to_hour, SLOTS_PER_DAY.
  rewrite Z.rem_mod_nonneg by lia.
  pose proof (Z.mod_pos_bound i 48 ltac:(lia)) as Hm.
  rewrite Z.quot_div_nonneg by lia.
  split; [reflexivity|].
  split; [apply Z.div_pos; lia|].
  apply Z.div_lt_upper_bound; lia.
Qed.

(** The three periods partition the hours: every slot index is in exactly
    one of them. *)
Lemma energy_classes_partition (slot_index : Z) :
  (is_peak_energy_period slot_index = true /\
   is_medium_energy_period slot_index = false /\
   is_low_energy_period slot_index = false) \/
  (is_peak_energy_period slot_index = false /\
   is_medium_energy_period slot_index = true /\
   is_low_energy_period slot_index = false) \/
  (is_peak_energy_period slot_index = false /\
   is_medium_energy_period slot_index = false /\
   is_low_energy_period slot_index = true).
Proof.
  unfold is_peak_energy_period, is_medium_energy_period, is_low_energy_period.
  cbv zeta. generalize (slot_to_hour slot_index). intros hour.
  destruct (_ || _) eqn:Ep; bool_to_prop Ep;
    (destruct (_ || _ || _ || _) eqn:Em; bool_to_prop Em);
    (destruct (_ || _ || _) eqn:El; bool_to_prop El);
    try lia; auto.
Qed.

(** C8.  With [hour] the hour of day [get_energy_level] derives from the slot
    index, the level is 9 on the peak hours, 6 on the medium hours and 3 on
    the low hours; for a slot index that is not negative the hour is
    [(slot_index mod 48) / 2] and lies in 0..23; the three classes partition
    the hours and the fallback value 5 is never returned. *)
Theorem C8_energy_map (slot_index : Z) :
  let hour := slot_to_hour slot_index in
  ((8 <= hour < 10 \/ 16 <= hour < 18) -> get_energy_level slot_index = 9) /\
  ((6 <= hour < 8 \/ 10 <= hour < 12 \/ 14 <= hour < 16 \/ 18 <= hour < 20) ->
     get_energy_level slot_index = 6) /\
  ((12 <= hour < 14 \/ 20 <= hour < 24 \/ 0 <= hour < 6) ->
     get_energy_level slot_index = 3) /\
  (0 <= slot_index -> hour = (slot_index mod 48) / 2 /\ 0 <= hour < 24) /\
  (0 <= hour < 24 ->
   (8 <= hour < 10 \/ 16 <= hour < 18) \/
   (6 <= hour < 8 \/ 10 <= hour < 12 \/ 14 <= hour < 16 \/ 18 <= hour < 20) \/
   (12 <= hour < 14 \/ 20 <= hour < 24 \/ 0 <= hour < 6)) /\
  get_energy_level slot_index <> 5.
Proof.
  intros hour.
  unfold get_energy_level. fold hour. cbv zeta.
  split; [|split; [|split; [|split; [|split]]]].
  - intros H. repeat case_if; lia.
  - intros H. repeat case_if; lia.
  - intros H. repeat case_if; lia.
  - intros H. apply slot_to_hour_nonneg. assumption.
  - lia.
  - repeat case_if; lia.
Qed.

(** ** Checked accesses *)

Lemma bind_Ret_inv {A B : Type} (m : outcome A) (k : A -> outcome B) (b : B) :
  bind m k = Ret b -> exists a, m = Ret a /\ k a = Ret b.
Proof. destruct m as [a|]; simpl; [eauto | discriminate]. Qed.

Lemma array_get_Ret {A : Type} (a : list A) (i : Z) (x : A) :
  array_get a i = Ret x <-> 0 <= i /\ a !! Z.to_nat i = Some x.
Proof.
  unfold array_get. destruct (Z.ltb_spec i 0).
  - split; [discriminate | lia].
  - destruct (a !! Z.to_nat i) eqn:E; split; intros H0;
      try discriminate; try (destruct H0; discriminate).
    + split; [lia | congruence].
    + destruct H0 as [_ H0]. congruence.
Qed.

Lemma array_set_Ret {A : Type} (a : list A) (i : Z) (x : A) :
  0 <= i < Z.of_nat (length a) ->
  array_set a i x = Ret (<[Z.to_nat i := x]> a).
Proof.
  intros Hi. unfold array_set.
  destruct (Z.ltb_spec i 0); [lia|].
  destruct (Nat.ltb_spec (Z.to_nat i) (length a)); [reflexivity | lia].
Qed.

Lemma array_set_Ret_inv {A : Type} (a a' : list A) (i : Z) (x : A) :
  array_set a i x = Ret a' ->
  0 <= i < Z.of_nat (length a) /\ a' = <[Z.to_nat i := x]> a.
Proof.
  unfold array_set.
  destruct (Z.ltb_spec i 0); [discriminate|].
  destruct (Nat.ltb_spec (Z.to_nat i) (length a)); [|discriminate].
  intros [= <-]. split; [lia | reflexivity].
Qed.

(** ** Range updates *)

Lemma fill_lookup (tl : Timeline) (start v d : Z) (i : nat) :
  Timeline.slots (fill tl start v d) !! i =
  (fun s => if decide (start <= Z.of_nat i < start + d) then set_task_id s v else s)
    <$> Timeline.slots tl !! i.
Proof. unfold fill. simpl. apply list_lookup_imap. Qed.

Lemma fill_lookup_Some (tl : Timeline) (start v d : Z) (i : nat) (sl : TimeSlot) :
  Timeline.slots tl !! i = Some sl ->
  Timeline.slots (fill tl start v d) !! i =
  Some (if decide (start <= Z.of_nat i < start + d) then set_task_id sl v else sl).
Proof. intros H. rewrite fill_lookup, H. reflexivity. Qed.

Lemma fill_length (tl : Timeline) (start v d : Z) :
  length (Timeline.slots (fill tl start v d)) = length (Timeline.slots tl).
Proof. unfold fill. simpl. apply length_imap. Qed.

Lemma fill_num_slots (tl : Timeline) (start v d : Z) :
  Timeline.num_slots (fill tl start v d) = Timeline.num_slots tl.
Proof. reflexivity. Qed.

Lemma fill_wf (tl : Timeline) (start v d : Z) :
  wf_timeline tl -> wf_timeline (fill tl start v d).
Proof.
  unfold wf_timeline. rewrite fill_length, fill_num_slots. auto.
Qed.

Lemma timeline_eq (tl tl' : Timeline) :
  Timeline.slots tl = Timeline.slots tl' ->
  Timeline.num_slots tl = Timeline.num_slots tl' ->
  Timeline.success tl = Timeline.success tl' ->
  Timeline.error_message tl = Timeline.error_message tl' ->
  tl = tl'.
Proof. destruct tl, tl'; simpl; intros; subst; reflexivity. Qed.

Lemma fill_empty (tl : Timeline) (start v d : Z) :
  d <= 0 -> fill tl start v d = tl.
Proof.
  intros Hd. apply timeline_eq; try reflexivity.
  apply list_eq. intros i. rewrite fill_lookup.
  destruct (Timeline.slots tl !! i); simpl; [|reflexivity].
  destruct (decide _); [lia | reflexivity].
Qed.

Lemma write_task_id_fill (tl : Timeline) (i v : Z) :
  0 <= i < Z.of_nat (length (Timeline.slots tl)) ->
  write_task_id tl i v = Ret (fill tl i v 1).
Proof.
  intros Hi. unfold write_task_id.
  destruct (lookup_lt_is_Some_2 (Timeline.slots tl) (Z.to_nat i)) as [s Hs]; [lia|].
  rewrite (proj2 (array_get_Ret _ _ s)) by (split; [lia | exact Hs]).
  simpl. rewrite array_set_Ret by lia. simpl. f_equal.
  apply timeline_eq; try reflexivity.
  apply list_eq. intros j. rewrite fill_lookup. simpl.
  destruct (decide (Z.to_nat i = j)) as [<-|Hne].
  - rewrite list_lookup_insert_eq by lia. rewrite Hs. simpl.
    destruct (decide _); [reflexivity | lia].
  - rewrite list_lookup_insert_ne by assumption.
    destruct (Timeline.slots tl !! j); simpl; [|reflexivity].
    destruct (decide _); [lia | reflexivity].
Qed.

Lemma write_task_id_Ret_inv (tl tl' : Timeline) (i v : Z) :
  write_task_id tl i v = Ret tl' ->
  0 <= i < Z.of_nat (length (Timeline.slots tl)).
Proof.
  unfold write_task_id. intros H.
  apply bind_Ret_inv in H as (s & Hs & H).
  apply bind_Ret_inv in H as (l & Hl & _).
  apply array_set_Ret_inv in Hl. tauto.
Qed.

Lemma fill_fill_next (tl : Timeline) (a v : Z) (n : Z) :
  0 <= n -> fill (fill tl a v 1) (a + 1) v n = fill tl a v (1 + n).
Proof.
  intros Hn. apply timeline_eq; try reflexivity.
  apply list_eq. intros j. rewrite !fill_lookup.
  destruct (Timeline.slots tl !! j) as [s|]; simpl; [|reflexivity].
  f_equal. repeat destruct (decide _); try lia; try reflexivity.
Qed.

Lemma fill_loop_fill (tl : Timeline) (start v : Z) (n : nat) (i : Z) :
  0 <= start + i ->
  start + i + Z.of_nat n <= Z.of_nat (length (Timeline.slots tl)) ->
  fill_loop tl start v n i = Ret (fill tl (start + i) v (Z.of_nat n)).
Proof.
  revert tl i. induction n as [|n IH]; intros tl i Hlo Hhi.
  - simpl. rewrite fill_empty by lia. reflexivity.
  - cbn [fill_loop]. rewrite write_task_id_fill by lia. simpl.
    rewrite IH by (rewrite ?fill_length; lia).
    replace (start + (i + 1)) with (start + i + 1) by lia.
    rewrite fill_fill_next by lia. do 2 f_equal. lia.
Qed.

(** A range update that returns has only written inside the array. *)
Lemma fill_loop_in_bounds (tl tl' : Timeline) (start v : Z) (n : nat) (i : Z) :
  fill_loop tl start v n i = Ret tl' ->
  forall k, start + i <= k < start + i + Z.of_nat n ->
    0 <= k < Z.of_nat (length (Timeline.slots tl)).
Proof.
  revert tl i. induction n as [|n IH]; intros tl i H k Hk; [lia|].
  cbn [fill_loop] in H. apply bind_Ret_inv in H as (tl1 & H1 & H).
  pose proof (write_task_id_Ret_inv _ _ _ _ H1) as Hb.
  destruct (decide (k = start + i)) as [->|Hne]; [exact Hb|].
  rewrite write_task_id_fill in H1 by exact Hb. injection H1 as <-.
  specialize (IH _ _ H k). rewrite fill_length in IH. apply IH. lia.
Qed.

Lemma place_task_fill (tl : Timeline) (task : Task) (s : Z) :
  wf_timeline tl -> 0 <= s ->
  s + Task.duration_slots task <= Timeline.num_slots tl ->
  place_task tl task s =
  Ret (fill tl s (Task.id task) (Task.duration_slots task)).
Proof.
  intros [Hn Hlen] Hs Hd. unfold place_task.
  destruct (Z.le_gt_cases 0 (Task.duration_slots task)).
  - rewrite fill_loop_fill by lia. rewrite Z.add_0_r.
    rewrite Z2Nat.id by assumption. reflexivity.
  - replace (Z.to_nat (Task.duration_slots task)) with O by lia.
    simpl. rewrite fill_empty by lia. reflexivity.
Qed.

Lemma remove_task_fill (tl : Timeline) (task : Task) (s : Z) :
  wf_timeline tl -> 0 <= s ->
  s + Task.duration_slots task <= Timeline.num_slots tl ->
  remove_task tl task s = Ret (fill tl s (-1) (Task.duration_slots task)).
Proof.
  intros [Hn Hlen] Hs Hd. unfold remove_task.
  destruct (Z.le_gt_cases 0 (Task.duration_slots task)).
  - rewrite fill_loop_fill by lia. rewrite Z.add_0_r.
    rewrite Z2Nat.id by assumption. reflexivity.
  - replace (Z.to_nat (Task.duration_slots task)) with O by lia.
    simpl. rewrite fill_empty by lia. reflexivity.
Qed.

(** ** Feasibility checks *)

Lemma is_slot_available_spec (tl : Timeline) (i : Z) :
  wf_timeline tl -> is_slot_available tl i = Ret (free_at tl i).
Proof.
  intros [Hn Hlen]. unfold is_slot_available, free_at.
  destruct (Z.ltb_spec i 0) as [Hi|Hi]; simpl.
  { destruct (Z.leb_spec 0 i); [lia | reflexivity]. }
  destruct (Z.leb_spec 0 i); [|lia].
  unfold Z.geb. destruct (Z.compare_spec i (Timeline.num_slots tl)) as [He|Hl|Hg]; simpl.
  - destruct (Z.ltb_spec i (Timeline.num_slots tl)); [lia | reflexivity].
  - destruct (Z.ltb_spec i (Timeline.num_slots tl)); [|lia].
    destruct (lookup_lt_is_Some_2 (Timeline.slots tl) (Z.to_nat i)) as [s Hs]; [lia|].
    rewrite (proj2 (array_get_Ret _ _ s)) by (split; [lia | exact Hs]).
    rewrite Hs. reflexivity.
  - destruct (Z.ltb_spec i (Timeline.num_slots tl)); [lia | reflexivity].
Qed.

Lemma seqZ_S (m : Z) (n : nat) :
  seqZ m (Z.of_nat (S n)) = m :: seqZ (m + 1) (Z.of_nat n).
Proof.
  rewrite seqZ_cons by lia. f_equal. f_equal; lia.
Qed.

Lemma can_place_loop_spec (tl : Timeline) (start : Z) (n : nat) (i : Z) :
  wf_timeline tl ->
  can_place_loop tl start n i =
  Ret (forallb (free_at tl) (seqZ (start + i) (Z.of_nat n))).
Proof.
  intros Hwf. revert i. induction n as [|n IH]; intros i.
  - reflexivity.
  - cbn [can_place_loop]. rewrite is_slot_available_spec by assumption.
    rewrite seqZ_S. cbn [bind forallb].
    destruct (free_at tl (start + i)); simpl; [|reflexivity].
    rewrite IH. do 3 f_equal. lia.
Qed.

Lemma seqZ_to_nat (m d : Z) : seqZ m (Z.of_nat (Z.to_nat d)) = seqZ m d.
Proof. unfold seqZ. rewrite Nat2Z.id. reflexivity. Qed.

Lemma can_place_task_spec (tl : Timeline) (task : Task) (s : Z) :
  wf_timeline tl -> can_place_task tl task s = Ret (fitsb tl task s).
Proof.
  intros Hwf. unfold can_place_task, fitsb.
  rewrite can_place_loop_spec by assumption.
  rewrite Z.add_0_r, seqZ_to_nat.
  destruct (Z.ltb_spec s 0), (Z.leb_spec 0 s); try lia; simpl; [reflexivity|].
  unfold Z.gtb, Z.geb.
  destruct (Z.compare_spec (s + Task.duration_slots task) (Timeline.num_slots tl)),
    (Z.leb_spec (s + Task.duration_slots task) (Timeline.num_slots tl));
    try lia; simpl; try reflexivity;
  destruct (Z.compare_spec (Task.deadline_slot task) 0),
    (Z.ltb_spec (Task.deadline_slot task) 0); try lia; simpl; try reflexivity;
  destruct (Z.compare_spec (s + Task.duration_slots task) (Task.deadline_slot task)),
    (Z.leb_spec (s + Task.duration_slots task) (Task.deadline_slot task));
    try lia; simpl; reflexivity.
Qed.

Lemma fitsb_fits (tl : Timeline) (task : Task) (s : Z) :
  fitsb tl task s = true <-> fits tl task s.
Proof.
  unfold fitsb, fits.
  rewrite !andb_true_iff, orb_true_iff, forallb_forall, !Z.leb_le, Z.ltb_lt.
  split.
  - intros [[[H1 H2] H3] H4]. repeat split; try lia.
    intros i Hi. apply H4. apply list_elem_of_In, elem_of_seqZ. lia.
  - intros (H1 & H2 & H3 & H4). repeat split; try lia.
    intros i Hi. apply list_elem_of_In, elem_of_seqZ in Hi. apply H4. lia.
Qed.

(** A task without deadline is only held back by the bounds and by the
    slots it would cover. *)
Lemma fits_no_deadline (tl : Timeline) (task : Task) (s : Z) :
  Task.deadline_slot task < 0 ->
  fits tl task s <->
  0 <= s /\ s + Task.duration_slots task <= Timeline.num_slots tl /\
  forall i, s <= i < s + Task.duration_slots task -> free_at tl i = true.
Proof. unfold fits. intros Hd. split; intros H; repeat split; try tauto; lia. Qed.

(** ** Candidate enumeration *)

Lemma collect_candidates_spec (tl : Timeline) (task : Task) (n : nat) (slot : Z) :
  wf_timeline tl ->
  collect_candidates tl task n slot =
  Ret (map (candidate_of task)
         (List.filter (fitsb tl task) (seqZ slot (Z.of_nat n)))).
Proof.
  intros Hwf. revert slot. induction n as [|n IH]; intros slot.
  - reflexivity.
  - cbn [collect_candidates]. rewrite can_place_task_spec by assumption.
    rewrite IH, seqZ_S. cbn [bind List.filter].
    destruct (fitsb tl task slot); reflexivity.
Qed.

(** ** The bubble sort of the candidates *)

Lemma bubble_pass_perm (k : nat) (c : list SlotScore) :
  Permutation (bubble_pass k c) c.
Proof.
  revert c. induction k as [|k IH]; intros c; [destruct c; reflexivity|].
  destruct c as [|a [|b r]]; try reflexivity.
  cbn [bubble_pass]. destruct (SlotScore.score a <? SlotScore.score b).
  - rewrite IH. apply perm_swap.
  - rewrite IH. reflexivity.
Qed.

Lemma bubble_pass_app (k : nat) (p q : list SlotScore) :
  length p = S k -> bubble_pass k (p ++ q) = bubble_pass k p ++ q.
Proof.
  revert p. induction k as [|k IH]; intros p Hp.
  - destruct p as [|a [|b r]]; try discriminate. reflexivity.
  - destruct p as [|a [|b r]]; try discriminate.
    cbn [app bubble_pass]. simpl in Hp.
    destruct (SlotScore.score a <? SlotScore.score b).
    + rewrite <- app_comm_cons. f_equal. apply (IH (a :: r)). simpl. lia.
    + rewrite <- app_comm_cons. f_equal. apply (IH (b :: r)). simpl. lia.
Qed.

(** A pass over a whole list leaves an element of least score at the end. *)
Lemma bubble_pass_min_last (k : nat) (p : list SlotScore) :
  length p = S k ->
  exists p' m, bubble_pass k p = p' ++ [m] /\
    Forall (fun x => SlotScore.score m <= SlotScore.score x) p.
Proof.
  revert p. induction k as [|k IH]; intros p Hp.
  - destruct p as [|a [|b r]]; try discriminate.
    exists [], a. split; [reflexivity|]. constructor; [lia | constructor].
  - destruct p as [|a [|b r]]; try discriminate. simpl in Hp.
    cbn [bubble_pass].
    destruct (Z.ltb_spec (SlotScore.score a) (SlotScore.score b)) as [Hlt|Hge].
    + destruct (IH (a :: r)) as (p' & m & Heq & Hall); [simpl; lia|].
      exists (b :: p'), m. rewrite Heq. split; [reflexivity|].
      inversion Hall as [|? ? Ha Hr]; subst.
      repeat constructor; try assumption; lia.
    + destruct (IH (b :: r)) as (p' & m & Heq & Hall); [simpl; lia|].
      exists (a :: p'), m. rewrite Heq. split; [reflexivity|].
      inversion Hall as [|? ? Hb Hr]; subst.
      repeat constructor; try assumption; lia.
Qed.

Lemma bubble_pass_tie_ordered (k : nat) (c : list SlotScore) :
  StronglySorted tie_ordered c -> StronglySorted tie_ordered (bubble_pass k c).
Proof.
  revert c. induction k as [|k IH]; intros c Hc; [destruct c; assumption|].
  destruct c as [|a [|b r]]; try assumption.
  cbn [bubble_pass].
  apply StronglySorted_inv in Hc as [Hbr Ha].
  apply StronglySorted_inv in Hbr as [Hr Hb].
  inversion Ha as [|? ? Hab Har]; subst.
  destruct (Z.ltb_spec (SlotScore.score a) (SlotScore.score b)) as [Hlt|Hge].
  - constructor.
    + apply IH. constructor; assumption.
    + rewrite bubble_pass_perm. constructor; [|assumption].
      unfold tie_ordered. lia.
  - constructor.
    + apply IH. constructor; assumption.
    + rewrite bubble_pass_perm. constructor; assumption.
Qed.

Lemma bubble_outer_perm (n m i : nat) (c : list SlotScore) :
  Permutation (bubble_outer n m i c) c.
Proof.
  revert i c. induction m as [|m IH]; intros i c; [reflexivity|].
  cbn [bubble_outer]. rewrite IH. apply bubble_pass_perm.
Qed.

Lemma bubble_outer_tie_ordered (n m i : nat) (c : list SlotScore) :
  StronglySorted tie_ordered c -> StronglySorted tie_ordered (bubble_outer n m i c).
Proof.
  revert i c. induction m as [|m IH]; intros i c Hc; [assumption|].
  cbn [bubble_outer]. apply IH, bubble_pass_tie_ordered, Hc.
Qed.

(** After [i] passes the last [i] elements are in place. *)
Lemma bubble_outer_sorted (n m i : nat) (p q : list SlotScore) :
  length (p ++ q) = n -> length q = i -> length p = S m ->
  StronglySorted score_ge q ->
  (forall x y, In x p -> In y q -> score_ge x y) ->
  StronglySorted score_ge (bubble_outer n m i (p ++ q)).
Proof.
  revert i p q. induction m as [|m IH]; intros i p q Hn Hq Hp Hsq Hpq.
  - destruct p as [|a [|b r]]; try discriminate. simpl.
    constructor; [assumption|]. apply List.Forall_forall. intros y Hy.
    apply Hpq; [left; reflexivity | assumption].
  - cbn [bubble_outer].
    rewrite length_app in Hn.
    replace (n - i - 1)%nat with (S m) by lia.
    rewrite bubble_pass_app by assumption.
    destruct (bubble_pass_min_last (S m) p Hp) as (p' & mn & Heq & Hall).
    pose proof (bubble_pass_perm (S m) p) as Hperm. rewrite Heq in Hperm.
    assert (Hlen : length p' = S m).
    { apply Permutation_length in Hperm. rewrite length_app in Hperm.
      simpl in Hperm. lia. }
    rewrite Heq, <- app_assoc. apply IH.
    + rewrite length_app. simpl. lia.
    + simpl. lia.
    + assumption.
    + constructor; [assumption|]. apply List.Forall_forall. intros y Hy.
      apply Hpq; [|assumption].
      apply (Permutation_in _ Hperm), in_or_app. right. left. reflexivity.
    + intros x y Hx [<-|Hy].
      * rewrite List.Forall_forall in Hall. unfold score_ge.
        assert (In x p) as Hxp
          by (apply (Permutation_in _ Hperm), in_or_app; left; assumption).
        specialize (Hall x Hxp). lia.
      * apply Hpq; [|assumption].
        apply (Permutation_in _ Hperm), in_or_app; left; assumption.
Qed.

Lemma sort_candidates_perm (c : list SlotScore) :
  Permutation (sort_candidates c) c.
Proof. apply bubble_outer_perm. Qed.

Lemma sort_candidates_score_sorted (c : list SlotScore) :
  StronglySorted score_ge (sort_candidates c).
Proof.
  unfold sort_candidates. destruct c as [|a r]; [constructor|].
  pose proof (bubble_outer_sorted (length (a :: r)) (length (a :: r) - 1) 0
                (a :: r) []) as H.
  rewrite app_nil_r in H. apply H.
  - reflexivity.
  - reflexivity.
  - simpl. lia.
  - constructor.
  - intros x y _ [].
Qed.

Lemma StronglySorted_both {A : Type} (R1 R2 R3 : A -> A -> Prop) (l : list A) :
  (forall a b, R1 a b -> R2 a b -> R3 a b) ->
  StronglySorted R1 l -> StronglySorted R2 l -> StronglySorted R3 l.
Proof.
  intros HR. induction l as [|a l IH]; intros H1 H2; [constructor|].
  apply StronglySorted_inv in H1 as [H1 F1].
  apply StronglySorted_inv in H2 as [H2 F2].
  constructor; [auto|].
  rewrite List.Forall_forall in *. intros b Hb. apply HR; auto.
Qed.

(** The sort is stable: on an input whose ties are in ascending slot order
    the result is ordered by descending score, then ascending slot. *)
Lemma sort_candidates_sorted (c : list SlotScore) :
  StronglySorted tie_ordered c -> StronglySorted tried_before (sort_candidates c).
Proof.
  intros Hc.
  apply (StronglySorted_both score_ge tie_ordered).
  - unfold score_ge, tie_ordered, tried_before. intros a b H1 H2.
    destruct (Z.eq_dec (SlotScore.score a) (SlotScore.score b)); [right | left]; lia.
  - apply sort_candidates_score_sorted.
  - apply bubble_outer_tie_ordered, Hc.
Qed.

Lemma candidates_slot_sorted (f : Z -> bool) (task : Task) (n : nat) (m : Z) :
  Forall (fun c => m <= SlotScore.slot c)
    (map (candidate_of task) (List.filter f (seqZ m (Z.of_nat n)))) /\
  StronglySorted (fun a b => SlotScore.slot a < SlotScore.slot b)
    (map (candidate_of task) (List.filter f (seqZ m (Z.of_nat n)))).
Proof.
  revert m. induction n as [|n IH]; intros m.
  - split; constructor.
  - rewrite seqZ_S. cbn [List.filter].
    destruct (IH (m + 1)) as [Hlo Hs].
    assert (Hlo' : Forall (fun c => m <= SlotScore.slot c)
              (map (candidate_of task) (List.filter f (seqZ (m + 1) (Z.of_nat n))))).
    { eapply Forall_impl; [exact Hlo|]. simpl. intros. lia. }
    destruct (f m); [|split; assumption].
    cbn [map]. split.
    + constructor; [simpl; lia | assumption].
    + constructor; [assumption|].
      eapply Forall_impl; [exact Hlo|]. simpl. intros. lia.
Qed.

Lemma tried_candidates_spec (tl : Timeline) (task : Task) :
  wf_timeline tl ->
  tried_candidates tl task =
  Ret (sort_candidates
         (map (candidate_of task)
            (List.filter (fitsb tl task) (seqZ 0 (Timeline.num_slots tl))))).
Proof.
  intros Hwf. unfold tried_candidates.
  rewrite collect_candidates_spec by assumption.
  rewrite seqZ_to_nat. reflexivity.
Qed.

Lemma in_candidates (tl : Timeline) (task : Task) (c : SlotScore) :
  In c (map (candidate_of task)
          (List.filter (fitsb tl task) (seqZ 0 (Timeline.num_slots tl)))) <->
  c = candidate_of task (SlotScore.slot c) /\
  0 <= SlotScore.slot c < Timeline.num_slots tl /\
  fits tl task (SlotScore.slot c).
Proof.
  rewrite in_map_iff. split.
  - intros (s & <- & Hs). apply filter_In in Hs as [Hs Hf].
    apply list_elem_of_In, elem_of_seqZ in Hs. apply fitsb_fits in Hf.
    simpl. split; [reflexivity|]. split; [lia | assumption].
  - intros (Hc & Hs & Hf). exists (SlotScore.slot c). split; [congruence|].
    apply filter_In. split.
    + apply list_elem_of_In, elem_of_seqZ. lia.
    + apply fitsb_fits. assumption.
Qed.

Lemma backtrack_cons (task : Task) (rest : list Task) (task_index : Z) (st : State) :
  Task.is_fixed task = false ->
  backtrack (task :: rest) task_index st =
  (candidates <- tried_candidates (State.timeline st) task ;;
   try_candidates (backtrack rest (task_index + 1)) task task_index candidates st).
Proof.
  intros Hf. cbn [backtrack]. rewrite Hf. unfold tried_candidates.
  destruct (collect_candidates _ _ _ _); reflexivity.
Qed.

(** C7.  For a task that is not fixed and a well-formed timeline state,
    [backtrack] walks through a candidate list whose start slots are exactly
    the feasible starts (a slot of the timeline, in bounds, before the
    deadline, on slots that are empty and not fixed), each with its energy
    score, in order of descending score with ties in ascending slot order. *)
Theorem C7_candidate_order (task : Task) (rest : list Task) (task_index : Z)
    (st : State) :
  wf_timeline (State.timeline st) ->
  Task.is_fixed task = false ->
  exists candidates,
    tried_candidates (State.timeline st) task = Ret candidates /\
    backtrack (task :: rest) task_index st =
      try_candidates (backtrack rest (task_index + 1)) task task_index candidates st /\
    (forall s, In s (map SlotScore.slot candidates) <->
               0 <= s < Timeline.num_slots (State.timeline st) /\
               fits (State.timeline st) task s) /\
    (forall c, In c candidates ->
               SlotScore.score c = calculate_energy_score task (SlotScore.slot c)) /\
    StronglySorted tried_before candidates.
Proof.
  intros Hwf Hfixed.
  eexists. split; [apply tried_candidates_spec; assumption|].
  split; [rewrite backtrack_cons, tried_candidates_spec by assumption; reflexivity|].
  split; [|split].
  - intros s. rewrite in_map_iff. split.
    + intros (c & <- & Hc).
      apply (Permutation_in _ (sort_candidates_perm _)) in Hc.
      apply in_candidates in Hc. tauto.
    + intros [Hs Hf]. exists (candidate_of task s). split; [reflexivity|].
      apply (Permutation_in _ (Permutation_sym (sort_candidates_perm _))).
      apply in_candidates. simpl. auto.
  - intros c Hc.
    apply (Permutation_in _ (sort_candidates_perm _)) in Hc.
    apply in_candidates in Hc as [-> _]. reflexivity.
  - apply sort_candidates_sorted.
    destruct (candidates_slot_sorted (fitsb (State.timeline st) task) task
                (Z.to_nat (Timeline.num_slots (State.timeline st))) 0) as [_ Hs].
    rewrite seqZ_to_nat in Hs.
    apply (StronglySorted_both _ _ _ _ (fun a b H _ (_ : _ = _) => H) Hs Hs).
Qed.

(** ** The search: safety, restoration, and what success means *)

Lemma free_at_inv (tl : Timeline) (i : Z) :
  free_at tl i = true ->
  0 <= i < Timeline.num_slots tl /\
  exists sl, Timeline.slots tl !! Z.to_nat i = Some sl /\ slot_is_free sl = true.
Proof.
  unfold free_at. rewrite !andb_true_iff, Z.leb_le, Z.ltb_lt.
  intros [[H1 H2] H3]. split; [lia|].
  destruct (Timeline.slots tl !! Z.to_nat i) as [sl|]; [eauto | discriminate].
Qed.

Lemma set_task_id_free (sl : TimeSlot) (v : Z) :
  slot_is_free sl = true -> set_task_id (set_task_id sl v) (-1) = sl.
Proof.
  unfold slot_is_free. rewrite andb_true_iff, Z.eqb_eq.
  destruct sl as [ix tid en fx]; simpl. intros [-> _]. reflexivity.
Qed.

(** Removing a task that was placed on free slots gives the timeline back. *)
Lemma fill_restore (tl : Timeline) (task : Task) (s v : Z) :
  fits tl task s ->
  fill (fill tl s v (Task.duration_slots task)) s (-1) (Task.duration_slots task) = tl.
Proof.
  intros (Hs & Hd & _ & Hfree).
  apply timeline_eq; try reflexivity.
  apply list_eq. intros j. rewrite !fill_lookup.
  destruct (Timeline.slots tl !! j) as [sl|] eqn:E; simpl; [|reflexivity].
  f_equal. destruct (decide _) as [Hin|]; [|reflexivity].
  apply Hfree, free_at_inv in Hin as [_ (sl' & Hl & Hf)].
  rewrite Nat2Z.id in Hl. rewrite E in Hl. injection Hl as <-.
  apply set_task_id_free. assumption.
Qed.

Ltac split_post :=
  unfold search_post; cbn [fst snd State.timeline State.placements];
  split; [|split; [|split; [|split]]].

Section Candidates_loop.
Variables (recurse : State -> outcome (bool * State))
          (task : Task) (rest : list Task) (task_index : Z).
Hypothesis task_not_fixed : Task.is_fixed task = false.
Hypothesis recurse_spec :
  forall st, state_ok rest (task_index + 1) st ->
    exists r, recurse st = Ret r /\ search_post rest (task_index + 1) st r.

Lemma try_candidates_spec (candidates : list SlotScore) (st : State) :
  state_ok (task :: rest) task_index st ->
  (forall c, In c candidates -> fits (State.timeline st) task (SlotScore.slot c)) ->
  exists r, try_candidates recurse task task_index candidates st = Ret r /\
            search_post (task :: rest) task_index st r.
Proof.
  revert st. induction candidates as [|c cs IH]; intros st Hok Hfits.
  - exists (false, st). split; [reflexivity|].
    destruct Hok as (Hwf & _). split_post; auto. intros [=].
  - destruct Hok as (Hwf & Hidx & Hlen). simpl in Hlen.
    pose proof (Hfits c (or_introl eq_refl)) as Hc.
    destruct st as [tl pl]. simpl in *.
    cbn [try_candidates State.timeline State.placements].
    pose proof Hc as (Hs0 & Hs1 & _).
    rewrite place_task_fill by assumption. cbn [bind].
    rewrite array_set_Ret by lia. cbn [bind].
    destruct (recurse_spec
                (State.mk (fill tl (SlotScore.slot c) (Task.id task)
                             (Task.duration_slots task))
                   (<[Z.to_nat task_index := SlotScore.slot c]> pl)))
      as ([b st1] & Hr & Hwf1 & Hlen1 & Hpl1 & Hfalse & Htrue).
    { split; [apply fill_wf; assumption|]. simpl.
      rewrite length_insert. lia. }
    rewrite Hr. cbn [bind fst snd State.timeline State.placements] in *.
    rewrite length_insert in Hlen1.
    destruct b.
    + exists (true, st1). split; [reflexivity|].
      split_post; try assumption.
      * intros j Hj. rewrite Hpl1 by lia.
        apply list_lookup_insert_ne. lia.
      * intros [=].
      * intros _. eapply placed_task; try eassumption; [|auto].
        rewrite Hpl1 by lia. apply list_lookup_insert_eq. lia.
    + rewrite (Hfalse eq_refl).
      rewrite remove_task_fill by (try apply fill_wf; assumption).
      rewrite fill_restore by assumption. cbn [bind].
      rewrite array_set_Ret by lia. cbn [bind].
      destruct (IH (State.mk tl (<[Z.to_nat task_index := -1]> (State.placements st1))))
        as (r & Hr2 & Hwf2 & Hlen2 & Hpl2 & Hfalse2 & Htrue2).
      { split; [assumption|]. simpl. rewrite length_insert. lia. }
      { simpl. intros c' Hc'. apply Hfits. right. assumption. }
      exists r. split; [exact Hr2|]. simpl in *.
      rewrite length_insert in Hlen2.
      split_post; try assumption; try congruence.
      intros j Hj. rewrite Hpl2 by assumption.
      rewrite list_lookup_insert_ne by lia. rewrite Hpl1 by lia.
      apply list_lookup_insert_ne. lia.
Qed.
End Candidates_loop.

Lemma backtrack_spec (rest : list Task) (task_index : Z) (st : State) :
  state_ok rest task_index st ->
  exists r, backtrack rest task_index st = Ret r /\
            search_post rest task_index st r.
Proof.
  revert task_index st. induction rest as [|task rest IH]; intros task_index st Hok.
  - exists (true, st). split; [reflexivity|].
    destruct Hok as (Hwf & _). split_post; auto.
    intros _. constructor.
  - destruct (Task.is_fixed task) eqn:Hfixed.
    + cbn [backtrack]. rewrite Hfixed.
      destruct (IH (task_index + 1) st) as (r & Hr & Hwf & Hlen & Hpl & Hf & Ht).
      { destruct Hok as (Hwf & Hidx & Hlen). simpl in Hlen.
        split; [assumption | lia]. }
      exists r. split; [exact Hr|].
      split_post; try assumption.
      * intros j Hj. apply Hpl. lia.
      * intros Hb. apply placed_fixed; auto.
    + rewrite backtrack_cons by assumption.
      rewrite tried_candidates_spec by apply Hok. cbn [bind].
      apply try_candidates_spec with (rest := rest); try assumption.
      * intros st1 Hok1. apply IH. assumption.
      * intros c Hc.
        apply (Permutation_in _ (sort_candidates_perm _)) in Hc.
        apply in_candidates in Hc. tauto.
Qed.

(** ** What a successful run of placements leaves on the timeline *)

Lemma placed_shape (rest : list Task) (task_index : Z) (tl : Timeline)
    (pl : list Z) (tl' : Timeline) :
  placed rest task_index tl pl tl' ->
  Timeline.num_slots tl' = Timeline.num_slots tl /\
  Timeline.success tl' = Timeline.success tl /\
  Timeline.error_message tl' = Timeline.error_message tl /\
  length (Timeline.slots tl') = length (Timeline.slots tl).
Proof.
  induction 1 as [| |task rest idx tl pl tl' s Hf Hfit Hidx Hpl Hp IH]; auto.
  destruct IH as (H1 & H2 & H3 & H4). rewrite fill_length in H4. auto.
Qed.

(** Every slot is either as before or was free and now bears the id of a
    task of [rest] whose range covers it. *)
Lemma placed_lookup_cases (rest : list Task) (task_index : Z) (tl : Timeline)
    (pl : list Z) (tl' : Timeline) :
  placed rest task_index tl pl tl' -> 0 <= task_index ->
  forall i,
    Timeline.slots tl' !! i = Timeline.slots tl !! i \/
    exists k task s sl,
      rest !! k = Some task /\ Task.is_fixed task = false /\
      pl !! Z.to_nat (task_index + Z.of_nat k) = Some s /\
      s <= Z.of_nat i < s + Task.duration_slots task /\
      Timeline.slots tl !! i = Some sl /\ slot_is_free sl = true /\
      Timeline.slots tl' !! i = Some (set_task_id sl (Task.id task)).
Proof.
  induction 1 as [| task rest idx tl pl tl' Hf Hp IH
                  | task rest idx tl pl tl' s Hf Hfit Hidx Hpl Hp IH];
    intros Hnn i.
  - left. reflexivity.
  - destruct (IH ltac:(lia) i) as [H|(k & t & s & sl & Hk & Ht & Hs & Hr & Hl & Hfr & Hl')];
      [left; assumption|].
    right. exists (S k), t, s, sl. repeat split; try assumption; try lia.
    rewrite <- Hs. f_equal. lia.
  - destruct (Timeline.slots tl !! i) as [sl|] eqn:E.
    2:{ left. apply lookup_ge_None. apply lookup_ge_None in E.
        apply placed_shape in Hp as (_ & _ & _ & Hlen).
        rewrite fill_length in Hlen. lia. }
    pose proof (fill_lookup_Some tl s (Task.id task) (Task.duration_slots task) i sl E)
      as Hfill.
    destruct (decide (s <= Z.of_nat i < s + Task.duration_slots task)) as [Hin|Hout].
    + assert (Hfree : slot_is_free sl = true).
      { destruct Hfit as (_ & _ & _ & Hfree).
        apply Hfree, free_at_inv in Hin as [_ (sl' & Hl & Hfr)].
        rewrite Nat2Z.id in Hl. congruence. }
      destruct (IH ltac:(lia) i)
        as [H|(k & t & s' & sl' & Hk & Ht & Hs & Hr & Hl & Hfr & Hl')].
      * right. exists O, task, s, sl. rewrite Z.add_0_r.
        repeat split; try assumption; try lia. congruence.
      * right. exists (S k), t, s', sl. rewrite Hfill in Hl. injection Hl as <-.
        repeat split; try assumption; try lia.
        rewrite <- Hs. f_equal. lia.
    + destruct (IH ltac:(lia) i)
        as [H|(k & t & s' & sl' & Hk & Ht & Hs & Hr & Hl & Hfr & Hl')].
      * left. congruence.
      * right. exists (S k), t, s', sl. rewrite Hfill in Hl. injection Hl as <-.
        repeat split; try assumption; try lia.
        rewrite <- Hs. f_equal. lia.
Qed.

(** Slots that are occupied or fixed are never touched. *)
Lemma placed_keeps_occupied (rest : list Task) (task_index : Z) (tl : Timeline)
    (pl : list Z) (tl' : Timeline) (i : nat) (sl : TimeSlot) :
  placed rest task_index tl pl tl' -> 0 <= task_index ->
  Timeline.slots tl !! i = Some sl -> slot_is_free sl = false ->
  Timeline.slots tl' !! i = Some sl.
Proof.
  intros Hp Hnn Hl Hocc.
  destruct (placed_lookup_cases _ _ _ _ _ Hp Hnn i)
    as [H|(k & t & s & sl' & _ & _ & _ & _ & Hl' & Hfr & _)]; congruence.
Qed.

(** The start recorded for each task respects the bounds and the deadline. *)
Lemma placed_starts (rest : list Task) (task_index : Z) (tl : Timeline)
    (pl : list Z) (tl' : Timeline) :
  placed rest task_index tl pl tl' -> 0 <= task_index ->
  forall k task, rest !! k = Some task -> Task.is_fixed task = false ->
    exists s, pl !! Z.to_nat (task_index + Z.of_nat k) = Some s /\
      0 <= s /\ s + Task.duration_slots task <= Timeline.num_slots tl /\
      (Task.deadline_slot task >= 0 ->
       s + Task.duration_slots task <= Task.deadline_slot task).
Proof.
  induction 1 as [| task rest idx tl pl tl' Hf Hp IH
                  | task rest idx tl pl tl' s Hf Hfit Hidx Hpl Hp IH];
    intros Hnn k t Hk Ht.
  - discriminate.
  - destruct k as [|k]; [simpl in Hk; congruence|].
    destruct (IH ltac:(lia) k t Hk Ht) as (s & Hs & Hb).
    exists s. split; [|exact Hb]. rewrite <- Hs. f_equal. lia.
  - destruct k as [|k].
    + injection Hk as <-. exists s. rewrite Z.add_0_r.
      destruct Hfit as (H1 & H2 & H3 & _). auto.
    + destruct (IH ltac:(lia) k t Hk Ht) as (s' & Hs & Hb).
      exists s'. split; [|exact Hb]. rewrite <- Hs. f_equal. lia.
Qed.

(** A task whose id is not the empty sentinel keeps the slots it was put
    on until the end. *)
Lemma placed_range (rest : list Task) (task_index : Z) (tl : Timeline)
    (pl : list Z) (tl' : Timeline) :
  placed rest task_index tl pl tl' -> 0 <= task_index ->
  forall k task s i,
    rest !! k = Some task -> Task.is_fixed task = false ->
    Task.id task <> -1 ->
    pl !! Z.to_nat (task_index + Z.of_nat k) = Some s ->
    s <= Z.of_nat i < s + Task.duration_slots task ->
    exists sl, Timeline.slots tl !! i = Some sl /\ slot_is_free sl = true /\
               Timeline.slots tl' !! i = Some (set_task_id sl (Task.id task)).
Proof.
  induction 1 as [| task rest idx tl pl tl' Hf Hp IH
                  | task rest idx tl pl tl' s Hf Hfit Hidx Hpl Hp IH];
    intros Hnn k t s0 i Hk Ht Hid Hs0 Hin.
  - discriminate.
  - destruct k as [|k]; [simpl in Hk; congruence|].
    apply (IH ltac:(lia) k t s0 i); try assumption.
    rewrite <- Hs0. f_equal. lia.
  - destruct k as [|k].
    + injection Hk as <-. rewrite Z.add_0_r in Hs0.
      assert (s0 = s) as -> by congruence.
      destruct Hfit as (_ & _ & _ & Hfree).
      pose proof (Hfree _ Hin) as Hfr.
      apply free_at_inv in Hfr as [_ (sl & Hl & Hfr)].
      rewrite Nat2Z.id in Hl. exists sl. split; [assumption|]. split; [assumption|].
      pose proof (fill_lookup_Some tl s (Task.id task) (Task.duration_slots task) i sl Hl)
        as Hfill.
      rewrite decide_True in Hfill by assumption.
      eapply placed_keeps_occupied; [exact Hp | lia | exact Hfill |].
      unfold slot_is_free. simpl.
      destruct (Z.eqb_spec (Task.id task) (-1)); [contradiction | reflexivity].
    + destruct (IH ltac:(lia) k t s0 i) as (sl1 & Hl1 & Hfr1 & Hl'); try assumption.
      { rewrite <- Hs0. f_equal. lia. }
      rewrite fill_lookup in Hl1.
      destruct (Timeline.slots tl !! i) as [sl|] eqn:E; [|discriminate].
      cbn [fmap option_fmap option_map] in Hl1. injection Hl1 as <-.
      exists sl. split; [reflexivity|].
      destruct (decide _) as [Hin0|Hout0]; [|split; assumption].
      split; [|exact Hl'].
      destruct Hfit as (_ & _ & _ & Hfree).
      apply Hfree, free_at_inv in Hin0 as [_ (sl' & Hl & Hfr)].
      rewrite Nat2Z.id in Hl. congruence.
Qed.

(** ** Completeness of the search *)

Lemma free_at_fill_outside (tl : Timeline) (s v d i : Z) :
  ~ (s <= i < s + d) -> free_at (fill tl s v d) i = free_at tl i.
Proof.
  intros Hout. unfold free_at. rewrite fill_num_slots.
  destruct (Z.leb_spec 0 i); [|reflexivity].
  rewrite fill_lookup. destruct (Timeline.slots tl !! Z.to_nat i); [|reflexivity].
  cbn [fmap option_fmap option_map].
  rewrite decide_False by lia. reflexivity.
Qed.

Lemma fits_fill_apart (tl : Timeline) (task : Task) (s v d s' : Z) :
  fits tl task s' ->
  ranges_disjoint s d s' (Task.duration_slots task) ->
  fits (fill tl s v d) task s'.
Proof.
  intros (H1 & H2 & H3 & H4) Hd. unfold fits. rewrite fill_num_slots.
  repeat split; try assumption.
  intros i Hi. rewrite free_at_fill_outside; [auto|].
  intros Hin. exact (Hd i Hin Hi).
Qed.

Section Candidates_loop_complete.
Variables (recurse : State -> outcome (bool * State))
          (task : Task) (rest : list Task) (task_index : Z)
          (tl : Timeline) (s_good : Z).
Hypothesis task_not_fixed : Task.is_fixed task = false.
Hypothesis recurse_spec :
  forall st, state_ok rest (task_index + 1) st ->
    exists r, recurse st = Ret r /\ search_post rest (task_index + 1) st r.
Hypothesis recurse_good :
  forall st, state_ok rest (task_index + 1) st ->
    State.timeline st = fill tl s_good (Task.id task) (Task.duration_slots task) ->
    exists st', recurse st = Ret (true, st').

Lemma try_candidates_complete (candidates : list SlotScore) (st : State) :
  State.timeline st = tl ->
  state_ok (task :: rest) task_index st ->
  (forall c, In c candidates -> fits tl task (SlotScore.slot c)) ->
  (exists c, In c candidates /\ SlotScore.slot c = s_good) ->
  exists st', try_candidates recurse task task_index candidates st = Ret (true, st').
Proof.
  revert st. induction candidates as [|c cs IH]; intros st Htl Hok Hfits Hgood.
  - destruct Hgood as (c & [] & _).
  - destruct Hok as (Hwf & Hidx & Hlen). simpl in Hlen.
    destruct st as [tl0 pl]. simpl in Htl. subst tl0.
    cbn [State.timeline State.placements] in *.
    pose proof (Hfits c (or_introl eq_refl)) as Hc.
    pose proof Hc as (Hs0 & Hs1 & _).
    cbn [try_candidates State.timeline State.placements].
    rewrite place_task_fill by assumption. cbn [bind].
    rewrite array_set_Ret by lia. cbn [bind].
    assert (Hok1 : state_ok rest (task_index + 1)
              (State.mk (fill tl (SlotScore.slot c) (Task.id task)
                           (Task.duration_slots task))
                 (<[Z.to_nat task_index := SlotScore.slot c]> pl))).
    { split; [apply fill_wf; assumption|]. simpl. rewrite length_insert. lia. }
    destruct (Z.eq_dec (SlotScore.slot c) s_good) as [Heq|Hne].
    + destruct (recurse_good _ Hok1) as (st' & Hr).
      { simpl. rewrite Heq. reflexivity. }
      rewrite Hr. cbn [bind fst snd]. eauto.
    + destruct (recurse_spec _ Hok1)
        as ([b st1] & Hr & Hwf1 & Hlen1 & Hpl1 & Hfalse & Htrue).
      rewrite Hr. cbn [bind fst snd State.timeline State.placements] in *.
      rewrite length_insert in Hlen1.
      destruct b; [eauto|].
      rewrite (Hfalse eq_refl).
      rewrite remove_task_fill by (try apply fill_wf; assumption).
      rewrite fill_restore by assumption. cbn [bind].
      rewrite array_set_Ret by lia. cbn [bind].
      apply IH.
      * reflexivity.
      * split; [assumption|]. simpl. rewrite length_insert. lia.
      * intros c' Hc'. apply Hfits. right. assumption.
      * destruct Hgood as (c' & [<-|Hin] & Hc'); [contradiction | eauto].
Qed.
End Candidates_loop_complete.

Lemma backtrack_complete (asg : list (Task * Z)) (task_index : Z) (st : State) :
  state_ok (map fst asg) task_index st ->
  feasible (State.timeline st) asg ->
  Forall (assignment_on_timeline (State.timeline st)) asg ->
  exists st', backtrack (map fst asg) task_index st = Ret (true, st').
Proof.
  revert task_index st.
  induction asg as [|[task s] asg IH]; intros task_index st Hok [Hfit Hapart] Hon.
  - simpl. eauto.
  - cbn [map fst].
    apply Forall_cons in Hfit as [Hfit_t Hfit].
    apply Forall_cons in Hon as [Hon_t Hon].
    inversion Hapart as [|? ? Hapart_t Hapart']; subst.
    destruct (Task.is_fixed task) eqn:Hfixed.
    + cbn [backtrack]. rewrite Hfixed. apply IH.
      * destruct Hok as (Hwf & Hidx & Hlen). simpl in Hlen.
        split; [assumption | lia].
      * split; assumption.
      * assumption.
    + rewrite backtrack_cons by assumption.
      rewrite tried_candidates_spec by apply Hok. cbn [bind].
      specialize (Hfit_t Hfixed). specialize (Hon_t Hfixed). simpl in Hfit_t, Hon_t.
      apply try_candidates_complete
        with (rest := map fst asg) (tl := State.timeline st) (s_good := s);
        try assumption; try reflexivity.
      * intros st1 Hok1. apply backtrack_spec. assumption.
      * intros st1 Hok1 Htl1. apply IH; [assumption| |].
        -- rewrite Htl1. split; [|assumption].
           rewrite List.Forall_forall in *. intros [t' s'] Hin Hf'.
           simpl in *. apply fits_fill_apart.
           ++ apply (Hfit _ Hin Hf').
           ++ apply (Hapart_t _ Hin Hfixed Hf').
        -- rewrite Htl1. exact Hon.
      * intros c Hc.
        apply (Permutation_in _ (sort_candidates_perm _)) in Hc.
        apply in_candidates in Hc. tauto.
      * exists (candidate_of task s). split; [|reflexivity].
        apply (Permutation_in _ (Permutation_sym (sort_candidates_perm _))).
        apply in_candidates. simpl. pose proof Hfit_t as (H0 & _).
        split; [reflexivity|]. split; [lia | exact Hfit_t].
Qed.

(** ** The initial timeline and the fixed slots *)

Lemma init_slots_length (n : nat) (i : Z) : length (init_slots n i) = n.
Proof. revert i. induction n; intros; simpl; auto. Qed.

Lemma init_slots_lookup (n : nat) (i : Z) (k : nat) :
  (k < n)%nat -> init_slots n i !! k = Some (timeslot_init (i + Z.of_nat k)).
Proof.
  revert i k. induction n as [|n IH]; intros i k Hk; [lia|].
  destruct k as [|k]; simpl.
  - do 2 f_equal. lia.
  - rewrite IH by lia. do 2 f_equal. lia.
Qed.

Lemma timeline_init_7 :
  Timeline.num_slots (timeline_init 7) = MAX_SLOTS /\
  Timeline.success (timeline_init 7) = false /\
  Timeline.error_message (timeline_init 7) = EmptyString /\
  length (Timeline.slots (timeline_init 7)) = Z.to_nat MAX_SLOTS /\
  forall k, (k < Z.to_nat MAX_SLOTS)%nat ->
    Timeline.slots (timeline_init 7) !! k = Some (timeslot_init (Z.of_nat k)).
Proof.
  unfold timeline_init.
  change (7 * SLOTS_PER_DAY) with MAX_SLOTS.
  change (MAX_SLOTS >? MAX_SLOTS) with false. cbv iota. cbn [Timeline.num_slots
    Timeline.success Timeline.error_message Timeline.slots].
  split; [reflexivity|]. split; [reflexivity|]. split; [reflexivity|]. split.
  - apply init_slots_length.
  - intros k Hk. apply init_slots_lookup. assumption.
Qed.

Lemma timeline_init_7_wf : wf_timeline (timeline_init 7).
Proof.
  destruct timeline_init_7 as (Hn & _ & _ & Hl & _).
  unfold wf_timeline. rewrite Hn, Hl. unfold MAX_SLOTS. lia.
Qed.

Lemma apply_descriptor_shape (tl : Timeline) (f : TimeSlot) :
  Timeline.num_slots (apply_descriptor tl f) = Timeline.num_slots tl /\
  Timeline.success (apply_descriptor tl f) = Timeline.success tl /\
  Timeline.error_message (apply_descriptor tl f) = Timeline.error_message tl /\
  length (Timeline.slots (apply_descriptor tl f)) = length (Timeline.slots tl).
Proof.
  unfold apply_descriptor. destruct (_ && _); simpl; auto.
  rewrite length_alter. auto.
Qed.

Lemma apply_descriptor_wf (tl : Timeline) (f : TimeSlot) :
  wf_timeline tl -> wf_timeline (apply_descriptor tl f).
Proof.
  unfold wf_timeline.
  destruct (apply_descriptor_shape tl f) as (-> & _ & _ & ->). auto.
Qed.

Lemma fold_apply_descriptor_shape (fixed : list TimeSlot) (tl : Timeline) :
  Timeline.num_slots (fold_left apply_descriptor fixed tl) = Timeline.num_slots tl /\
  Timeline.success (fold_left apply_descriptor fixed tl) = Timeline.success tl /\
  Timeline.error_message (fold_left apply_descriptor fixed tl) =
    Timeline.error_message tl /\
  length (Timeline.slots (fold_left apply_descriptor fixed tl)) =
    length (Timeline.slots tl).
Proof.
  revert tl. induction fixed as [|f fixed IH]; intros tl; simpl; [auto|].
  destruct (IH (apply_descriptor tl f)) as (-> & -> & -> & ->).
  apply apply_descriptor_shape.
Qed.

Lemma write_is_fixed_Ret (tl : Timeline) (i : Z) (b : bool) :
  0 <= i < Z.of_nat (length (Timeline.slots tl)) ->
  write_is_fixed tl i b =
  Ret (set_slots tl (alter (fun s => set_is_fixed s b) (Z.to_nat i) (Timeline.slots tl))).
Proof.
  intros Hi. unfold write_is_fixed.
  destruct (lookup_lt_is_Some_2 (Timeline.slots tl) (Z.to_nat i)) as [s Hs]; [lia|].
  rewrite (proj2 (array_get_Ret _ _ s)) by (split; [lia | exact Hs]).
  cbn [bind]. rewrite array_set_Ret by lia. cbn [bind]. do 2 f_equal.
  apply list_eq. intros j.
  destruct (decide (Z.to_nat i = j)) as [<-|Hne].
  - rewrite list_lookup_insert_eq by lia. rewrite list_lookup_alter_eq, Hs. reflexivity.
  - rewrite list_lookup_insert_ne, list_lookup_alter_ne by assumption. reflexivity.
Qed.

(** One iteration of the loop over the descriptors. *)
Lemma apply_descriptor_step (tl : Timeline) (f : TimeSlot) :
  wf_timeline tl ->
  (if (TimeSlot.slot_index f >=? 0) &&
      (TimeSlot.slot_index f <? Timeline.num_slots tl)
   then tl1 <- write_task_id tl (TimeSlot.slot_index f) (TimeSlot.task_id f) ;;
        write_is_fixed tl1 (TimeSlot.slot_index f) true
   else Ret tl) = Ret (apply_descriptor tl f).
Proof.
  intros [Hn Hlen]. unfold apply_descriptor. cbv zeta.
  destruct (_ && _) eqn:E; [|reflexivity]. bool_to_prop E.
  rewrite write_task_id_fill by lia. cbn [bind].
  rewrite write_is_fixed_Ret by (rewrite fill_length; lia).
  f_equal. apply timeline_eq; try reflexivity. cbn [set_slots Timeline.slots].
  apply list_eq. intros j.
  destruct (decide (Z.to_nat (TimeSlot.slot_index f) = j)) as [<-|Hne].
  - rewrite !list_lookup_alter_eq, fill_lookup.
    destruct (Timeline.slots tl !! _); [|reflexivity].
    cbn [fmap option_fmap option_map]. rewrite decide_True by lia. reflexivity.
  - rewrite !list_lookup_alter_ne by assumption. rewrite fill_lookup.
    destruct (Timeline.slots tl !! j) eqn:Ej; [|reflexivity].
    cbn [fmap option_fmap option_map].
    rewrite decide_False by lia. reflexivity.
Qed.

Lemma apply_fixed_slots_spec (fs : list TimeSlot) (tl : Timeline) (n : nat) (i : Z) :
  wf_timeline tl -> 0 <= i ->
  i + Z.of_nat n <= Z.of_nat (length fs) ->
  apply_fixed_slots fs tl n i =
  Ret (fold_left apply_descriptor (take n (drop (Z.to_nat i) fs)) tl).
Proof.
  revert tl i. induction n as [|n IH]; intros tl i Hwf Hi Hlen.
  - reflexivity.
  - cbn [apply_fixed_slots].
    destruct (lookup_lt_is_Some_2 fs (Z.to_nat i)) as [f Hf]; [lia|].
    rewrite (proj2 (array_get_Ret _ _ f)) by (split; [lia | exact Hf]).
    cbn [bind]. rewrite apply_descriptor_step by assumption. cbn [bind].
    rewrite IH by (try apply apply_descriptor_wf; try assumption; lia).
    rewrite (drop_S _ _ _ Hf). cbn [take fold_left].
    replace (Z.to_nat (i + 1)) with (S (Z.to_nat i)) by lia. reflexivity.
Qed.

(** A run of the loop that returns has read inside the descriptor array. *)
Lemma apply_fixed_slots_in_bounds (fs : list TimeSlot) (tl tl' : Timeline)
    (n : nat) (i : Z) :
  apply_fixed_slots fs tl n i = Ret tl' -> 0 <= i -> (0 < n)%nat ->
  i + Z.of_nat n <= Z.of_nat (length fs).
Proof.
  revert tl i. induction n as [|n IH]; intros tl i H Hi Hn; [lia|].
  cbn [apply_fixed_slots] in H.
  apply bind_Ret_inv in H as (f & Hf & H).
  apply array_get_Ret in Hf as [_ Hf]. apply lookup_lt_Some in Hf.
  apply bind_Ret_inv in H as (tl1 & _ & H).
  destruct n as [|n]; [lia|].
  specialize (IH _ _ H ltac:(lia) ltac:(lia)). lia.
Qed.

Lemma timeline_after_fixed_spec (fixed_slots : option (list TimeSlot)) (num_fixed : Z) :
  array_ok fixed_slots num_fixed ->
  timeline_after_fixed fixed_slots num_fixed =
  Ret (with_fixed (input_fixed fixed_slots num_fixed)).
Proof.
  intros Hok. unfold timeline_after_fixed, with_fixed, input_fixed.
  destruct fixed_slots as [fs|]; [|reflexivity]. simpl in Hok.
  destruct (Z.gtb_spec num_fixed 0).
  - rewrite apply_fixed_slots_spec by (try apply timeline_init_7_wf; lia).
    reflexivity.
  - replace (Z.to_nat num_fixed) with O by lia. reflexivity.
Qed.

Lemma fixed_task_id_snoc (fixed : list TimeSlot) (f : TimeSlot) (i : Z) :
  fixed_task_id (fixed ++ [f]) i =
  if TimeSlot.slot_index f =? i then Some (TimeSlot.task_id f)
  else fixed_task_id fixed i.
Proof. unfold fixed_task_id. rewrite fold_left_app. reflexivity. Qed.

Lemma fixed_task_id_Some (fixed : list TimeSlot) (i : Z) :
  is_Some (fixed_task_id fixed i) <-> is_fixed_slot fixed i.
Proof.
  induction fixed as [|f fixed IH] using rev_ind.
  - split; [intros [v [=]] | intros (f & [] & _)].
  - rewrite fixed_task_id_snoc. unfold is_fixed_slot.
    destruct (Z.eqb_spec (TimeSlot.slot_index f) i) as [He|Hne].
    + split; [|eauto]. intros _. exists f. split; [|assumption].
      apply in_or_app. right. left. reflexivity.
    + rewrite IH. split.
      * intros (g & Hg & Hi). exists g. split; [|assumption].
        apply in_or_app. left. assumption.
      * intros (g & Hg & Hi). apply in_app_or in Hg as [Hg|[<-|[]]]; [|contradiction].
        exists g. auto.
Qed.

Lemma apply_descriptor_lookup (tl : Timeline) (f : TimeSlot) (k : nat) :
  Z.of_nat k < Timeline.num_slots tl ->
  Timeline.slots (apply_descriptor tl f) !! k =
  if TimeSlot.slot_index f =? Z.of_nat k
  then (fun s => set_is_fixed (set_task_id s (TimeSlot.task_id f)) true)
         <$> Timeline.slots tl !! k
  else Timeline.slots tl !! k.
Proof.
  intros Hk. unfold apply_descriptor. cbv zeta.
  destruct (Z.eqb_spec (TimeSlot.slot_index f) (Z.of_nat k)) as [He|Hne].
  - rewrite He.
    destruct (_ && _) eqn:E; bool_to_prop E; [|lia].
    cbn [set_slots Timeline.slots]. rewrite Nat2Z.id. apply list_lookup_alter_eq.
  - destruct (_ && _) eqn:E; bool_to_prop E; [|reflexivity].
    cbn [set_slots Timeline.slots]. apply list_lookup_alter_ne. lia.
Qed.

(** The timeline handed to the search, slot by slot. *)
Lemma with_fixed_lookup (fixed : list TimeSlot) (k : nat) :
  (k < Z.to_nat MAX_SLOTS)%nat ->
  Timeline.slots (with_fixed fixed) !! k = Some (fixed_slot fixed (Z.of_nat k)).
Proof.
  intros Hk. unfold with_fixed.
  induction fixed as [|f fixed IH] using rev_ind.
  - simpl. unfold fixed_slot. simpl. apply timeline_init_7. assumption.
  - rewrite fold_left_app. cbn [fold_left].
    destruct (fold_apply_descriptor_shape fixed (timeline_init 7)) as (Hn & _ & _ & Hl).
    destruct timeline_init_7 as (Hn7 & _ & _ & Hl7 & _).
    rewrite apply_descriptor_lookup by (rewrite Hn, Hn7; lia).
    unfold fixed_slot. rewrite fixed_task_id_snoc, IH.
    destruct (Z.eqb_spec (TimeSlot.slot_index f) (Z.of_nat k)) as [He|Hne];
      [|reflexivity].
    unfold fixed_slot. destruct (fixed_task_id fixed (Z.of_nat k)); reflexivity.
Qed.

Lemma with_fixed_shape (fixed : list TimeSlot) :
  wf_timeline (with_fixed fixed) /\
  Timeline.num_slots (with_fixed fixed) = MAX_SLOTS /\
  Timeline.success (with_fixed fixed) = false /\
  Timeline.error_message (with_fixed fixed) = EmptyString.
Proof.
  unfold with_fixed, wf_timeline.
  destruct (fold_apply_descriptor_shape fixed (timeline_init 7)) as (-> & -> & -> & ->).
  destruct timeline_init_7 as (-> & -> & -> & -> & _).
  unfold MAX_SLOTS. repeat split; lia.
Qed.

Lemma with_fixed_free (fixed : list TimeSlot) (i : Z) :
  0 <= i < MAX_SLOTS -> ~ is_fixed_slot fixed i ->
  free_at (with_fixed fixed) i = true.
Proof.
  intros Hi Hnf. unfold free_at.
  destruct (with_fixed_shape fixed) as (_ & -> & _).
  destruct (Z.leb_spec 0 i); [|lia].
  destruct (Z.ltb_spec i MAX_SLOTS); [|lia].
  rewrite with_fixed_lookup by lia. rewrite Z2Nat.id by lia.
  unfold fixed_slot.
  destruct (fixed_task_id fixed i) eqn:E; [|reflexivity].
  exfalso. apply Hnf, fixed_task_id_Some. rewrite E. eauto.
Qed.

(** ** The library sort *)

Lemma wrap_int_id (z : Z) : INT_MIN <= z <= INT_MAX -> wrap_int z = z.
Proof.
  unfold wrap_int, INT_MIN, INT_MAX. intros H. rewrite Z.mod_small by lia. lia.
Qed.

Lemma wrap_int_range (z : Z) : INT_MIN <= wrap_int z <= INT_MAX.
Proof.
  unfold wrap_int, INT_MIN, INT_MAX.
  pose proof (Z.mod_pos_bound (z - -2147483648) 4294967296 ltac:(lia)). lia.
Qed.



Lemma comparator_ok_incl (cmp : Task -> Task -> Z) (l l' : list Task) :
  (forall a, In a l' -> In a l) -> comparator_ok cmp l -> comparator_ok cmp l'.
Proof.
  intros Hin [Hsgn Htrans]. split.
  - intros a b Ha Hb. apply Hsgn; auto.
  - intros a b c Ha Hb Hc. apply Htrans; auto.
Qed.

Lemma insert_sorted_perm (cmp : Task -> Task -> Z) (x : Task) (l : list Task) :
  Permutation (x :: l) (insert_sorted cmp x l).
Proof.
  induction l as [|y l IH]; simpl; [reflexivity|].
  destruct (cmp x y <=? 0); [reflexivity|].
  rewrite perm_swap. apply perm_skip, IH.
Qed.

Lemma insertion_sort_perm (cmp : Task -> Task -> Z) (l : list Task) :
  Permutation l (insertion_sort cmp l).
Proof.
  induction l as [|x l IH]; simpl; [reflexivity|].
  rewrite <- insert_sorted_perm. apply perm_skip, IH.
Qed.

Lemma insert_sorted_sorted (cmp : Task -> Task -> Z) (x : Task) (l : list Task) :
  comparator_ok cmp (x :: l) ->
  StronglySorted (fun a b => cmp a b <= 0) l ->
  StronglySorted (fun a b => cmp a b <= 0) (insert_sorted cmp x l).
Proof.
  induction l as [|y l IH]; intros Hok Hl; simpl.
  - repeat constructor.
  - apply StronglySorted_inv in Hl as [Hl Hy].
    destruct Hok as [Hsgn Htrans].
    destruct (Z.leb_spec (cmp x y) 0) as [Hxy|Hxy].
    + constructor; [constructor; assumption|].
      constructor; [assumption|].
      rewrite List.Forall_forall in *. intros z Hz.
      apply (Htrans x y z); simpl; auto.
    + constructor.
      * apply IH; [|assumption].
        apply (comparator_ok_incl cmp (x :: y :: l)); [|split; assumption].
        simpl. intros a [->|Ha]; auto.
      * rewrite <- insert_sorted_perm. constructor; [|assumption].
        specialize (Hsgn x y ltac:(simpl; auto) ltac:(simpl; auto)). lia.
Qed.

Lemma insertion_sort_sorted (cmp : Task -> Task -> Z) (l : list Task) :
  comparator_ok cmp l ->
  StronglySorted (fun a b => cmp a b <= 0) (insertion_sort cmp l).
Proof.
  induction l as [|x l IH]; intros Hok; simpl; [constructor|].
  apply insert_sorted_sorted.
  - apply (comparator_ok_incl cmp (x :: l)); [|assumption].
    simpl. intros a [->|Ha]; [auto|]. right.
    apply (Permutation_in _ (Permutation_sym (insertion_sort_perm cmp l))), Ha.
  - apply IH. apply (comparator_ok_incl cmp (x :: l)); [|assumption].
    simpl. auto.
Qed.

Lemma stable_libc_conforms : qsort_conforms stable_libc.
Proof.
  intros cmp l. split.
  - apply insertion_sort_perm.
  - apply insertion_sort_sorted.
Qed.



Lemma stable_libc_allocates : allocations_succeed stable_libc.
Proof. intros site. reflexivity. Qed.

Section With_libc.
Context {L : Libc}.

Lemma working_tasks_perm tasks num_tasks :
  qsort_conforms L ->
  Permutation (input_tasks tasks num_tasks) (working_tasks tasks num_tasks).
Proof. intros HL. apply HL. Qed.





Lemma input_tasks_length tasks num_tasks :
  0 <= num_tasks -> array_ok tasks num_tasks ->
  input_tasks tasks num_tasks = [] \/
  Z.of_nat (length (input_tasks tasks num_tasks)) = num_tasks.
Proof.
  intros Hn Hok. destruct tasks as [ts|]; [|left; reflexivity].
  right. simpl in *. rewrite length_take. lia.
Qed.

(** [optimize_schedule] on a valid task count, once the timeline is
    allocated. *)
Lemma optimize_schedule_valid tasks num_tasks fixed_slots num_fixed :
  malloc_succeeds AllocTimeline = true ->
  0 <= num_tasks <= MAX_TASKS ->
  array_ok tasks num_tasks -> array_ok fixed_slots num_fixed ->
  optimize_schedule tasks num_tasks fixed_slots num_fixed =
  let tl0 := with_fixed (input_fixed fixed_slots num_fixed) in
  if decide (input_tasks tasks num_tasks = []) then
    Ret (Some (set_success tl0 true))
  else if malloc_succeeds AllocSortedTasks && malloc_succeeds AllocPlacements then
    r <- backtrack (working_tasks tasks num_tasks) 0
           (State.mk tl0 (replicate (Z.to_nat num_tasks) (-1))) ;;
    Ret (Some (if fst r
               then set_success (State.timeline (snd r)) true
               else set_result (State.timeline (snd r)) false NO_SOLUTION_MESSAGE))
  else Ret (Some (set_result tl0 false "Memory allocation failed")).
Proof.
  intros Hmalloc Hn Htasks Hfixed. cbv zeta.
  unfold optimize_schedule, timeline_create. rewrite Hmalloc.
  destruct (Z.ltb_spec num_tasks 0); [lia|].
  destruct (Z.gtb_spec num_tasks MAX_TASKS); [lia|]. cbn [orb].
  change (match fixed_slots with
          | Some fs =>
              if num_fixed >? 0
              then apply_fixed_slots fs (timeline_init 7) (Z.to_nat num_fixed) 0
              else Ret (timeline_init 7)
          | None => Ret (timeline_init 7)
          end) with (timeline_after_fixed fixed_slots num_fixed).
  rewrite timeline_after_fixed_spec by assumption. cbn [bind].
  destruct tasks as [ts|]; [|reflexivity].
  simpl in Htasks.
  destruct (Z.eqb_spec num_tasks 0) as [->|Hne].
  { rewrite decide_True by reflexivity. reflexivity. }
  rewrite decide_False.
  2:{ intros Hnil. apply (f_equal length) in Hnil. cbn [input_tasks] in Hnil.
      rewrite length_take in Hnil. simpl in Hnil. lia. }
  unfold task_array_create.
  destruct (Z.leb_spec num_tasks 0); [lia|].
  destruct (Z.gtb_spec num_tasks MAX_TASKS); [lia|]. cbn [orb].
  destruct (malloc_succeeds AllocSortedTasks); [|reflexivity]. cbn [andb].
  unfold memcpy. rewrite length_replicate.
  destruct (Nat.leb_spec (Z.to_nat num_tasks) (length ts)); [|lia].
  rewrite Nat.leb_refl. cbn [andb bind].
  rewrite drop_ge by (rewrite length_replicate; lia). rewrite app_nil_r.
  fold (input_tasks (Some ts) num_tasks).
  fold (working_tasks (Some ts) num_tasks).
  destruct (malloc_succeeds AllocPlacements); [|reflexivity].
  destruct (backtrack _ _ _) as [[[] st]|]; reflexivity.
Qed.
(** A call that returns a successful timeline had a valid task count,
    could allocate its timeline, and stayed inside the two input arrays. *)
Lemma optimize_schedule_success_inv tasks num_tasks fixed_slots num_fixed tl :
  optimize_schedule tasks num_tasks fixed_slots num_fixed = Ret (Some tl) ->
  Timeline.success tl = true ->
  malloc_succeeds AllocTimeline = true /\
  0 <= num_tasks <= MAX_TASKS /\
  array_ok tasks num_tasks /\ array_ok fixed_slots num_fixed.
Proof.
  unfold optimize_schedule, timeline_create. intros H Hsucc.
  destruct (malloc_succeeds AllocTimeline).
  2:{ destruct (_ || _); discriminate. }
  destruct (_ || _) eqn:En; bool_to_prop En.
  { injection H as <-. discriminate. }
  split; [reflexivity|]. split; [lia|].
  apply bind_Ret_inv in H as (tl0 & Hfix & H).
  assert (Hfixed : array_ok fixed_slots num_fixed).
  { destruct fixed_slots as [fs|]; [|exact I]. simpl.
    destruct (Z.gtb_spec num_fixed 0); [|lia].
    apply apply_fixed_slots_in_bounds in Hfix; lia. }
  split; [|exact Hfixed].
  destruct tasks as [ts|]; [|exact I]. simpl.
  destruct (Z.eqb_spec num_tasks 0); [lia|].
  destruct (task_array_create num_tasks) as [dst|].
  2:{ injection H as <-. discriminate. }
  apply bind_Ret_inv in H as (sorted & Hcpy & _).
  unfold memcpy in Hcpy.
  destruct (_ && _) eqn:Ec; [|discriminate].
  apply andb_true_iff in Ec as [Ec _]. apply Nat.leb_le in Ec. lia.
Qed.
End With_libc.

(** ** Completeness of [optimize_schedule] *)

Lemma ForallOrdPairs_perm {A : Type} (R : A -> A -> Prop) (l l' : list A) :
  (forall a b, R a b -> R b a) ->
  Permutation l l' -> ForallOrdPairs R l -> ForallOrdPairs R l'.
Proof.
  intros Hsym. induction 1 as [|x l l' Hp IH|x y l|l l' l'' _ IH1 _ IH2]; intros H.
  - assumption.
  - inversion H; subst. constructor; [|auto].
    eapply Permutation_Forall; eassumption.
  - inversion H as [|? ? Hy Hr]; subst. inversion Hr as [|? ? Hx Hl]; subst.
    inversion Hy; subst.
    constructor; [constructor; [apply Hsym; assumption | assumption]|].
    constructor; assumption.
  - auto.
Qed.

Lemma assignment_apart_sym (a b : Task * Z) :
  assignment_apart a b -> assignment_apart b a.
Proof.
  unfold assignment_apart, ranges_disjoint. intros H Hb Ha i Hi Hj.
  exact (H Ha Hb i Hj Hi).
Qed.

Lemma feasible_perm (tl : Timeline) (asg asg' : list (Task * Z)) :
  Permutation asg asg' -> feasible tl asg -> feasible tl asg'.
Proof.
  intros Hp [Hf Ha]. split.
  - eapply Permutation_Forall; eassumption.
  - eapply ForallOrdPairs_perm; [apply assignment_apart_sym | |]; eassumption.
Qed.

Lemma normalise_fst (asg : list (Task * Z)) :
  map fst (map normalise asg) = map fst asg.
Proof. rewrite map_map. reflexivity. Qed.

Lemma normalise_apart (a b : Task * Z) :
  assignment_apart a b -> assignment_apart (normalise a) (normalise b).
Proof.
  unfold assignment_apart, ranges_disjoint, normalise. cbn [fst snd].
  intros H Ha Hb i Hi Hj.
  destruct (Z.leb_spec (Task.duration_slots (fst a)) 0); [lia|].
  destruct (Z.leb_spec (Task.duration_slots (fst b)) 0); [lia|].
  exact (H Ha Hb i Hi Hj).
Qed.

Lemma normalise_ForallOrdPairs (asg : list (Task * Z)) :
  ForallOrdPairs assignment_apart asg ->
  ForallOrdPairs assignment_apart (map normalise asg).
Proof.
  induction 1 as [|a l Ha Hl IH]; cbn [map]; constructor; [|assumption].
  rewrite List.Forall_forall in *. intros b' Hb'.
  apply in_map_iff in Hb' as (b & <- & Hb).
  apply normalise_apart, Ha, Hb.
Qed.

Lemma normalise_allowed (fixed : list TimeSlot) (a : Task * Z) :
  range_allowed fixed MAX_SLOTS a ->
  assignment_fits (with_fixed fixed) (normalise a) /\
  assignment_on_timeline (with_fixed fixed) (normalise a).
Proof.
  unfold range_allowed, assignment_fits, assignment_on_timeline, normalise, fits.
  cbn [fst snd]. intros H.
  destruct (with_fixed_shape fixed) as (_ & -> & _).
  destruct (Z.leb_spec (Task.duration_slots (fst a)) 0) as [Hd|Hd].
  - unfold MAX_SLOTS. split.
    + intros Hf. destruct (H Hf) as [_ Hdl].
      split; [lia|]. split; [lia|]. split; [lia|]. intros i Hi. lia.
    + intros _. lia.
  - split.
    + intros Hf. destruct (H Hf) as [Hr Hdl].
      pose proof (Hr (snd a) ltac:(lia)) as [H0 _].
      pose proof (Hr (snd a + Task.duration_slots (fst a) - 1) ltac:(lia)) as [H1 _].
      split; [lia|]. split; [lia|]. split; [exact Hdl|].
      intros i Hi. destruct (Hr i Hi) as [Hb Hnf].
      apply with_fixed_free; assumption.
    + intros Hf. destruct (H Hf) as [Hr _].
      pose proof (Hr (snd a) ltac:(lia)) as [H0 _]. lia.
Qed.

Lemma schedulable_feasible (tasks : list Task) (fixed : list TimeSlot) :
  schedulable tasks fixed MAX_SLOTS ->
  exists asg, map fst asg = tasks /\
    feasible (with_fixed fixed) asg /\
    Forall (assignment_on_timeline (with_fixed fixed)) asg.
Proof.
  intros (asg & Hfst & Hall & Hapart).
  exists (map normalise asg). split; [rewrite normalise_fst; assumption|].
  split; [split|].
  - rewrite List.Forall_forall in *. intros a' Ha'.
    apply in_map_iff in Ha' as (a & <- & Ha).
    apply normalise_allowed, Hall, Ha.
  - apply normalise_ForallOrdPairs. assumption.
  - rewrite List.Forall_forall in *. intros a' Ha'.
    apply in_map_iff in Ha' as (a & <- & Ha).
    apply normalise_allowed, Hall, Ha.
Qed.

Section Claims.
Context {L : Libc}.

Lemma initial_state_ok tasks num_tasks fixed :
  qsort_conforms L -> 0 <= num_tasks -> array_ok tasks num_tasks ->
  input_tasks tasks num_tasks <> [] ->
  state_ok (working_tasks tasks num_tasks) 0
    (State.mk (with_fixed fixed) (replicate (Z.to_nat num_tasks) (-1))).
Proof.
  intros HL Hn Hok Hne. split; [apply with_fixed_shape|].
  cbn [State.placements]. split; [lia|].
  rewrite length_replicate.
  rewrite <- (Permutation_length (working_tasks_perm tasks num_tasks HL)).
  destruct (input_tasks_length tasks num_tasks Hn Hok); [contradiction | lia].
Qed.

(** C1.  When all allocations succeed, the task count is valid and some
    assignment of start slots puts every task that is not fixed inside
    the timeline, before its deadline, off the fixed slots and off the
    other tasks, [optimize_schedule] returns a timeline with
    [success = true]. *)
Theorem C1_search_complete tasks num_tasks fixed_slots num_fixed :
  allocations_succeed L -> qsort_conforms L ->
  0 <= num_tasks <= MAX_TASKS ->
  array_ok tasks num_tasks -> array_ok fixed_slots num_fixed ->
  schedulable (input_tasks tasks num_tasks)
    (input_fixed fixed_slots num_fixed) MAX_SLOTS ->
  exists tl,
    optimize_schedule tasks num_tasks fixed_slots num_fixed = Ret (Some tl) /\
    Timeline.success tl = true.
Proof.
  intros Halloc HL Hn Htasks Hfixed Hsched.
  rewrite optimize_schedule_valid by (try apply Halloc; assumption). cbv zeta.
  destruct (decide _) as [Hnil|Hne]; [eexists; split; reflexivity|].
  rewrite !Halloc. cbn [andb].
  apply schedulable_feasible in Hsched as (asg & Hfst & Hfeas & Hon).
  pose proof (working_tasks_perm tasks num_tasks HL) as Hperm.
  rewrite <- Hfst in Hperm. apply Permutation_sym in Hperm.
  apply Permutation_map_inv in Hperm as (asg' & Heq & Hperm').
  pose proof (initial_state_ok tasks num_tasks
                (input_fixed fixed_slots num_fixed) HL ltac:(lia) Htasks Hne) as Hok.
  rewrite Heq in Hok |- *.
  destruct (backtrack_complete asg' 0 _ Hok) as (st' & ->).
  - eapply feasible_perm; eassumption.
  - eapply Permutation_Forall; eassumption.
  - cbn [bind fst snd]. eexists. split; reflexivity.
Qed.

(** C5.  When all allocations succeed, the task count is valid and the
    search over the timeline left by the fixed-slot descriptors returns
    [false], [optimize_schedule] returns a timeline with [success = false],
    a message that starts with [NO_SOLUTION:], and exactly the slots the
    search started from. *)
Theorem C5_no_solution tasks num_tasks fixed_slots num_fixed tl0 st :
  allocations_succeed L -> qsort_conforms L ->
  0 <= num_tasks <= MAX_TASKS ->
  array_ok tasks num_tasks -> array_ok fixed_slots num_fixed ->
  timeline_after_fixed fixed_slots num_fixed = Ret tl0 ->
  backtrack (working_tasks tasks num_tasks) 0
    (State.mk tl0 (replicate (Z.to_nat num_tasks) (-1))) = Ret (false, st) ->
  exists tl,
    optimize_schedule tasks num_tasks fixed_slots num_fixed = Ret (Some tl) /\
    Timeline.success tl = false /\
    String.prefix "NO_SOLUTION:" (Timeline.error_message tl) = true /\
    Timeline.slots tl = Timeline.slots tl0 /\
    Timeline.num_slots tl = Timeline.num_slots tl0.
Proof.
  intros Halloc HL Hn Htasks Hfixed Htl0 Hsearch.
  rewrite timeline_after_fixed_spec in Htl0 by assumption. injection Htl0 as <-.
  rewrite optimize_schedule_valid by (try apply Halloc; assumption). cbv zeta.
  destruct (decide _) as [Hnil|Hne].
  { exfalso. pose proof (working_tasks_perm tasks num_tasks HL) as Hperm.
    rewrite Hnil in Hperm. apply Permutation_nil in Hperm.
    rewrite Hperm in Hsearch. discriminate. }
  rewrite !Halloc. cbn [andb]. rewrite Hsearch. cbn [bind fst snd].
  eexists. split; [reflexivity|].
  pose proof (initial_state_ok tasks num_tasks
                (input_fixed fixed_slots num_fixed) HL ltac:(lia) Htasks Hne) as Hok.
  destruct (backtrack_spec _ _ _ Hok) as (r & Hr & _ & _ & _ & Hfalse & _).
  rewrite Hsearch in Hr. injection Hr as <-.
  specialize (Hfalse eq_refl). cbn [fst snd State.timeline] in Hfalse.
  rewrite Hfalse. repeat split; reflexivity.
Qed.
End Claims.

(** ** Fixed slots, contiguity and deadlines *)

Lemma fixed_task_id_inv (fixed : list TimeSlot) (i v : Z) :
  fixed_task_id fixed i = Some v ->
  exists f, In f fixed /\ TimeSlot.slot_index f = i /\ TimeSlot.task_id f = v.
Proof.
  induction fixed as [|f fixed IH] using rev_ind; [discriminate|].
  rewrite fixed_task_id_snoc.
  destruct (Z.eqb_spec (TimeSlot.slot_index f) i) as [He|Hne].
  - intros [= <-]. exists f. split; [apply in_or_app; right; left; reflexivity | auto].
  - intros H. destruct (IH H) as (g & Hg & Hgi & Hgv).
    exists g. split; [apply in_or_app; left; assumption | auto].
Qed.

Lemma apply_descriptor_out_of_range (tl : Timeline) (f : TimeSlot) :
  ~ (0 <= TimeSlot.slot_index f < Timeline.num_slots tl) ->
  apply_descriptor tl f = tl.
Proof.
  intros H. unfold apply_descriptor. cbv zeta.
  destruct (_ && _) eqn:E; bool_to_prop E; [lia | reflexivity].
Qed.

Lemma NoDup_map_lookup {A B : Type} (f : A -> B) (l : list A) (i j : nat) (x y : A) :
  List.NoDup (map f l) -> l !! i = Some x -> l !! j = Some y -> f x = f y -> i = j.
Proof.
  intros Hnd Hi Hj Hxy. apply NoDup_ListNoDup in Hnd.
  change (map f l) with (f <$> l) in Hnd.
  eapply NoDup_lookup; [exact Hnd | |].
  - rewrite list_lookup_fmap, Hi. reflexivity.
  - rewrite list_lookup_fmap, Hj. simpl. congruence.
Qed.

Section Claims_on_success.
Context {L : Libc}.

(** The outcomes of a call with a valid task count. *)
Lemma optimize_schedule_outcomes tasks num_tasks fixed_slots num_fixed :
  malloc_succeeds AllocTimeline = true -> qsort_conforms L ->
  0 <= num_tasks <= MAX_TASKS ->
  array_ok tasks num_tasks -> array_ok fixed_slots num_fixed ->
  let tl0 := with_fixed (input_fixed fixed_slots num_fixed) in
  exists tl,
    optimize_schedule tasks num_tasks fixed_slots num_fixed = Ret (Some tl) /\
    Timeline.num_slots tl = MAX_SLOTS /\
    ((Timeline.slots tl = Timeline.slots tl0 /\
      (Timeline.success tl = true -> input_tasks tasks num_tasks = [])) \/
     (exists st,
        backtrack (working_tasks tasks num_tasks) 0
          (State.mk tl0 (replicate (Z.to_nat num_tasks) (-1))) = Ret (true, st) /\
        Timeline.slots tl = Timeline.slots (State.timeline st) /\
        wf_timeline (State.timeline st) /\
        placed (working_tasks tasks num_tasks) 0 tl0
          (State.placements st) (State.timeline st))).
Proof.
  intros Hmalloc HL Hn Htasks Hfixed tl0.
  rewrite optimize_schedule_valid by assumption. cbv zeta. fold tl0.
  destruct (with_fixed_shape (input_fixed fixed_slots num_fixed))
    as (Hwf0 & Hn0 & _). fold tl0 in Hwf0, Hn0.
  destruct (decide _) as [Hnil|Hne].
  { eexists. split; [reflexivity|]. split; [exact Hn0|]. left. auto. }
  destruct (_ && _).
  2:{ eexists. split; [reflexivity|]. split; [exact Hn0|]. left.
      split; [reflexivity|]. intros [=]. }
  pose proof (initial_state_ok tasks num_tasks
                (input_fixed fixed_slots num_fixed) HL ltac:(lia) Htasks Hne) as Hok.
  fold tl0 in Hok.
  destruct (backtrack_spec _ _ _ Hok) as ([b st] & -> & Hwf & _ & _ & Hfalse & Htrue).
  cbn [bind fst snd State.timeline State.placements] in *.
  eexists. split; [reflexivity|]. destruct b.
  - specialize (Htrue eq_refl).
    destruct (placed_shape _ _ _ _ _ Htrue) as (Hns & _).
    split; [cbn; congruence|]. right. exists st. auto.
  - rewrite (Hfalse eq_refl). split; [exact Hn0|]. left.
    split; [reflexivity|]. intros [=].
Qed.

(** C3, amended.  For a valid task count, once the timeline is allocated:
    the descriptors are applied before the search without any error (one
    that is out of range changes nothing), [optimize_schedule] returns a
    timeline, and in it every slot named by a descriptor carries the task
    id of the last descriptor naming it and is fixed, whether the call
    succeeds or fails. *)
Theorem C3_fixed_slots tasks num_tasks fixed_slots num_fixed :
  malloc_succeeds AllocTimeline = true -> qsort_conforms L ->
  0 <= num_tasks <= MAX_TASKS ->
  array_ok tasks num_tasks -> array_ok fixed_slots num_fixed ->
  timeline_after_fixed fixed_slots num_fixed =
    Ret (fold_left apply_descriptor (input_fixed fixed_slots num_fixed)
           (timeline_init 7)) /\
  (forall tl f, ~ (0 <= TimeSlot.slot_index f < Timeline.num_slots tl) ->
     apply_descriptor tl f = tl) /\
  (exists tl,
     optimize_schedule tasks num_tasks fixed_slots num_fixed = Ret (Some tl)) /\
  fixed_slots_kept tasks num_tasks fixed_slots num_fixed.
Proof.
  intros Hmalloc HL Hn Htasks Hfixed.
  split; [apply timeline_after_fixed_spec; assumption|].
  split; [apply apply_descriptor_out_of_range|].
  destruct (optimize_schedule_outcomes tasks num_tasks fixed_slots num_fixed
              Hmalloc HL Hn Htasks Hfixed) as (tl & Heq & Hns & Hcases).
  split; [eauto|].
  intros tl' Heq' i Hi. rewrite Heq in Heq'. injection Heq' as <-.
  pose proof (with_fixed_lookup (input_fixed fixed_slots num_fixed) (Z.to_nat i)
                ltac:(lia)) as Hl0.
  rewrite Z2Nat.id in Hl0 by lia. unfold fixed_slot in Hl0.
  destruct Hcases as [[Hs _]|(st & _ & Hs & _ & Hp)]; rewrite Hs.
  - destruct (fixed_task_id _ i); eexists; (split; [exact Hl0|]); auto.
  - destruct (fixed_task_id _ i) as [v|].
    + exists (TimeSlot.mk i v (get_energy_level i) true). split; [|auto].
      eapply placed_keeps_occupied; [exact Hp | lia | exact Hl0 |].
      unfold slot_is_free. cbn. apply andb_false_r.
    + destruct (placed_lookup_cases _ _ _ _ _ Hp ltac:(lia) (Z.to_nat i))
        as [H|(k & t & s & sl & _ & _ & _ & _ & Hl & _ & Hl')].
      * eexists. split; [rewrite H; exact Hl0 | reflexivity].
      * eexists. split; [exact Hl'|].
        rewrite Hl0 in Hl. injection Hl as <-. reflexivity.
Qed.

(** C2, amended.  When the task ids are pairwise distinct, differ from the
    ids of the fixed-slot descriptors and from the empty sentinel -1, and
    no duration is negative, a successful timeline bears the id of every
    task that is not fixed on exactly one run of [duration_slots] slots,
    and the runs of two tasks do not overlap. *)
Theorem C2_contiguous_runs tasks num_tasks fixed_slots num_fixed :
  qsort_conforms L ->
  distinct_ids (input_tasks tasks num_tasks) (input_fixed fixed_slots num_fixed) ->
  (forall task, In task (input_tasks tasks num_tasks) ->
     Task.is_fixed task = false ->
     Task.id task <> -1 /\ 0 <= Task.duration_slots task) ->
  contiguous_runs tasks num_tasks fixed_slots num_fixed.
Proof.
  intros HL [Hnodup Hfid] Husable tl Heq Hsucc.
  destruct (optimize_schedule_success_inv _ _ _ _ _ Heq Hsucc)
    as (Hmalloc & Hn & Htasks & Hfixed).
  destruct (optimize_schedule_outcomes tasks num_tasks fixed_slots num_fixed
              Hmalloc HL Hn Htasks Hfixed) as (tl' & Heq' & Hns & Hcases).
  rewrite Heq in Heq'. injection Heq' as <-.
  assert (Hwf : Z.of_nat (length (Timeline.slots tl)) = MAX_SLOTS).
  { destruct (with_fixed_shape (input_fixed fixed_slots num_fixed))
      as ([_ Hlen0] & Hn0 & _).
    destruct Hcases as [[-> _]|(st & _ & -> & [_ Hlen] & Hp)]; [lia|].
    apply placed_shape in Hp as (Hns' & _). lia. }
  split.
  2:{ intros t1 t2 s1 s2 _ _ _ _ Hne (H1 & H2 & H3 & Ho1) (H4 & H5 & H6 & Ho2) i Hi1 Hi2.
      destruct (lookup_lt_is_Some_2 (Timeline.slots tl) (Z.to_nat i)) as [sl Hsl];
        [lia|].
      apply Hne. rewrite <- (proj2 (Ho1 _ _ Hsl)) by lia.
      apply (Ho2 _ _ Hsl). lia. }
  destruct Hcases as [[_ Hnil]|(st & _ & Hs & _ & Hp)].
  { rewrite (Hnil Hsucc). intros task []. }
  intros task Hin Hnf.
  pose proof (working_tasks_perm tasks num_tasks HL) as Hperm.
  destruct (Husable task Hin Hnf) as [Hid Hd].
  apply (Permutation_in _ Hperm), list_elem_of_In, list_elem_of_lookup in Hin
    as [k Hk].
  destruct (placed_starts _ _ _ _ _ Hp ltac:(lia) k task Hk Hnf)
    as (s & Hpl & Hs0 & Hs1 & _).
  destruct (with_fixed_shape (input_fixed fixed_slots num_fixed)) as (_ & Hn0 & _).
  exists s. split; [exact Hs0|]. split; [exact Hd|]. split; [lia|].
  intros i sl Hsl.
  assert (Hi : (i < Z.to_nat MAX_SLOTS)%nat) by (apply lookup_lt_Some in Hsl; lia).
  rewrite Hs in Hsl. split.
  - intros Hbears.
    destruct (placed_lookup_cases _ _ _ _ _ Hp ltac:(lia) i)
      as [H|(k' & t' & s' & sl0 & Hk' & Hnf' & Hpl' & Hr' & Hl0 & _ & Hl')].
    + exfalso. rewrite H in Hsl.
      rewrite with_fixed_lookup in Hsl by exact Hi.
      injection Hsl as <-. unfold fixed_slot in Hbears.
      destruct (fixed_task_id _ _) as [v|] eqn:Ev; simpl in Hbears; [|congruence].
      apply fixed_task_id_inv in Ev as (f & Hf & _ & Hv).
      apply (Hfid task f); [|assumption|congruence].
      apply (Permutation_in _ (Permutation_sym Hperm)), list_elem_of_In.
      eapply list_elem_of_lookup_2; eassumption.
    + rewrite Hl' in Hsl. injection Hsl as <-. simpl in Hbears.
      assert (k' = k) as ->.
      { eapply (NoDup_map_lookup Task.id (working_tasks tasks num_tasks));
          [|eassumption..].
        eapply Permutation_NoDup; [|exact Hnodup].
        apply Permutation_map. exact Hperm. }
      assert (t' = task) as -> by congruence.
      assert (s' = s) as -> by congruence. exact Hr'.
  - intros Hr.
    destruct (placed_range _ _ _ _ _ Hp ltac:(lia) k task s i Hk Hnf Hid Hpl Hr)
      as (sl0 & _ & _ & Hl').
    rewrite Hl' in Hsl. injection Hsl as <-. reflexivity.
Qed.

(** C4.  On success, the start slot the search recorded for a task that is
    not fixed keeps the task inside the timeline and, when the task has a
    deadline, ends it on or before the deadline; if the id is not the
    empty sentinel, the slots from that start on bear the id.  A task
    without deadline is placeable wherever it is in bounds on free
    slots. *)
Theorem C4_deadline tasks num_tasks fixed_slots num_fixed tl :
  qsort_conforms L ->
  optimize_schedule tasks num_tasks fixed_slots num_fixed = Ret (Some tl) ->
  Timeline.success tl = true ->
  (forall task, In task (input_tasks tasks num_tasks) ->
     Task.is_fixed task = false ->
     exists st k s,
       backtrack (working_tasks tasks num_tasks) 0
         (State.mk (with_fixed (input_fixed fixed_slots num_fixed))
            (replicate (Z.to_nat num_tasks) (-1))) = Ret (true, st) /\
       Timeline.slots tl = Timeline.slots (State.timeline st) /\
       working_tasks tasks num_tasks !! k = Some task /\
       State.placements st !! k = Some s /\
       0 <= s /\ s + Task.duration_slots task <= Timeline.num_slots tl /\
       (Task.deadline_slot task >= 0 ->
        s + Task.duration_slots task <= Task.deadline_slot task) /\
       (Task.id task <> -1 ->
        forall i, s <= i < s + Task.duration_slots task ->
          exists sl, Timeline.slots tl !! Z.to_nat i = Some sl /\
                     TimeSlot.task_id sl = Task.id task)) /\
  (forall tl1 task s, wf_timeline tl1 -> Task.deadline_slot task < 0 ->
     (can_place_task tl1 task s = Ret true <->
      0 <= s /\ s + Task.duration_slots task <= Timeline.num_slots tl1 /\
      forall i, s <= i < s + Task.duration_slots task -> free_at tl1 i = true)).
Proof.
  intros HL Heq Hsucc.
  destruct (optimize_schedule_success_inv _ _ _ _ _ Heq Hsucc)
    as (Hmalloc & Hn & Htasks & Hfixed).
  split.
  2:{ intros tl1 task s Hwf Hd. rewrite can_place_task_spec by assumption.
      rewrite <- fits_no_deadline by assumption. rewrite <- fitsb_fits.
      split; [intros [= ->]; reflexivity | intros ->; reflexivity]. }
  destruct (optimize_schedule_outcomes tasks num_tasks fixed_slots num_fixed
              Hmalloc HL Hn Htasks Hfixed) as (tl' & Heq' & Hns & Hcases).
  rewrite Heq in Heq'. injection Heq' as <-.
  destruct Hcases as [[_ Hnil]|(st & Hsearch & Hs & _ & Hp)].
  { rewrite (Hnil Hsucc). intros task []. }
  intros task Hin Hnf.
  pose proof (working_tasks_perm tasks num_tasks HL) as Hperm.
  apply (Permutation_in _ Hperm), list_elem_of_In, list_elem_of_lookup in Hin
    as [k Hk].
  destruct (placed_starts _ _ _ _ _ Hp ltac:(lia) k task Hk Hnf)
    as (s & Hpl & Hs0 & Hs1 & Hdl).
  destruct (with_fixed_shape (input_fixed fixed_slots num_fixed)) as (_ & Hn0 & _).
  rewrite Z.add_0_l, Nat2Z.id in Hpl.
  exists st, k, s. repeat split; try assumption; try lia.
  intros Hid i Hi.
  destruct (placed_range _ _ _ _ _ Hp ltac:(lia) k task s (Z.to_nat i) Hk Hnf Hid)
    as (sl0 & _ & _ & Hl'); [rewrite Z.add_0_l, Nat2Z.id; exact Hpl | lia |].
  rewrite Hs, Hl'. eexists. split; reflexivity.
Qed.
End Claims_on_success.

(** ** Memory safety of the search *)

(** C10.  From a state with a well-formed timeline and room in [placements],
    the search never leaves an array: [backtrack] returns a result, not
    [Fault].  A call of [place_task] or [remove_task] that returns has
    written only at indices of [0, num_slots), and the timeline
    [optimize_schedule] hands to the search is well formed with
    [num_slots = 336]. *)
Theorem C10_in_bounds (rest : list Task) (task_index : Z) (st : State) :
  state_ok rest task_index st ->
  (exists r, backtrack rest task_index st = Ret r /\
             wf_timeline (State.timeline (snd r))) /\
  (forall tl task s tl',
     wf_timeline tl ->
     place_task tl task s = Ret tl' \/ remove_task tl task s = Ret tl' ->
     forall i, s <= i < s + Task.duration_slots task ->
       0 <= i < Timeline.num_slots tl) /\
  (forall fixed_slots num_fixed,
     array_ok fixed_slots num_fixed ->
     exists tl0, timeline_after_fixed fixed_slots num_fixed = Ret tl0 /\
       wf_timeline tl0 /\ Timeline.num_slots tl0 = MAX_SLOTS).
Proof.
  intros Hok. split; [|split].
  - destruct (backtrack_spec rest task_index st Hok) as (r & Hr & Hwf & _).
    exists r. auto.
  - intros tl task s tl' [_ Hlen] H i Hi. rewrite <- Hlen.
    destruct H as [H|H]; unfold place_task, remove_task in H;
      apply (fill_loop_in_bounds _ _ _ _ _ _ H); lia.
  - intros fixed_slots num_fixed Hfixed.
    exists (with_fixed (input_fixed fixed_slots num_fixed)).
    split; [apply timeline_after_fixed_spec; assumption|].
    destruct (with_fixed_shape (input_fixed fixed_slots num_fixed)) as (H1 & H2 & _).
    auto.
Qed.

(** ** Task order *)



(** ** The claims on sample inputs *)

Lemma study_task_schedulable :
  schedulable (input_tasks (Some [study_task]) 1) (input_fixed None 0) MAX_SLOTS.
Proof.
  exists [(study_task, 0)]. split; [reflexivity|]. split.
  - constructor; [|constructor]. intros _. cbn. split.
    + intros i Hi. split; [unfold MAX_SLOTS; lia|]. intros (f & [] & _).
    + lia.
  - constructor; constructor.
Qed.

Lemma C1_witness :
  exists tl,
    optimize_schedule (L := stable_libc) (Some [study_task]) 1 None 0 = Ret (Some tl) /\
    Timeline.success tl = true.
Proof.
  apply (C1_search_complete (L := stable_libc)).
  - exact stable_libc_allocates.
  - exact stable_libc_conforms.
  - unfold MAX_TASKS. lia.
  - simpl. lia.
  - exact I.
  - exact study_task_schedulable.
Defined.

Lemma C5_witness :
  exists tl,
    optimize_schedule (L := stable_libc) (Some [late_task]) 1 None 0 = Ret (Some tl) /\
    Timeline.success tl = false /\
    String.prefix "NO_SOLUTION:" (Timeline.error_message tl) = true /\
    Timeline.slots tl = Timeline.slots (timeline_init 7) /\
    Timeline.num_slots tl = Timeline.num_slots (timeline_init 7).
Proof.
  eapply (C5_no_solution (L := stable_libc)).
  - exact stable_libc_allocates.
  - exact stable_libc_conforms.
  - unfold MAX_TASKS. lia.
  - simpl. lia.
  - exact I.
  - reflexivity.
  - vm_compute. reflexivity.
Defined.



Lemma C7_witness :
  exists candidates,
    tried_candidates (timeline_init 7) study_task = Ret candidates /\
    (forall s, In s (map SlotScore.slot candidates) <->
               0 <= s < Timeline.num_slots (timeline_init 7) /\
               fits (timeline_init 7) study_task s) /\
    StronglySorted tried_before candidates.
Proof.
  destruct (C7_candidate_order study_task [] 0 (State.mk (timeline_init 7) [-1]))
    as (cs & H1 & _ & H2 & _ & H3).
  - split; [vm_compute; congruence | vm_compute; reflexivity].
  - reflexivity.
  - exists cs. auto.
Defined.

Lemma C10_witness :
  exists r, backtrack [study_task] 0 (State.mk (timeline_init 7) [-1]) = Ret r /\
            wf_timeline (State.timeline (snd r)).
Proof.
  apply (C10_in_bounds [study_task] 0 (State.mk (timeline_init 7) [-1])).
  split; [split; [vm_compute; congruence | vm_compute; reflexivity]|].
  simpl. lia.
Defined.

Lemma study_task_distinct :
  distinct_ids (input_tasks (Some [study_task]) 1) (input_fixed (Some [class_slot]) 1).
Proof.
  split.
  - cbn. repeat constructor. intros [].
  - cbn. intros task f [<-|[]] [<-|[]]. cbn. lia.
Qed.

Lemma C2_witness :
  exists tl s,
    optimize_schedule (L := stable_libc) (Some [study_task]) 1 (Some [class_slot]) 1 =
      Ret (Some tl) /\
    Timeline.success tl = true /\
    occupies tl (Task.id study_task) s (Task.duration_slots study_task).
Proof.
  pose proof (C2_contiguous_runs (L := stable_libc)
                (Some [study_task]) 1 (Some [class_slot]) 1
                stable_libc_conforms
                study_task_distinct
                ltac:(cbn; intros task [<-|[]] _; cbn; lia)) as H.
  eexists.
  destruct (H _ ltac:(vm_compute; reflexivity) eq_refl) as [Hrun _].
  destruct (Hrun study_task (or_introl eq_refl) eq_refl) as [s Hs].
  exists s. split; [vm_compute; reflexivity|]. split; [reflexivity | exact Hs].
Defined.

Lemma C3_witness :
  exists tl sl,
    optimize_schedule (L := stable_libc) (Some [study_task]) 1 (Some [class_slot]) 1 =
      Ret (Some tl) /\
    Timeline.slots tl !! 16%nat = Some sl /\
    TimeSlot.task_id sl = TimeSlot.task_id class_slot /\
    TimeSlot.is_fixed sl = true.
Proof.
  destruct (C3_fixed_slots (L := stable_libc)
              (Some [study_task]) 1 (Some [class_slot]) 1
              eq_refl stable_libc_conforms
              ltac:(unfold MAX_TASKS; lia) ltac:(simpl; lia) ltac:(simpl; lia))
    as (_ & _ & [tl Heq] & Hkept).
  destruct (Hkept tl Heq 16 ltac:(unfold MAX_SLOTS; lia)) as (sl & Hl & _ & Hid & Hfx).
  exists tl, sl. auto.
Defined.

Lemma C4_witness :
  exists tl,
    optimize_schedule (L := stable_libc) (Some [due_task]) 1 None 0 = Ret (Some tl) /\
    Timeline.success tl = true /\
    forall task, In task [due_task] ->
      exists s, 0 <= s /\ s + Task.duration_slots task <= Task.deadline_slot task.
Proof.
  eexists. split; [vm_compute; reflexivity|]. split; [reflexivity|].
  intros task Hin.
  destruct (C4_deadline (L := stable_libc) (Some [due_task]) 1 None 0 _
              stable_libc_conforms
              ltac:(vm_compute; reflexivity) eq_refl) as [H _].
  destruct (H task Hin) as (st & k & s & _ & _ & _ & _ & H0 & _ & Hd & _).
  - destruct Hin as [<-|[]]. reflexivity.
  - exists s. split; [exact H0|]. apply Hd.
    destruct Hin as [<-|[]]. cbn. lia.
Defined.

(** ** Where the specification and the code part *)

Lemma initial_slot (ok : bool) (msg : string) (k : nat) :
  (k < 336)%nat ->
  Timeline.slots (set_result (timeline_init 7) ok msg) !! k =
  Some (timeslot_init (Z.of_nat k)).
Proof. intros Hk. apply timeline_init_7. exact Hk. Qed.

(** A task whose id is the empty sentinel leaves no trace. *)
Lemma optimize_task_init :
  optimize_schedule (L := stable_libc) (Some [task_init]) 1 None 0 =
  Ret (Some (set_result (timeline_init 7) true EmptyString)).
Proof. vm_compute. reflexivity. Qed.

(** A task of negative duration is placed without occupying a slot. *)
Lemma optimize_negative_task :
  optimize_schedule (L := stable_libc) (Some [negative_task]) 1 None 0 =
  Ret (Some (set_result (timeline_init 7) true EmptyString)).
Proof. vm_compute. reflexivity. Qed.

(** With an invalid task count the fixed-slot descriptors are not applied. *)
Lemma optimize_invalid_count :
  optimize_schedule (L := stable_libc) None 501 (Some [class_slot]) 1 =
  Ret (Some (set_result (timeline_init 7) false "Invalid number of tasks: 501")).
Proof. vm_compute. reflexivity. Qed.

(** C2 as the claim words it fails for a task that bears the empty sentinel
    as its id (the id [task_init] gives): its slots stay empty, so the id
    is on all 336 slots.  It also fails for a task of negative duration,
    which is placed without occupying anything. *)
Lemma C2_counterexample :
  (distinct_ids (input_tasks (Some [task_init]) 1) (input_fixed None 0) /\
   ~ contiguous_runs (L := stable_libc) (Some [task_init]) 1 None 0) /\
  (distinct_ids (input_tasks (Some [negative_task]) 1) (input_fixed None 0) /\
   ~ contiguous_runs (L := stable_libc) (Some [negative_task]) 1 None 0).
Proof.
  split; split.
  - split; [cbn; repeat constructor; intros [] | intros ? ? _ []].
  - intros H.
    destruct (H _ optimize_task_init eq_refl) as [Hrun _].
    destruct (Hrun task_init (or_introl eq_refl) eq_refl) as (s & _ & _ & _ & Ho).
    pose proof (proj1 (Ho 0%nat _ (initial_slot _ _ 0 ltac:(lia))) eq_refl) as H0.
    pose proof (proj1 (Ho 1%nat _ (initial_slot _ _ 1 ltac:(lia))) eq_refl) as H1.
    cbn in H0, H1. lia.
  - split; [cbn; repeat constructor; intros [] | intros ? ? _ []].
  - intros H.
    destruct (H _ optimize_negative_task eq_refl) as [Hrun _].
    destruct (Hrun negative_task (or_introl eq_refl) eq_refl) as (s & _ & Hd & _).
    cbn in Hd. lia.
Qed.

(** C3 as the claim words it fails when the task count is invalid: the
    descriptors are not applied and slot 16 comes back empty and not fixed. *)
Lemma C3_counterexample :
  ~ fixed_slots_kept (L := stable_libc) None 501 (Some [class_slot]) 1.
Proof.
  intros H.
  specialize (H _ optimize_invalid_count 16 ltac:(unfold MAX_SLOTS; lia)).
  cbn [input_fixed take class_slot fixed_task_id fold_left TimeSlot.slot_index
       TimeSlot.task_id Z.to_nat Pos.to_nat Pos.iter_op Nat.add] in H.
  change (16 =? 16) with true in H. cbv iota in H.
  destruct H as (sl & Hl & _ & _ & Hf).
  rewrite (initial_slot _ _ 16 ltac:(lia)) in Hl.
  injection Hl as <-. discriminate Hf.
Qed.


(** ** String escaping *)

Lemma string_append_assoc (a b c : string) :
  String.append (String.append a b) c = String.append a (String.append b c).
Proof. induction a as [|x a IH]; simpl; [reflexivity | rewrite IH; reflexivity]. Qed.

Lemma parse_escape_char (c : ascii) (tail : string) (room : nat) :
  plain_char c = true ->
  parse_string_loop (String.append (json_escape_char c) tail) (S room) =
  (r <- parse_string_loop tail room ;; Ret (String c (fst r), snd r)).
Proof.
  intros Hc. unfold json_escape_char.
  destruct (Ascii.eqb_spec c quote) as [->|Hq]; [reflexivity|].
  destruct (Ascii.eqb_spec c backslash) as [->|Hb]; [reflexivity|].
  destruct (Ascii.eqb_spec c char_b) as [->|H1]; [reflexivity|].
  destruct (Ascii.eqb_spec c char_f) as [->|H2]; [reflexivity|].
  destruct (Ascii.eqb_spec c char_n) as [->|H3]; [reflexivity|].
  destruct (Ascii.eqb_spec c char_r) as [->|H4]; [reflexivity|].
  destruct (Ascii.eqb_spec c char_t) as [->|H5]; [reflexivity|].
  unfold plain_char in Hc.
  apply Ascii.eqb_neq in H1, H2, H3, H4, H5.
  rewrite H1, H2, H3, H4, H5, !orb_false_r in Hc.
  destruct (Nat.ltb_spec (nat_of_ascii c) 32) as [Hlt|_].
  { apply Nat.leb_le in Hc. lia. }
  cbn [str1 String.append parse_string_loop].
  apply Ascii.eqb_neq in Hq, Hb. rewrite Hq, Hb. reflexivity.
Qed.

(** [parse_string] reads back what [json_escape_string] wrote, as long as
    no character needed a [\u] escape and the text fits the destination. *)
Lemma parse_escape_body (str tail : string) (room : nat) :
  all_plain str = true -> (String.length str <= room)%nat ->
  parse_string_loop
    (String.append (json_escape_body str) (String quote tail)) room =
  Ret (str, String quote tail).
Proof.
  revert room. induction str as [|c str IH]; intros room Hp Hlen.
  - cbn [json_escape_body String.append parse_string_loop].
    rewrite Ascii.eqb_refl. reflexivity.
  - cbn [all_plain] in Hp. apply andb_true_iff in Hp as [Hc Hp].
    cbn [String.length] in Hlen. destruct room as [|room]; [lia|].
    cbn [json_escape_body]. rewrite string_append_assoc.
    rewrite parse_escape_char by assumption.
    rewrite IH by (try assumption; lia). reflexivity.
Qed.

Lemma parse_string_json_escape {L : Libc} (str : string) (max_len : Z) :
  malloc_succeeds AllocEscaped = true ->
  all_plain str = true -> Z.of_nat (String.length str) < max_len ->
  exists escaped,
    json_escape_string (Some str) = Some escaped /\
    parse_string escaped max_len = Ret (Some (str, EmptyString)).
Proof.
  intros Hm Hp Hlen. unfold json_escape_string. rewrite Hm.
  eexists. split; [reflexivity|].
  unfold parse_string. cbn [skip_whitespace].
  change (isspace quote) with false. cbv iota.
  rewrite Ascii.eqb_refl.
  unfold str1. rewrite parse_escape_body by (try assumption; lia).
  cbn [bind fst snd]. rewrite Ascii.eqb_refl. reflexivity.
Qed.

(** C9.  [json_escape_string] writes the control character of code 1 as a
    [\u0001] escape, and [parse_string], the only string parser of the
    engine, reads the escape back as the five characters [u0001]: emitting
    a timeline whose message holds that character and parsing the emitted
    message does not give the message back. *)
Theorem C9_escape_not_inverted {IO : IoLibc} :
  exists doc value rest,
    timeline_to_json (L := stable_libc) (Some failed_timeline) = Ret (Some doc) /\
    find_key doc "error_message" = Some value /\
    String.prefix (String quote (String backslash "u0001")) value = true /\
    parse_string value MAX_ERROR_LEN = Ret (Some ("u0001"%string, rest)) /\
    "u0001"%string <> Timeline.error_message failed_timeline.
Proof.
  eexists. eexists. eexists.
  split; [vm_compute; reflexivity|].
  split; [vm_compute; reflexivity|].
  split; [vm_compute; reflexivity|].
  split; [vm_compute; reflexivity|].
  discriminate.
Qed.

(** * Further properties of the engine *)

(** ** Task type names *)

(** X1.  Converting a task type to its name and the name back gives the
    type again for the fourteen enumerators; any other value is named
    ["unknown"], which converts back to -1. *)
Theorem task_type_names_round_trip (type : Z) :
  exists s, task_type_to_string type = Ret s /\
    task_type_from_string (Some s) =
    Ret (if (0 <=? type) && (type <? TASK_TYPE_COUNT) then type else -1).
Proof.
  unfold TASK_TYPE_COUNT.
  destruct ((0 <=? type) && (type <? 14)) eqn:E; bool_to_prop E.
  - assert (Hc : In type (seqZ 0 14)).
    { apply list_elem_of_In, elem_of_seqZ. lia. }
    cbn in Hc.
    repeat (destruct Hc as [<-|Hc]; [eexists; split; reflexivity|]).
    destruct Hc.
  - exists "unknown"%string. split; [|reflexivity].
    unfold task_type_to_string, TASK_TYPE_COUNT.
    destruct ((type >=? 0) && (type <? 14)) eqn:E'; bool_to_prop E'; [lia|reflexivity].
Qed.

Lemma task_type_from_string_loop_spec (str : string) (n : nat) (i : Z) :
  0 <= i -> i + Z.of_nat n <= TASK_TYPE_COUNT ->
  exists v, task_type_from_string_loop str n i = Ret v /\
    ((v = -1 /\
      forall j, i <= j < i + Z.of_nat n -> array_get TASK_TYPE_STRINGS j <> Ret str) \/
     (i <= v < i + Z.of_nat n /\ array_get TASK_TYPE_STRINGS v = Ret str)).
Proof.
  revert i. induction n as [|n IH]; intros i Hi Hn.
  - exists (-1). split; [reflexivity|]. left. split; [reflexivity|]. intros j Hj. lia.
  - cbn [task_type_from_string_loop].
    destruct (lookup_lt_is_Some_2 TASK_TYPE_STRINGS (Z.to_nat i)) as [s Hs].
    { unfold TASK_TYPE_COUNT in Hn. cbn. lia. }
    assert (Eg : array_get TASK_TYPE_STRINGS i = Ret s).
    { apply array_get_Ret. split; [lia | exact Hs]. }
    rewrite Eg. cbn [bind].
    destruct (String.eqb_spec str s) as [->|Hne].
    + exists i. split; [reflexivity|]. right. split; [lia | exact Eg].
    + destruct (IH (i + 1) ltac:(lia) ltac:(lia)) as (v & Hv & Hc).
      exists v. split; [exact Hv|].
      destruct Hc as [[-> Hall]|[Hr Hg]].
      * left. split; [reflexivity|]. intros j Hj.
        destruct (Z.eq_dec j i) as [->|Hji].
        -- rewrite Eg. congruence.
        -- apply Hall. lia.
      * right. split; [lia | exact Hg].
Qed.

(** The enumerator of a value the table of names covers. *)
Lemma TaskType_of_int_range (v : Z) :
  0 <= v < TASK_TYPE_COUNT ->
  exists ty, TaskType_of_int v = Some ty /\ TaskType_to_int ty = v.
Proof.
  unfold TASK_TYPE_COUNT. intros Hv.
  assert (Hc : In v (seqZ 0 14)).
  { apply list_elem_of_In, elem_of_seqZ. lia. }
  cbn in Hc.
  repeat (destruct Hc as [<-|Hc]; [eexists; split; reflexivity|]).
  destruct Hc.
Qed.

Lemma task_type_from_string_cases (str : string) :
  exists v, task_type_from_string (Some str) = Ret v /\
    ((v = -1 /\ ~ In str TASK_TYPE_STRINGS) \/
     (0 <= v < TASK_TYPE_COUNT /\ task_type_to_string v = Ret str)).
Proof.
  destruct (task_type_from_string_loop_spec str (Z.to_nat TASK_TYPE_COUNT) 0
              ltac:(lia) ltac:(unfold TASK_TYPE_COUNT; lia)) as (v & Hv & Hc).
  exists v. split; [exact Hv|].
  destruct Hc as [[-> Hall]|[Hr Hg]].
  - left. split; [reflexivity|]. intros Hin.
    apply list_elem_of_In, list_elem_of_lookup in Hin as [k Hk].
    pose proof (lookup_lt_Some _ _ _ Hk) as Hlt. cbn in Hlt.
    apply (Hall (Z.of_nat k)); [unfold TASK_TYPE_COUNT; lia|].
    apply array_get_Ret. split; [lia|]. rewrite Nat2Z.id. exact Hk.
  - right. unfold TASK_TYPE_COUNT in *. split; [lia|].
    unfold task_type_to_string, TASK_TYPE_COUNT.
    destruct ((v >=? 0) && (v <? 14)) eqn:E; bool_to_prop E; [exact Hg | lia].
Qed.

(** X2.  [task_type_from_string] gives -1 for a null pointer and for every
    string that is not one of the fourteen names (the comparison is exact,
    so ["Study"] and ["unknown"] give -1); otherwise it gives the value of
    the enumerator that [task_type_to_string] names by that string. *)
Theorem task_type_from_string_spec (str : string) :
  task_type_from_string None = Ret (-1) /\
  exists v, task_type_from_string (Some str) = Ret v /\
    ((v = -1 /\ ~ In str TASK_TYPE_STRINGS) \/
     (0 <= v < TASK_TYPE_COUNT /\ task_type_to_string v = Ret str /\
      exists ty, TaskType_of_int v = Some ty /\ TaskType_to_int ty = v)).
Proof.
  split; [reflexivity|].
  destruct (task_type_from_string_cases str) as (v & Hv & Hc).
  exists v. split; [exact Hv|].
  destruct Hc as [Hc|[Hr Hs]]; [left; exact Hc|].
  right. split; [exact Hr|]. split; [exact Hs|].
  apply TaskType_of_int_range. exact Hr.
Qed.

(** ** Energy periods and scores *)

(** X3.  For every slot index, negative ones included, exactly one of the
    three period predicates holds, and [get_energy_level] is 9 on the peak
    period, 6 on the medium period and 3 on the low period. *)
Theorem energy_level_by_period (slot_index : Z) :
  (is_peak_energy_period slot_index = true /\
   is_medium_energy_period slot_index = false /\
   is_low_energy_period slot_index = false /\
   get_energy_level slot_index = 9) \/
  (is_peak_energy_period slot_index = false /\
   is_medium_energy_period slot_index = true /\
   is_low_energy_period slot_index = false /\
   get_energy_level slot_index = 6) \/
  (is_peak_energy_period slot_index = false /\
   is_medium_energy_period slot_index = false /\
   is_low_energy_period slot_index = true /\
   get_energy_level slot_index = 3).
Proof.
  unfold is_peak_energy_period, is_medium_energy_period, is_low_energy_period,
    get_energy_level.
  cbv zeta. generalize (slot_to_hour slot_index). intros hour.
  destruct (_ || _) eqn:Ep; bool_to_prop Ep;
    (destruct (_ || _ || _ || _) eqn:Em; bool_to_prop Em);
    (destruct (_ || _ || _) eqn:El; bool_to_prop El);
    try lia; auto 10.
Qed.

Lemma slot_to_hour_days_later (slot_index days : Z) :
  0 <= slot_index -> 0 <= days ->
  slot_to_hour (slot_index + days * SLOTS_PER_DAY) = slot_to_hour slot_index.
Proof.
  intros Hi Hd. unfold slot_to_hour, SLOTS_PER_DAY. cbv zeta.
  rewrite !Z.rem_mod_nonneg by lia.
  rewrite Z.mod_add by lia. reflexivity.
Qed.

(** X4.  The energy map repeats every day: for a slot index that is not
    negative, the energy level and the energy score of any task are the
    same [days] days later. *)
Theorem energy_map_daily (task : Task) (slot_index days : Z) :
  0 <= slot_index -> 0 <= days ->
  get_energy_level (slot_index + days * SLOTS_PER_DAY) = get_energy_level slot_index /\
  calculate_energy_score task (slot_index + days * SLOTS_PER_DAY) =
  calculate_energy_score task slot_index.
Proof.
  intros Hi Hd.
  unfold calculate_energy_score, get_energy_level, is_peak_energy_period,
    is_medium_energy_period, is_low_energy_period.
  rewrite !slot_to_hour_days_later by assumption. split; reflexivity.
Qed.

Lemma calculate_energy_score_nonneg (task : Task) (slot_index : Z) :
  0 <= calculate_energy_score task slot_index.
Proof.
  unfold calculate_energy_score. cbv zeta.
  repeat match goal with
         | |- context [if ?b then _ else _] => destruct b
         end; lia.
Qed.

(** X5.  The energy score is never negative and never above 15; a task of
    a type outside the three scored groups that states no preference
    scores 0 on every slot. *)
Theorem calculate_energy_score_range (task : Task) (slot_index : Z) :
  0 <= calculate_energy_score task slot_index <= 15 /\
  (is_study_like (Task.type task) = false ->
   is_practice_like (Task.type task) = false ->
   is_break_like (Task.type task) = false ->
   Task.preferred_energy task = ENERGY_ANY ->
   calculate_energy_score task slot_index = 0).
Proof.
  split.
  - unfold calculate_energy_score. cbv zeta.
    repeat match goal with
           | |- context [if ?b then _ else _] => destruct b
           end; lia.
  - intros H1 H2 H3 H4. unfold calculate_energy_score. cbv zeta.
    rewrite H1, H2, H3, H4. reflexivity.
Qed.

(** ** The initial timeline *)

(** X6.  [timeline_init] gives as many slots as the [int] product
    [num_days * 48] says, capped at 336: the product itself as long as it
    is an [int], which it is up to 44739242 days.  The timeline is marked
    unsuccessful with an empty message, and slot [i] is empty, not fixed,
    and carries its index and the energy level of its hour.  From seven
    days up to that bound the timeline is the same; a product that has
    wrapped around to a negative number is not capped and no slot is
    initialised. *)
Theorem timeline_init_shape (num_days : Z) :
  let tl := timeline_init num_days in
  let total := wrap_int (num_days * SLOTS_PER_DAY) in
  Timeline.num_slots tl = Z.min total MAX_SLOTS /\
  Timeline.success tl = false /\
  Timeline.error_message tl = EmptyString /\
  length (Timeline.slots tl) = Z.to_nat (Timeline.num_slots tl) /\
  (forall i, 0 <= i < Timeline.num_slots tl ->
     Timeline.slots tl !! Z.to_nat i =
     Some (TimeSlot.mk i (-1) (get_energy_level i) false)) /\
  (INT_MIN <= num_days * SLOTS_PER_DAY <= INT_MAX ->
   total = num_days * SLOTS_PER_DAY) /\
  (7 <= num_days <= 44739242 -> tl = timeline_init 7) /\
  (total < 0 -> Timeline.num_slots tl = total /\ Timeline.slots tl = []).
Proof.
  cbv zeta. unfold timeline_init. cbv zeta.
  cbn [Timeline.num_slots Timeline.success Timeline.error_message Timeline.slots].
  set (total := wrap_int (num_days * SLOTS_PER_DAY)).
  assert (Hmin : (if total >? MAX_SLOTS then MAX_SLOTS else total) =
                 Z.min total MAX_SLOTS).
  { destruct (Z.gtb_spec total MAX_SLOTS); lia. }
  rewrite Hmin.
  split; [reflexivity|]. split; [reflexivity|]. split; [reflexivity|].
  split; [apply init_slots_length|]. split.
  { intros i Hi. rewrite init_slots_lookup by lia.
    rewrite Z.add_0_l, Z2Nat.id by lia. reflexivity. }
  split; [intros Hr; apply wrap_int_id, Hr|]. split.
  - intros Hd.
    assert (Ht : total = num_days * SLOTS_PER_DAY).
    { apply wrap_int_id. unfold SLOTS_PER_DAY, INT_MIN, INT_MAX. lia. }
    change (wrap_int (7 * SLOTS_PER_DAY)) with 336.
    unfold SLOTS_PER_DAY, MAX_SLOTS in *.
    replace (Z.min total 336) with 336 by lia. reflexivity.
  - intros Hneg. unfold MAX_SLOTS.
    replace (Z.min total 336) with total by lia.
    split; [reflexivity|]. destruct total; try lia. reflexivity.
Qed.

(** ** Greedy slot selection *)

Lemma find_best_slot_loop_spec (tl : Timeline) (task : Task) (n : nat)
    (slot best_slot best_score : Z) :
  wf_timeline tl ->
  find_best_slot_loop tl task n slot best_slot best_score =
  Ret (fst (fold_left best_step
              (map (candidate_of task)
                 (List.filter (fitsb tl task) (seqZ slot (Z.of_nat n))))
              (best_slot, best_score))).
Proof.
  intros Hwf. revert slot best_slot best_score.
  induction n as [|n IH]; intros slot best_slot best_score.
  - reflexivity.
  - cbn [find_best_slot_loop]. rewrite can_place_task_spec by assumption.
    rewrite seqZ_S. cbn [bind List.filter].
    destruct (fitsb tl task slot).
    + cbn [map fold_left].
      change (best_step (best_slot, best_score) (candidate_of task slot))
        with (if calculate_energy_score task slot >? best_score
              then (slot, calculate_energy_score task slot)
              else (best_slot, best_score)).
      destruct (_ >? _); apply IH.
    + apply IH.
Qed.

(** The running maximum over candidates in ascending slot order ends on
    the candidate every other one is tried after. *)
Lemma best_step_fold (l : list SlotScore) (best : Z * Z) :
  StronglySorted (fun a b => SlotScore.slot a < SlotScore.slot b) l ->
  (fold_left best_step l best = best /\
   Forall (fun c => SlotScore.score c <= snd best) l) \/
  (exists c, In c l /\
     fold_left best_step l best = (SlotScore.slot c, SlotScore.score c) /\
     SlotScore.score c > snd best /\
     forall c', In c' l -> c' = c \/ tried_before c c').
Proof.
  revert best. induction l as [|a l IH]; intros best Hs.
  - left. split; [reflexivity | constructor].
  - apply StronglySorted_inv in Hs as [Hs Ha]. rewrite List.Forall_forall in Ha.
    cbn [fold_left].
    change (best_step best a)
      with (if SlotScore.score a >? snd best
            then (SlotScore.slot a, SlotScore.score a) else best).
    destruct (Z.gtb_spec (SlotScore.score a) (snd best)) as [Hgt|Hle].
    + destruct (IH (SlotScore.slot a, SlotScore.score a) Hs)
        as [[Heq Hall]|(c & Hc & Heq & Hsc & Hbest)].
      * right. exists a. split; [left; reflexivity|]. split; [exact Heq|].
        split; [lia|]. intros c' [<-|Hc']; [left; reflexivity|]. right.
        rewrite List.Forall_forall in Hall. specialize (Hall _ Hc'). cbn in Hall.
        specialize (Ha _ Hc'). unfold tried_before. lia.
      * right. exists c. split; [right; exact Hc|]. split; [exact Heq|].
        cbn in Hsc. split; [lia|]. intros c' [<-|Hc']; [|auto].
        right. unfold tried_before. lia.
    + destruct (IH best Hs) as [[Heq Hall]|(c & Hc & Heq & Hsc & Hbest)].
      * left. split; [exact Heq|]. constructor; [lia | exact Hall].
      * right. exists c. split; [right; exact Hc|]. split; [exact Heq|].
        split; [exact Hsc|]. intros c' [<-|Hc']; [|auto].
        right. unfold tried_before. lia.
Qed.

(** X7.  On a well-formed timeline the greedy choice [find_best_slot] is
    the first start the backtracking search tries: -1 exactly when no
    start is feasible, and otherwise the feasible start of highest energy
    score, the earliest one among those of that score. *)
Theorem find_best_slot_first_candidate (tl : Timeline) (task : Task) :
  wf_timeline tl ->
  exists candidates best,
    tried_candidates tl task = Ret candidates /\
    find_best_slot tl task = Ret best /\
    best = match candidates with
           | [] => -1
           | c :: _ => SlotScore.slot c
           end /\
    ((best = -1 /\
      forall s, 0 <= s < Timeline.num_slots tl -> ~ fits tl task s) \/
     (0 <= best < Timeline.num_slots tl /\ fits tl task best /\
      forall s, 0 <= s < Timeline.num_slots tl -> fits tl task s ->
        calculate_energy_score task s < calculate_energy_score task best \/
        (calculate_energy_score task s = calculate_energy_score task best /\
         best <= s))).
Proof.
  intros Hwf. rewrite tried_candidates_spec by assumption.
  unfold find_best_slot. rewrite find_best_slot_loop_spec by assumption.
  rewrite seqZ_to_nat.
  set (l := map (candidate_of task)
              (List.filter (fitsb tl task) (seqZ 0 (Timeline.num_slots tl)))).
  eexists. eexists. split; [reflexivity|]. split; [reflexivity|].
  assert (Hsorted : StronglySorted (fun a b => SlotScore.slot a < SlotScore.slot b) l).
  { subst l. rewrite <- seqZ_to_nat. apply candidates_slot_sorted. }
  assert (Hin : forall s, 0 <= s < Timeline.num_slots tl -> fits tl task s ->
                  In (candidate_of task s) l).
  { intros s Hs Hf. apply in_candidates. cbn. auto. }
  assert (Hscore : forall c, In c l -> 0 <= SlotScore.score c).
  { intros c Hc. apply in_candidates in Hc as [-> _].
    apply calculate_energy_score_nonneg. }
  pose proof (sort_candidates_perm l) as Hperm.
  assert (Hord : StronglySorted tried_before (sort_candidates l)).
  { apply sort_candidates_sorted.
    eapply StronglySorted_both; [|exact Hsorted|exact Hsorted].
    unfold tie_ordered. intros a b H _ _. exact H. }
  destruct (best_step_fold l (-1, -1) Hsorted) as [[Heq Hall]|(c & Hc & Heq & _ & Hbest)].
  - rewrite Heq. cbn [fst].
    assert (Hnil : l = []).
    { destruct l as [|a l']; [reflexivity|].
      apply Forall_inv in Hall. cbn [snd] in Hall.
      specialize (Hscore a (or_introl eq_refl)). lia. }
    split.
    + destruct (sort_candidates l) as [|h t] eqn:Es; [reflexivity|].
      rewrite Hnil in Hperm. apply Permutation_sym, Permutation_nil in Hperm.
      discriminate.
    + left. split; [reflexivity|]. intros s Hs Hf.
      specialize (Hin s Hs Hf). rewrite Hnil in Hin. destruct Hin.
  - rewrite Heq. cbn [fst]. split.
    + destruct (sort_candidates l) as [|h t] eqn:Es.
      * apply (Permutation_in _ (Permutation_sym Hperm)) in Hc. destruct Hc.
      * apply StronglySorted_inv in Hord as [_ Hh]. rewrite List.Forall_forall in Hh.
        assert (Hh_in : In h l).
        { apply (Permutation_in _ Hperm). left. reflexivity. }
        apply (Permutation_in _ (Permutation_sym Hperm)) in Hc.
        destruct Hc as [->|Hc]; [reflexivity|].
        specialize (Hh _ Hc).
        destruct (Hbest _ Hh_in) as [->|Hb]; [reflexivity|].
        unfold tried_before in *. lia.
    + right. apply in_candidates in Hc as (Hceq & Hrange & Hfit).
      split; [exact Hrange|]. split; [exact Hfit|].
      intros s Hs Hf.
      destruct (Hbest _ (Hin s Hs Hf)) as [He|Hb].
      * right. rewrite <- He. cbn. split; [reflexivity | lia].
      * unfold tried_before in Hb. rewrite Hceq in Hb.
        cbn [candidate_of SlotScore.score SlotScore.slot] in Hb. lia.
Qed.

(** ** Placing and removing a task *)

Lemma can_place_task_fits (tl : Timeline) (task : Task) (s : Z) :
  wf_timeline tl -> can_place_task tl task s = Ret true -> fits tl task s.
Proof.
  intros Hwf H. rewrite can_place_task_spec in H by assumption.
  apply fitsb_fits. congruence.
Qed.

(** X8.  Where [can_place_task] accepts a start, [place_task] followed by
    [remove_task] at that start gives the timeline back unchanged. *)
Theorem place_then_remove (tl : Timeline) (task : Task) (start_slot : Z) :
  wf_timeline tl ->
  can_place_task tl task start_slot = Ret true ->
  exists tl1,
    place_task tl task start_slot = Ret tl1 /\
    wf_timeline tl1 /\
    remove_task tl1 task start_slot = Ret tl.
Proof.
  intros Hwf Hcan. pose proof (can_place_task_fits _ _ _ Hwf Hcan) as Hfit.
  destruct Hfit as (Hs & Hd & Hdl & Hfree).
  exists (fill tl start_slot (Task.id task) (Task.duration_slots task)).
  split; [apply place_task_fill; assumption|].
  split; [apply fill_wf; assumption|].
  rewrite remove_task_fill by (try apply fill_wf; assumption).
  f_equal. apply fill_restore. repeat split; assumption.
Qed.

Lemma free_at_fill_inside (tl : Timeline) (s v d i : Z) :
  v <> -1 -> s <= i < s + d -> free_at (fill tl s v d) i = false.
Proof.
  intros Hv Hin. unfold free_at. rewrite fill_num_slots.
  destruct (Z.leb_spec 0 i); [|reflexivity].
  destruct (Z.ltb_spec i (Timeline.num_slots tl)); [|reflexivity].
  rewrite fill_lookup. destruct (Timeline.slots tl !! Z.to_nat i); [|reflexivity].
  cbn [fmap option_fmap option_map andb].
  rewrite decide_True by lia.
  unfold slot_is_free. cbn.
  destruct (Z.eqb_spec v (-1)); [contradiction | reflexivity].
Qed.

(** X9.  Once a task whose id is not the empty sentinel has been placed,
    [can_place_task] rejects every start whose range shares a slot with
    the range of that task, and answers as before for every range that
    shares none. *)
Theorem place_task_blocks_its_range (tl tl1 : Timeline) (task other : Task)
    (start_slot s : Z) :
  wf_timeline tl ->
  can_place_task tl task start_slot = Ret true ->
  Task.id task <> -1 ->
  place_task tl task start_slot = Ret tl1 ->
  ((exists i, start_slot <= i < start_slot + Task.duration_slots task /\
              s <= i < s + Task.duration_slots other) ->
   can_place_task tl1 other s = Ret false) /\
  (ranges_disjoint start_slot (Task.duration_slots task)
     s (Task.duration_slots other) ->
   can_place_task tl1 other s = can_place_task tl other s).
Proof.
  intros Hwf Hcan Hid Hplace.
  pose proof (can_place_task_fits _ _ _ Hwf Hcan) as (Hs & Hd & _).
  rewrite place_task_fill in Hplace by assumption. injection Hplace as <-.
  rewrite !can_place_task_spec by (try apply fill_wf; assumption).
  split.
  - intros (i & Hi1 & Hi2). f_equal.
    destruct (fitsb _ other s) eqn:E; [|reflexivity].
    apply fitsb_fits in E as (_ & _ & _ & Hfree).
    rewrite <- (Hfree i Hi2). apply free_at_fill_inside; assumption.
  - intros Hno. f_equal.
    apply eq_true_iff_eq. rewrite !fitsb_fits. unfold fits.
    rewrite fill_num_slots.
    split; intros (H1 & H2 & H3 & H4); repeat split; try assumption; intros i Hi.
    + rewrite <- (H4 i Hi). symmetry. apply free_at_fill_outside. intros Hin.
      exact (Hno i Hin Hi).
    + rewrite <- (H4 i Hi). apply free_at_fill_outside. intros Hin.
      exact (Hno i Hin Hi).
Qed.

(** ** What a returned timeline holds *)

(** A slot that is free once a task has been put on free slots was free
    before, and lies outside the range of the task unless the task bears
    the empty sentinel. *)
Lemma free_at_after_fill (tl : Timeline) (task : Task) (s i : Z) :
  fits tl task s ->
  free_at (fill tl s (Task.id task) (Task.duration_slots task)) i = true ->
  free_at tl i = true /\
  (Task.id task <> -1 -> ~ (s <= i < s + Task.duration_slots task)).
Proof.
  intros (_ & _ & _ & Hfree) Hi.
  destruct (decide (s <= i < s + Task.duration_slots task)) as [Hin|Hout].
  - split; [auto|]. intros Hid _.
    rewrite free_at_fill_inside in Hi by assumption. discriminate.
  - rewrite free_at_fill_outside in Hi by assumption. auto.
Qed.

(** The starts recorded by a successful run form a feasible assignment. *)
Lemma placed_assignment (rest : list Task) (task_index : Z) (tl : Timeline)
    (pl : list Z) (tl' : Timeline) :
  placed rest task_index tl pl tl' ->
  (forall task, In task rest -> Task.is_fixed task = false -> Task.id task <> -1) ->
  exists asg, map fst asg = rest /\ feasible tl asg.
Proof.
  induction 1 as [| task rest idx tl pl tl' Hf Hp IH
                  | task rest idx tl pl tl' s Hf Hfit Hidx Hpl Hp IH];
    intros Hids.
  - exists []. split; [reflexivity|]. split; constructor.
  - destruct IH as (asg & Hfst & Hall & Hapart).
    { intros t Ht. apply Hids. right. exact Ht. }
    exists ((task, 0) :: asg). split; [cbn; congruence|]. split.
    + constructor; [|exact Hall]. intros Hnf. cbn in Hnf. congruence.
    + constructor; [|exact Hapart].
      apply List.Forall_forall. intros a _ Hnf. cbn in Hnf. congruence.
  - destruct IH as (asg & Hfst & Hall & Hapart).
    { intros t Ht. apply Hids. right. exact Ht. }
    pose proof (Hids task (or_introl eq_refl) Hf) as Hid.
    rewrite List.Forall_forall in Hall.
    exists ((task, s) :: asg). split; [cbn; congruence|]. split.
    + constructor; [intros _; exact Hfit|].
      apply List.Forall_forall. intros a Ha Hnf.
      destruct (Hall a Ha Hnf) as (H1 & H2 & H3 & H4).
      rewrite fill_num_slots in H2. repeat split; try assumption.
      intros i Hi. apply (free_at_after_fill tl task s i Hfit). auto.
    + constructor; [|exact Hapart].
      apply List.Forall_forall. intros a Ha _ Hnf i Hi1 Hi2.
      destruct (Hall a Ha Hnf) as (_ & _ & _ & H4).
      apply (free_at_after_fill tl task s i Hfit (H4 i Hi2)); assumption.
Qed.

Lemma with_fixed_free_inv (fixed : list TimeSlot) (i : Z) :
  free_at (with_fixed fixed) i = true ->
  0 <= i < MAX_SLOTS /\ ~ is_fixed_slot fixed i.
Proof.
  intros Hfree. apply free_at_inv in Hfree as [Hi (sl & Hl & Hfr)].
  destruct (with_fixed_shape fixed) as (_ & Hn & _). rewrite Hn in Hi.
  split; [exact Hi|]. intros Hfx.
  apply fixed_task_id_Some in Hfx as [v Hv].
  rewrite with_fixed_lookup in Hl by lia. rewrite Z2Nat.id in Hl by lia.
  unfold fixed_slot in Hl. rewrite Hv in Hl. injection Hl as <-.
  unfold slot_is_free in Hfr. cbn in Hfr. rewrite andb_false_r in Hfr. discriminate.
Qed.

Lemma feasible_schedulable (tasks : list Task) (fixed : list TimeSlot)
    (asg : list (Task * Z)) :
  Permutation tasks (map fst asg) ->
  feasible (with_fixed fixed) asg ->
  schedulable tasks fixed MAX_SLOTS.
Proof.
  intros Hperm [Hall Hapart].
  apply Permutation_map_inv in Hperm as (asg' & -> & Hperm).
  exists asg'. split; [reflexivity|]. split.
  - apply (Permutation_Forall Hperm).
    eapply Forall_impl; [exact Hall|]. cbv beta.
    intros a Hfit Hnf. destruct (Hfit Hnf) as (_ & _ & Hdl & Hfree).
    split; [|exact Hdl].
    intros i Hi. apply with_fixed_free_inv. auto.
  - eapply ForallOrdPairs_perm; [|exact Hperm|exact Hapart].
    apply assignment_apart_sym.
Qed.

Section Returned_timeline.
Context {L : Libc}.

Lemma optimize_schedule_invalid_count tasks num_tasks fixed_slots num_fixed :
  ~ (0 <= num_tasks <= MAX_TASKS) ->
  optimize_schedule tasks num_tasks fixed_slots num_fixed =
  Ret (if malloc_succeeds AllocTimeline
       then Some (set_result (timeline_init 7) false
                    (String.append "Invalid number of tasks: " (int_to_string num_tasks)))
       else None).
Proof.
  intros Hn. unfold optimize_schedule, timeline_create.
  destruct (_ || _) eqn:E; bool_to_prop E; [|lia].
  destruct (malloc_succeeds AllocTimeline); reflexivity.
Qed.

Lemma optimize_schedule_no_timeline tasks num_tasks fixed_slots num_fixed :
  malloc_succeeds AllocTimeline = false ->
  optimize_schedule tasks num_tasks fixed_slots num_fixed = Ret None.
Proof.
  intros Hm. unfold optimize_schedule, timeline_create. rewrite Hm.
  destruct (_ || _); reflexivity.
Qed.

(** X10.  Soundness of the search: when no task to place bears the empty
    sentinel as its id, a timeline returned with [success = true] means
    that the input is schedulable, i.e. some assignment of start slots
    keeps every task that is not fixed inside the timeline, before its
    deadline, off the fixed slots and off the other tasks. *)
Theorem optimize_schedule_sound tasks num_tasks fixed_slots num_fixed tl :
  qsort_conforms L ->
  (forall task, In task (input_tasks tasks num_tasks) ->
     Task.is_fixed task = false -> Task.id task <> -1) ->
  optimize_schedule tasks num_tasks fixed_slots num_fixed = Ret (Some tl) ->
  Timeline.success tl = true ->
  schedulable (input_tasks tasks num_tasks) (input_fixed fixed_slots num_fixed)
    MAX_SLOTS.
Proof.
  intros HL Hids Heq Hsucc.
  destruct (optimize_schedule_success_inv _ _ _ _ _ Heq Hsucc)
    as (Hmalloc & Hn & Htasks & Hfixed).
  destruct (optimize_schedule_outcomes tasks num_tasks fixed_slots num_fixed
              Hmalloc HL Hn Htasks Hfixed) as (tl' & Heq' & _ & Hcases).
  rewrite Heq in Heq'. injection Heq' as <-.
  destruct Hcases as [[_ Hnil]|(st & _ & _ & _ & Hp)].
  - rewrite (Hnil Hsucc). exists []. split; [reflexivity|]. split; constructor.
  - pose proof (working_tasks_perm tasks num_tasks HL) as Hperm.
    destruct (placed_assignment _ _ _ _ _ Hp) as (asg & Hfst & Hfeas).
    { intros t Ht. apply Hids. apply (Permutation_in _ (Permutation_sym Hperm)), Ht. }
    apply (feasible_schedulable _ _ asg); [|exact Hfeas].
    rewrite Hfst. exact Hperm.
Qed.

(** X11.  When the two input arrays hold the announced numbers of
    elements, [optimize_schedule] returns without touching memory outside
    them, and the pointer it returns is null exactly when the timeline
    could not be allocated. *)
Theorem optimize_schedule_returns tasks num_tasks fixed_slots num_fixed :
  qsort_conforms L ->
  array_ok tasks num_tasks -> array_ok fixed_slots num_fixed ->
  exists r, optimize_schedule tasks num_tasks fixed_slots num_fixed = Ret r /\
    (r = None <-> malloc_succeeds AllocTimeline = false).
Proof.
  intros HL Htasks Hfixed.
  destruct (malloc_succeeds AllocTimeline) eqn:Hm.
  2:{ exists None. split; [apply optimize_schedule_no_timeline; exact Hm | tauto]. }
  destruct (decide (0 <= num_tasks <= MAX_TASKS)) as [Hn|Hn].
  - destruct (optimize_schedule_outcomes tasks num_tasks fixed_slots num_fixed
                Hm HL Hn Htasks Hfixed) as (tl & Heq & _).
    exists (Some tl). split; [exact Heq|]. split; discriminate.
  - rewrite optimize_schedule_invalid_count by assumption. rewrite Hm.
    eexists. split; [reflexivity|]. split; discriminate.
Qed.

(** X12.  Every timeline [optimize_schedule] returns has 336 slots; slot
    [i] carries the index [i] and the energy level of its hour, and it is
    either empty and not fixed, or fixed with the task id of a descriptor
    naming slot [i], or not fixed with the id of an input task that is not
    fixed. *)
Theorem optimize_schedule_slots tasks num_tasks fixed_slots num_fixed tl :
  qsort_conforms L ->
  array_ok tasks num_tasks -> array_ok fixed_slots num_fixed ->
  optimize_schedule tasks num_tasks fixed_slots num_fixed = Ret (Some tl) ->
  Timeline.num_slots tl = MAX_SLOTS /\
  Z.of_nat (length (Timeline.slots tl)) = MAX_SLOTS /\
  forall i, 0 <= i < MAX_SLOTS ->
    exists sl, Timeline.slots tl !! Z.to_nat i = Some sl /\
      TimeSlot.slot_index sl = i /\
      TimeSlot.energy_level sl = get_energy_level i /\
      ((TimeSlot.task_id sl = -1 /\ TimeSlot.is_fixed sl = false) \/
       (TimeSlot.is_fixed sl = true /\
        exists f, In f (input_fixed fixed_slots num_fixed) /\
          TimeSlot.slot_index f = i /\ TimeSlot.task_id f = TimeSlot.task_id sl) \/
       (TimeSlot.is_fixed sl = false /\
        exists task, In task (input_tasks tasks num_tasks) /\
          Task.is_fixed task = false /\ Task.id task = TimeSlot.task_id sl)).
Proof.
  intros HL Htasks Hfixed Heq.
  destruct (malloc_succeeds AllocTimeline) eqn:Hm.
  2:{ rewrite optimize_schedule_no_timeline in Heq by assumption. discriminate. }
  destruct (decide (0 <= num_tasks <= MAX_TASKS)) as [Hn|Hn].
  - set (fixed := input_fixed fixed_slots num_fixed).
    assert (Hfx : forall i, 0 <= i < MAX_SLOTS ->
              TimeSlot.slot_index (fixed_slot fixed i) = i /\
              TimeSlot.energy_level (fixed_slot fixed i) = get_energy_level i /\
              ((TimeSlot.task_id (fixed_slot fixed i) = -1 /\
                TimeSlot.is_fixed (fixed_slot fixed i) = false) \/
               (TimeSlot.is_fixed (fixed_slot fixed i) = true /\
                exists f, In f fixed /\ TimeSlot.slot_index f = i /\
                  TimeSlot.task_id f = TimeSlot.task_id (fixed_slot fixed i)))).
    { intros i Hi. unfold fixed_slot.
      destruct (fixed_task_id fixed i) as [v|] eqn:Ev; cbn.
      - split; [reflexivity|]. split; [reflexivity|]. right. split; [reflexivity|].
        apply fixed_task_id_inv. exact Ev.
      - auto. }
    destruct (optimize_schedule_outcomes tasks num_tasks fixed_slots num_fixed
                Hm HL Hn Htasks Hfixed) as (tl' & Heq' & Hns & Hcases).
    rewrite Heq in Heq'. injection Heq' as <-. fold fixed in Hcases.
    destruct (with_fixed_shape fixed) as ([_ Hlen0] & Hn0 & _).
    split; [exact Hns|].
    destruct Hcases as [[Hsl _]|(st & _ & Hsl & _ & Hp)].
    + rewrite Hsl. split; [lia|]. intros i Hi.
      exists (fixed_slot fixed i).
      split; [rewrite with_fixed_lookup by lia; f_equal; f_equal; lia|].
      destruct (Hfx i Hi) as (H1 & H2 & H3). split; [exact H1|]. split; [exact H2|].
      destruct H3 as [H3|H3]; [left | right; left]; exact H3.
    + rewrite Hsl. destruct (placed_shape _ _ _ _ _ Hp) as (_ & _ & _ & Hlen).
      split; [lia|]. intros i Hi.
      pose proof (with_fixed_lookup fixed (Z.to_nat i) ltac:(lia)) as Hl0.
      rewrite Z2Nat.id in Hl0 by lia.
      destruct (Hfx i Hi) as (H1 & H2 & H3).
      destruct (placed_lookup_cases _ _ _ _ _ Hp ltac:(lia) (Z.to_nat i))
        as [H|(k & t & s & sl & Hk & Hnf & _ & _ & Hl & Hfr & Hl')].
      * exists (fixed_slot fixed i). split; [congruence|].
        split; [exact H1|]. split; [exact H2|].
        destruct H3 as [H3|H3]; [left | right; left]; exact H3.
      * exists (set_task_id sl (Task.id t)). split; [exact Hl'|].
        rewrite Hl0 in Hl. injection Hl as <-.
        split; [exact H1|]. split; [exact H2|]. right. right.
        unfold slot_is_free in Hfr. apply andb_true_iff in Hfr as [_ Hfr].
        apply negb_true_iff in Hfr. split; [exact Hfr|].
        exists t. split; [|split; [exact Hnf | reflexivity]].
        apply (Permutation_in _ (Permutation_sym (working_tasks_perm tasks num_tasks HL))).
        apply list_elem_of_In, list_elem_of_lookup. eauto.
  - rewrite optimize_schedule_invalid_count in Heq by assumption.
    rewrite Hm in Heq. injection Heq as <-.
    destruct timeline_init_7 as (Hns & _ & _ & Hlen & Hl).
    split; [exact Hns|]. cbn [set_result Timeline.slots].
    split; [rewrite Hlen; unfold MAX_SLOTS; lia|]. intros i Hi.
    exists (timeslot_init i). split; [rewrite Hl by lia; f_equal; f_equal; lia|].
    cbn. auto.
Qed.

(** X13.  What a returned timeline reports: either [success = true] with
    an empty message, or [success = false] with one of three messages: the
    invalid task count (exactly when the count is outside 0..500), the
    allocation failure of one of the two working arrays, or NO_SOLUTION. *)
Theorem optimize_schedule_verdict tasks num_tasks fixed_slots num_fixed tl :
  qsort_conforms L ->
  array_ok tasks num_tasks -> array_ok fixed_slots num_fixed ->
  optimize_schedule tasks num_tasks fixed_slots num_fixed = Ret (Some tl) ->
  (Timeline.success tl = true /\ Timeline.error_message tl = EmptyString /\
   0 <= num_tasks <= MAX_TASKS) \/
  (Timeline.success tl = false /\
   ((~ (0 <= num_tasks <= MAX_TASKS) /\
     Timeline.error_message tl =
     String.append "Invalid number of tasks: " (int_to_string num_tasks)) \/
    (0 <= num_tasks <= MAX_TASKS /\
     input_tasks tasks num_tasks <> [] /\
     (malloc_succeeds AllocSortedTasks = false \/
      malloc_succeeds AllocPlacements = false) /\
     Timeline.error_message tl = "Memory allocation failed"%string) \/
    (0 <= num_tasks <= MAX_TASKS /\
     input_tasks tasks num_tasks <> [] /\
     Timeline.error_message tl = NO_SOLUTION_MESSAGE))).
Proof.
  intros HL Htasks Hfixed Heq.
  destruct (malloc_succeeds AllocTimeline) eqn:Hm.
  2:{ rewrite optimize_schedule_no_timeline in Heq by assumption. discriminate. }
  destruct (decide (0 <= num_tasks <= MAX_TASKS)) as [Hn|Hn].
  - rewrite optimize_schedule_valid in Heq by assumption. cbv zeta in Heq.
    destruct (with_fixed_shape (input_fixed fixed_slots num_fixed))
      as (Hwf0 & Hn0 & Hs0 & Hm0).
    destruct (decide _) as [Hnil|Hne].
    { injection Heq as <-. left. cbn. auto. }
    destruct (_ && _) eqn:Ea.
    2:{ injection Heq as <-. right. split; [reflexivity|]. right. left.
        apply andb_false_iff in Ea. auto. }
    pose proof (initial_state_ok tasks num_tasks
                  (input_fixed fixed_slots num_fixed) HL ltac:(lia) Htasks Hne) as Hok.
    destruct (backtrack_spec _ _ _ Hok) as ([b st] & Hb & _ & _ & _ & Hfalse & Htrue).
    rewrite Hb in Heq. cbn [bind fst snd] in *. injection Heq as <-.
    destruct b.
    + left. split; [reflexivity|]. split; [|exact Hn].
      destruct (placed_shape _ _ _ _ _ (Htrue eq_refl)) as (_ & _ & He & _).
      cbn [State.timeline] in He. cbn. congruence.
    + right. split; [reflexivity|]. right. right. auto.
  - rewrite optimize_schedule_invalid_count in Heq by assumption.
    rewrite Hm in Heq. injection Heq as <-.
    right. split; [reflexivity|]. left. auto.
Qed.

End Returned_timeline.

(** ** The properties above on sample inputs *)

Lemma energy_map_daily_witness :
  get_energy_level (16 + 2 * SLOTS_PER_DAY) = get_energy_level 16 /\
  calculate_energy_score study_task (16 + 2 * SLOTS_PER_DAY) =
  calculate_energy_score study_task 16.
Proof. apply (energy_map_daily study_task 16 2); lia. Defined.

Lemma find_best_slot_first_candidate_witness :
  exists best, find_best_slot (timeline_init 7) study_task = Ret best /\
               0 <= best < MAX_SLOTS.
Proof.
  destruct (find_best_slot_first_candidate (timeline_init 7) study_task)
    as (candidates & best & Hc & Hb & Hhead & Hcases).
  { split; [vm_compute; congruence | vm_compute; reflexivity]. }
  exists best. split; [exact Hb|].
  destruct Hcases as [[_ Hnone]|[Hrange _]].
  - exfalso. apply (Hnone 0); [vm_compute; split; congruence|].
    apply fitsb_fits. vm_compute. reflexivity.
  - exact Hrange.
Defined.

Lemma place_then_remove_witness :
  exists tl1,
    place_task (timeline_init 7) study_task 16 = Ret tl1 /\
    wf_timeline tl1 /\
    remove_task tl1 study_task 16 = Ret (timeline_init 7).
Proof.
  apply (place_then_remove (timeline_init 7) study_task 16).
  - split; [vm_compute; congruence | vm_compute; reflexivity].
  - vm_compute. reflexivity.
Defined.

Lemma place_task_blocks_its_range_witness :
  exists tl1,
    place_task (timeline_init 7) study_task 16 = Ret tl1 /\
    can_place_task tl1 practice_task 17 = Ret false /\
    can_place_task tl1 practice_task 18 = can_place_task (timeline_init 7) practice_task 18.
Proof.
  eexists. split; [vm_compute; reflexivity|].
  pose proof (fun s =>
    place_task_blocks_its_range (timeline_init 7) _ study_task practice_task 16 s
      ltac:(split; [vm_compute; congruence | vm_compute; reflexivity])
      ltac:(vm_compute; reflexivity)
      ltac:(cbn; lia)
      ltac:(vm_compute; reflexivity)) as H.
  split.
  - apply (H 17). exists 17. cbn. lia.
  - apply (H 18). intros i. cbn. lia.
Defined.

Lemma optimize_schedule_sound_witness :
  schedulable (input_tasks (Some [study_task]) 1) (input_fixed (Some [class_slot]) 1)
    MAX_SLOTS.
Proof.
  eapply (optimize_schedule_sound (L := stable_libc)
            (Some [study_task]) 1 (Some [class_slot]) 1).
  - exact stable_libc_conforms.
  - cbn. intros task [<-|[]] _. cbn. lia.
  - vm_compute. reflexivity.
  - reflexivity.
Defined.

Lemma optimize_schedule_returns_witness :
  exists r,
    optimize_schedule (L := stable_libc) (Some [study_task]) 1 (Some [class_slot]) 1 =
      Ret r /\
    (r = None <-> malloc_succeeds (Libc := stable_libc) AllocTimeline = false).
Proof.
  apply (optimize_schedule_returns (L := stable_libc)
           (Some [study_task]) 1 (Some [class_slot]) 1).
  - exact stable_libc_conforms.
  - simpl. lia.
  - simpl. lia.
Defined.

Lemma optimize_schedule_slots_witness :
  exists tl,
    optimize_schedule (L := stable_libc) (Some [study_task]) 1 (Some [class_slot]) 1 =
      Ret (Some tl) /\
    Timeline.num_slots tl = MAX_SLOTS /\
    Z.of_nat (length (Timeline.slots tl)) = MAX_SLOTS.
Proof.
  eexists. split; [vm_compute; reflexivity|].
  destruct (optimize_schedule_slots (L := stable_libc)
              (Some [study_task]) 1 (Some [class_slot]) 1 _
              stable_libc_conforms ltac:(simpl; lia) ltac:(simpl; lia)
              ltac:(vm_compute; reflexivity)) as (Hn & Hl & _).
  split; [exact Hn | exact Hl].
Defined.

Lemma optimize_schedule_verdict_witness :
  exists tl,
    optimize_schedule (L := stable_libc) (Some [late_task]) 1 None 0 = Ret (Some tl) /\
    Timeline.success tl = false /\
    Timeline.error_message tl = NO_SOLUTION_MESSAGE.
Proof.
  eexists. split; [vm_compute; reflexivity|].
  destruct (optimize_schedule_verdict (L := stable_libc)
              (Some [late_task]) 1 None 0 _
              stable_libc_conforms ltac:(simpl; lia) ltac:(simpl; lia)
              ltac:(vm_compute; reflexivity))
    as [(Hs & _)|(Hs & [(Hn & _)|[(_ & _ & [Hm|Hm] & _)|(_ & _ & Hmsg)]])].
  - discriminate Hs.
  - exfalso. apply Hn. unfold MAX_TASKS. lia.
  - discriminate Hm.
  - discriminate Hm.
  - split; [exact Hs | exact Hmsg].
Defined.


(** ** Texts *)

Lemma string_length_append (a b : string) :
  String.length (String.append a b) = (String.length a + String.length b)%nat.
Proof. induction a as [|c a IH]; cbn; [reflexivity | rewrite IH; reflexivity]. Qed.

Lemma string_append_nil_r (a : string) : String.append a EmptyString = a.
Proof. induction a as [|c a IH]; cbn; [reflexivity | rewrite IH; reflexivity]. Qed.

Lemma prefix_append (a r : string) : String.prefix a (String.append a r) = true.
Proof.
  induction a as [|c a IH]; cbn; [destruct r; reflexivity|].
  destruct (ascii_dec c c); [exact IH | contradiction].
Qed.

Lemma prefix_inv (a p : string) :
  String.prefix a p = true -> exists r, p = String.append a r.
Proof.
  revert p. induction a as [|c a IH]; intros p H.
  - exists p. reflexivity.
  - destruct p as [|d p]; [discriminate|]. cbn in H.
    destruct (ascii_dec c d) as [->|]; [|discriminate].
    destruct (IH p H) as [r ->]. exists r. reflexivity.
Qed.

Lemma prefix_cons (c d : ascii) (a p : string) :
  String.prefix (String c a) (String d p) = Ascii.eqb c d && String.prefix a p.
Proof.
  cbn. destruct (ascii_dec c d) as [->|Hne].
  - rewrite Ascii.eqb_refl. reflexivity.
  - apply Ascii.eqb_neq in Hne. rewrite Hne. reflexivity.
Qed.

Lemma string_drop_append (a r : string) :
  string_drop (String.length a) (String.append a r) = r.
Proof.
  unfold string_drop. induction a as [|c a IH].
  - cbn. rewrite Nat.sub_0_r.
    induction r as [|c r IHr]; [reflexivity|]. cbn. rewrite IHr. reflexivity.
  - cbn [String.length String.append]. cbn [String.substring].
    rewrite Nat.sub_succ. exact IH.
Qed.

Lemma string_forall_append (f : ascii -> bool) (a b : string) :
  string_forall f (String.append a b) = string_forall f a && string_forall f b.
Proof.
  induction a as [|c a IH]; cbn; [reflexivity|]. rewrite IH, andb_assoc. reflexivity.
Qed.

Lemma string_forall_impl (f g : ascii -> bool) (s : string) :
  (forall c, f c = true -> g c = true) ->
  string_forall f s = true -> string_forall g s = true.
Proof.
  intros Hfg. induction s as [|c s IH]; cbn; [reflexivity|].
  rewrite !andb_true_iff. intros [Hc Hs]. auto.
Qed.

(** A character of one class differs from every character outside it. *)
Lemma class_char_neq (f : ascii -> bool) (c d : ascii) :
  f c = true -> f d = false -> Ascii.eqb c d = false.
Proof.
  intros Hc Hd. destruct (Ascii.eqb_spec c d) as [->|]; [congruence | reflexivity].
Qed.

Lemma numeral_char_not_space (c : ascii) : numeral_char c = true -> isspace c = false.
Proof.
  unfold numeral_char. rewrite orb_true_iff. intros [Hd|Hm].
  - unfold is_digit in Hd. unfold isspace. cbv zeta.
    apply andb_true_iff in Hd as [H1 H2]. apply Nat.leb_le in H1, H2.
    destruct (Nat.eqb_spec (nat_of_ascii c) 32); [lia|].
    destruct (Nat.leb_spec 9 (nat_of_ascii c)); [|reflexivity].
    destruct (Nat.leb_spec (nat_of_ascii c) 13); [lia | reflexivity].
  - apply Ascii.eqb_eq in Hm. subst c. reflexivity.
Qed.

Lemma uint_numeral (d : Decimal.uint) :
  numeral (NilEmpty.string_of_uint d) = true.
Proof. induction d; cbn; auto. Qed.

Lemma nilzero_numeral (d : Decimal.uint) :
  numeral (NilZero.string_of_uint d) = true.
Proof.
  destruct d; [reflexivity|..];
    match goal with
    | |- numeral (NilZero.string_of_uint ?d) = true => exact (uint_numeral d)
    end.
Qed.

Lemma int_to_string_numeral (v : Z) : numeral (int_to_string v) = true.
Proof.
  unfold int_to_string.
  destruct v as [|p|p]; cbn [Z.to_int NilZero.string_of_int];
    [reflexivity | apply nilzero_numeral |].
  change (numeral (NilZero.string_of_uint (Pos.to_uint p)) = true).
  apply nilzero_numeral.
Qed.

Lemma int_to_string_nonempty (v : Z) :
  exists c s, int_to_string v = String c s.
Proof.
  unfold int_to_string.
  destruct v as [|p|p]; cbn [Z.to_int NilZero.string_of_int]; [eauto| |eauto].
  pose proof (DecimalPos.Unsigned.to_uint_nonnil p) as Hn.
  destruct (Pos.to_uint p); try contradiction; cbn; eauto.
Qed.

Lemma numeral_no_quote (s : string) : numeral s = true -> no_quote s = true.
Proof.
  apply string_forall_impl. intros c Hc.
  rewrite (class_char_neq numeral_char c quote Hc eq_refl). reflexivity.
Qed.

Lemma numeral_no_brace (s : string) : numeral s = true -> no_brace s = true.
Proof.
  apply string_forall_impl. intros c Hc.
  rewrite (class_char_neq numeral_char c "{" Hc eq_refl).
  rewrite (class_char_neq numeral_char c "}" Hc eq_refl). reflexivity.
Qed.

Lemma ordinary_no_quote (s : string) : ordinary s = true -> no_quote s = true.
Proof.
  apply string_forall_impl. intros c Hc.
  rewrite (class_char_neq ordinary_char c quote Hc eq_refl). reflexivity.
Qed.

Lemma ordinary_no_brace (s : string) : ordinary s = true -> no_brace s = true.
Proof.
  apply string_forall_impl. intros c Hc.
  rewrite (class_char_neq ordinary_char c "{" Hc eq_refl).
  rewrite (class_char_neq ordinary_char c "}" Hc eq_refl). reflexivity.
Qed.

(** ** Searching for a key *)

Lemma strstr_step (c : ascii) (h needle : string) :
  String.prefix needle (String c h) = false ->
  strstr (String c h) needle = strstr h needle.
Proof. intros H. cbn [strstr]. rewrite H. reflexivity. Qed.

Lemma strstr_here (h needle : string) :
  String.prefix needle h = true -> strstr h needle = Some h.
Proof. intros H. destruct h; cbn [strstr]; rewrite H; reflexivity. Qed.

(** No occurrence of a needle that starts with a quote starts inside a
    text without quotes. *)
Lemma strstr_skip (s r needle : string) :
  no_quote s = true ->
  strstr (String.append s r) (String quote needle) = strstr r (String quote needle).
Proof.
  intros Hs. induction s as [|c s IH]; [reflexivity|].
  cbn [no_quote string_forall] in Hs. apply andb_true_iff in Hs as [Hc Hs].
  cbn [String.append]. rewrite strstr_step; [apply IH, Hs|].
  rewrite prefix_cons. apply negb_true_iff in Hc.
  rewrite Ascii.eqb_sym, Hc. reflexivity.
Qed.

(** A quoted text that is not the key is not taken for the key. *)
Lemma prefix_quoted (k v r : string) :
  no_quote k = true -> no_quote v = true -> v <> k ->
  String.prefix (String.append k (str1 quote)) (String.append v (String quote r)) = false.
Proof.
  unfold str1. revert v. induction k as [|a k IH]; intros v Hk Hv Hne.
  - destruct v as [|c v]; [contradiction|].
    cbn [no_quote string_forall] in Hv. apply andb_true_iff in Hv as [Hc _].
    apply negb_true_iff in Hc.
    cbn [String.append]. rewrite prefix_cons, Ascii.eqb_sym, Hc. reflexivity.
  - cbn [no_quote string_forall] in Hk. apply andb_true_iff in Hk as [Ha Hk].
    apply negb_true_iff in Ha.
    destruct v as [|c v].
    + cbn [String.append]. rewrite prefix_cons, Ha. reflexivity.
    + cbn [no_quote string_forall] in Hv. apply andb_true_iff in Hv as [Hc Hv].
      cbn [String.append]. rewrite prefix_cons.
      destruct (Ascii.eqb_spec a c) as [->|]; [|reflexivity].
      cbn [andb]. apply IH; [assumption | assumption | congruence].
Qed.

Lemma strstr_skip_quoted (k v r needle : string) :
  needle = String quote (String.append k (str1 quote)) ->
  no_quote k = true -> no_quote v = true -> v <> k ->
  String.prefix needle (String quote r) = false ->
  strstr (String quote (String.append v (String quote r))) needle = strstr r needle.
Proof.
  intros -> Hk Hv Hne Hr.
  rewrite strstr_step.
  2:{ rewrite prefix_cons, Ascii.eqb_refl. cbn [andb]. apply prefix_quoted; assumption. }
  rewrite strstr_skip by assumption.
  apply strstr_step. exact Hr.
Qed.

Lemma substring_short (s : string) (m : nat) :
  (String.length s <= m)%nat -> String.substring 0 m s = s.
Proof.
  revert m. induction s as [|c s IH]; intros m Hm.
  - destruct m; reflexivity.
  - destruct m as [|m]; cbn [String.length] in Hm; [lia|].
    cbn [String.substring]. rewrite IH by lia. reflexivity.
Qed.

(** The needle of a key that fits is the key between quotes. *)
Lemma snprintf_search_fits (key : string) :
  key_fits key = true ->
  snprintf_search key = String quote (String.append key (str1 quote)).
Proof.
  intros Hk. apply Nat.leb_le in Hk. unfold snprintf_search.
  apply substring_short. cbn [String.length].
  rewrite string_length_append. unfold SEARCH_SIZE. cbn. lia.
Qed.

Lemma find_key_found (p key rest : string) :
  strstr p (String quote (String.append key (str1 quote))) =
    Some (quoted key rest) ->
  key_fits key = true ->
  find_key p key = Some (after_colon rest).
Proof.
  intros H Hk. unfold find_key. cbv zeta. rewrite (snprintf_search_fits key Hk), H.
  set (search := String quote (String.append key (str1 quote))).
  assert (Hq : quoted key rest = String.append search rest).
  { unfold quoted, search, str1. cbn [String.append]. f_equal.
    rewrite string_append_assoc. reflexivity. }
  rewrite Hq.
  pose proof (string_drop_append search rest) as Hd. unfold string_drop in Hd.
  rewrite Hd. reflexivity.
Qed.

Lemma find_key_missing (p key : string) :
  strstr p (String quote (String.append key (str1 quote))) = None ->
  key_fits key = true ->
  find_key p key = None.
Proof.
  intros H Hk. unfold find_key. cbv zeta. rewrite (snprintf_search_fits key Hk), H.
  reflexivity.
Qed.

Lemma skip_whitespace_numeral (s r : string) (c : ascii) :
  numeral (String c s) = true ->
  skip_whitespace (String c (String.append s r)) = String c (String.append s r).
Proof.
  cbn [numeral string_forall]. rewrite andb_true_iff. intros [Hc _].
  cbn [skip_whitespace]. rewrite (numeral_char_not_space c Hc). reflexivity.
Qed.

Lemma skip_whitespace_int (v : Z) (r : string) :
  skip_whitespace (String.append (int_to_string v) r) =
  String.append (int_to_string v) r.
Proof.
  destruct (int_to_string_nonempty v) as (c & s & E).
  pose proof (int_to_string_numeral v) as Hn. rewrite E in *.
  cbn [String.append]. apply skip_whitespace_numeral. exact Hn.
Qed.

Lemma wrap_int_eq (a b : Z) :
  a mod 4294967296 = b mod 4294967296 -> wrap_int a = wrap_int b.
Proof.
  intros H. unfold wrap_int, INT_MIN.
  rewrite <- (Zminus_mod_idemp_l a), <- (Zminus_mod_idemp_l b), H. reflexivity.
Qed.

Lemma wrap_int_mod (a : Z) : wrap_int a mod 4294967296 = a mod 4294967296.
Proof.
  unfold wrap_int, INT_MIN.
  rewrite Zplus_mod_idemp_l. f_equal. lia.
Qed.

(** A wrapped value stands for the exact one in a further sum or
    product that is wrapped. *)
Lemma wrap_int_step (a k d : Z) :
  wrap_int (wrap_int a * k + d) = wrap_int (a * k + d).
Proof.
  apply wrap_int_eq.
  rewrite <- Zplus_mod_idemp_l, <- Zmult_mod_idemp_l, wrap_int_mod.
  rewrite Zmult_mod_idemp_l, Zplus_mod_idemp_l. reflexivity.
Qed.

Lemma wrap_int_mul (a k : Z) : wrap_int (wrap_int a * k) = wrap_int (a * k).
Proof.
  rewrite <- (Z.add_0_r (wrap_int a * k)), wrap_int_step, Z.add_0_r. reflexivity.
Qed.

Lemma parse_int_loop_uint (d : Decimal.uint) (rest : string) (acc : Z) :
  starts_with_digit rest = false ->
  parse_int_loop (String.append (NilEmpty.string_of_uint d) rest) (wrap_int acc) =
  (wrap_int (uint_value d acc), rest).
Proof.
  intros Hrest. revert acc.
  induction d as [|d IH|d IH|d IH|d IH|d IH|d IH|d IH|d IH|d IH|d IH]; intros acc;
    try (cbn [NilEmpty.string_of_uint String.append parse_int_loop uint_value];
         match goal with
         | |- context [is_digit ?c] => change (is_digit c) with true
         end; cbv iota; rewrite wrap_int_step; rewrite <- IH; reflexivity).
  cbn [NilEmpty.string_of_uint String.append uint_value].
  destruct rest as [|c rest]; [reflexivity|].
  cbn [starts_with_digit] in Hrest. cbn [parse_int_loop]. rewrite Hrest. reflexivity.
Qed.

Lemma uint_value_pos (d : Decimal.uint) (acc : positive) :
  uint_value d (Z.pos acc) = Z.pos (Pos.of_uint_acc d acc).
Proof.
  revert acc.
  induction d as [|d IH|d IH|d IH|d IH|d IH|d IH|d IH|d IH|d IH|d IH]; intros acc;
    cbn [uint_value Pos.of_uint_acc]; [reflexivity|..];
    rewrite <- IH; f_equal; lia.
Qed.

Lemma uint_value_0 (d : Decimal.uint) :
  uint_value d 0 = Z.of_N (Pos.of_uint d).
Proof.
  induction d as [|d IH|d IH|d IH|d IH|d IH|d IH|d IH|d IH|d IH|d IH];
    cbn [uint_value Pos.of_uint]; [reflexivity | exact IH |..];
    cbn [Z.mul Z.add Z.of_N]; apply uint_value_pos.
Qed.

Lemma uint_value_to_uint (p : positive) :
  uint_value (Pos.to_uint p) 0 = Z.pos p.
Proof. rewrite uint_value_0, DecimalPos.Unsigned.of_to. reflexivity. Qed.

Lemma string_of_uint_nonnil (d : Decimal.uint) :
  d <> Decimal.Nil ->
  NilZero.string_of_uint d = NilEmpty.string_of_uint d /\
  exists c s, NilEmpty.string_of_uint d = String c s /\ is_digit c = true.
Proof.
  intros Hd. destruct d; try contradiction;
    (split; [reflexivity|]); eexists; eexists; split; reflexivity.
Qed.

Lemma is_digit_not_space (c : ascii) : is_digit c = true -> isspace c = false.
Proof.
  unfold is_digit, isspace. cbv zeta.
  rewrite andb_true_iff, !Nat.leb_le. intros [H1 H2].
  destruct (Nat.eqb_spec (nat_of_ascii c) 32); [lia|].
  destruct (Nat.leb_spec 9 (nat_of_ascii c)); [|reflexivity].
  destruct (Nat.leb_spec (nat_of_ascii c) 13); [lia | reflexivity].
Qed.

Lemma is_digit_not_minus (c : ascii) : is_digit c = true -> Ascii.eqb c "-" = false.
Proof.
  intros H. destruct (Ascii.eqb_spec c "-") as [->|]; [discriminate | reflexivity].
Qed.

Lemma parse_int_digits (d : Decimal.uint) (rest : string) :
  d <> Decimal.Nil -> starts_with_digit rest = false ->
  parse_int (String.append (NilEmpty.string_of_uint d) rest) =
  (wrap_int (uint_value d 0), rest).
Proof.
  intros Hd Hrest.
  destruct (string_of_uint_nonnil d Hd) as (_ & c & s & Hs & Hc).
  unfold parse_int. cbv zeta.
  assert (Hskip : skip_whitespace (String.append (NilEmpty.string_of_uint d) rest) =
                  String.append (NilEmpty.string_of_uint d) rest).
  { rewrite Hs. cbn [String.append skip_whitespace].
    rewrite (is_digit_not_space c Hc). reflexivity. }
  rewrite Hskip.
  assert (Hsign : match String.append (NilEmpty.string_of_uint d) rest with
                  | String c p' => if Ascii.eqb c "-" then (-1, p')
                                   else (1, String.append (NilEmpty.string_of_uint d) rest)
                  | EmptyString => (1, String.append (NilEmpty.string_of_uint d) rest)
                  end = (1, String.append (NilEmpty.string_of_uint d) rest)).
  { rewrite Hs at 1. cbn [String.append]. rewrite (is_digit_not_minus c Hc). reflexivity. }
  rewrite Hsign. cbn [fst snd].
  rewrite (parse_int_loop_uint d rest 0 Hrest : parse_int_loop _ 0 = _).
  cbn [fst snd]. rewrite wrap_int_mul, Z.mul_1_r. reflexivity.
Qed.

(** The text of any integer is read as the integer wrapped around. *)
Lemma parse_int_wraps (value : Z) (rest : string) :
  starts_with_digit rest = false ->
  parse_int (String.append (int_to_string value) rest) = (wrap_int value, rest).
Proof.
  intros Hrest. unfold int_to_string.
  destruct value as [|p|p]; cbn [Z.to_int NilZero.string_of_int].
  - apply (parse_int_digits (Decimal.D0 Decimal.Nil)); [discriminate | assumption].
  - destruct (string_of_uint_nonnil (Pos.to_uint p)) as (-> & _).
    { apply DecimalPos.Unsigned.to_uint_nonnil. }
    rewrite parse_int_digits by (try assumption; apply DecimalPos.Unsigned.to_uint_nonnil).
    rewrite uint_value_to_uint. reflexivity.
  - destruct (string_of_uint_nonnil (Pos.to_uint p)) as (-> & _).
    { apply DecimalPos.Unsigned.to_uint_nonnil. }
    unfold parse_int. cbv zeta. cbn [String.append skip_whitespace].
    change (isspace "-") with false. cbv iota.
    change (Ascii.eqb "-" "-") with true. cbv iota. cbn [fst snd].
    rewrite (parse_int_loop_uint (Pos.to_uint p) rest 0 Hrest : parse_int_loop _ 0 = _).
    cbn [fst snd]. rewrite uint_value_to_uint, wrap_int_mul.
    replace (Z.pos p * -1) with (Z.neg p) by lia. reflexivity.
Qed.


Lemma escaped_len_loop_acc (str : string) (n : Z) :
  escaped_len_loop str n = n + Z.of_nat (String.length (json_escape_body str)).
Proof.
  revert n. induction str as [|c str IH]; intros n.
  - cbn. lia.
  - cbn [escaped_len_loop json_escape_body]. rewrite IH, string_length_append.
    assert (Hc : escaped_len_char c = Z.of_nat (String.length (json_escape_char c))).
    { unfold escaped_len_char, json_escape_char.
      destruct (Ascii.eqb c quote); [reflexivity|].
      destruct (Ascii.eqb c backslash); [reflexivity|].
      destruct (Ascii.eqb c char_b); [reflexivity|].
      destruct (Ascii.eqb c char_f); [reflexivity|].
      destruct (Ascii.eqb c char_n); [reflexivity|].
      destruct (Ascii.eqb c char_r); [reflexivity|].
      destruct (Ascii.eqb c char_t); [reflexivity|].
      cbn [orb]. destruct (_ <? _)%nat; reflexivity. }
    lia.
Qed.

(** X14.  The string [json_escape_string] returns has exactly the length
    its first loop computed: with its terminator it fills the
    [escaped_len + 1] bytes that were allocated, and nothing is written
    behind them. *)
Theorem json_escape_string_fills_allocation {L : Libc} (str escaped : string) :
  json_escape_string (Some str) = Some escaped ->
  Z.of_nat (String.length escaped) = escaped_len str.
Proof.
  unfold json_escape_string. destruct (malloc_succeeds AllocEscaped); [|discriminate].
  intros [= <-]. unfold escaped_len. rewrite escaped_len_loop_acc.
  cbn [String.length]. rewrite string_length_append. cbn. lia.
Qed.

(** X16.  [parse_bool] returns a value exactly when the text, after its
    leading white space, starts with [true] or with [false]; the pointer
    it returns stands right behind the literal, whatever follows. *)
Theorem parse_bool_spec (p : string) (value : bool) (rest : string) :
  parse_bool p = Some (value, rest) <->
  skip_whitespace p = String.append (bool_to_json value) rest.
Proof.
  unfold parse_bool. cbv zeta. generalize (skip_whitespace p). clear p. intros p.
  split.
  - destruct (String.prefix "true" p) eqn:Et.
    { apply prefix_inv in Et as [r ->]. intros [= <- <-].
      pose proof (string_drop_append "true" r) as Hd.
      cbn [String.length String.append] in Hd. rewrite Hd. reflexivity. }
    destruct (String.prefix "false" p) eqn:Ef; [|discriminate].
    apply prefix_inv in Ef as [r ->]. intros [= <- <-].
    pose proof (string_drop_append "false" r) as Hd.
    cbn [String.length String.append] in Hd. cbn [String.append]. rewrite Hd. reflexivity.
  - intros ->. destruct value; cbn [bool_to_json].
    + rewrite prefix_append.
      pose proof (string_drop_append "true" rest) as Hd.
      cbn [String.length String.append] in Hd. cbn [String.append]. rewrite Hd. reflexivity.
    + change (String.prefix "true" (String.append "false" rest)) with false.
      cbv iota. rewrite prefix_append.
      pose proof (string_drop_append "false" rest) as Hd.
      cbn [String.length String.append] in Hd. cbn [String.append]. rewrite Hd. reflexivity.
Qed.

Lemma parse_string_loop_length (p : string) (room : nat) (dest rest : string) :
  parse_string_loop p room = Ret (dest, rest) ->
  (String.length dest <= room)%nat.
Proof.
  revert p dest rest. induction room as [|room IH]; intros p dest rest H.
  - destruct p as [|c p]; [injection H as <- _; cbn; lia|].
    cbn in H. destruct (Ascii.eqb c quote); injection H as <- _; cbn; lia.
  - destruct p as [|c p]; [injection H as <- _; cbn; lia|].
    cbn [parse_string_loop] in H.
    destruct (Ascii.eqb c quote); [injection H as <- _; cbn; lia|].
    destruct (Ascii.eqb c backslash).
    + destruct p as [|e p]; [discriminate|].
      apply bind_Ret_inv in H as ([d r] & Hr & H). injection H as <- _.
      apply IH in Hr. cbn. lia.
    + apply bind_Ret_inv in H as ([d r] & Hr & H). injection H as <- _.
      apply IH in Hr. cbn. lia.
Qed.

(** X17.  With a destination of at least one byte, [parse_string] returns
    the null pointer exactly when the first character behind the white
    space is not a quote, and what it stores fits the destination together
    with its terminator. *)
Theorem parse_string_fits_destination (p : string) (max_len : Z) :
  1 <= max_len ->
  (parse_string p max_len = Ret None <-> starts_with quote (skip_whitespace p) = false) /\
  forall dest rest,
    parse_string p max_len = Ret (Some (dest, rest)) ->
    Z.of_nat (String.length dest) + 1 <= max_len.
Proof.
  intros Hmax. unfold parse_string.
  destruct (skip_whitespace p) as [|c p']; cbn [starts_with].
  - split; [tauto | discriminate].
  - destruct (Ascii.eqb c quote).
    + split.
      * split; [|discriminate].
        destruct (parse_string_loop _ _); discriminate.
      * intros dest rest H. apply bind_Ret_inv in H as ([d r] & Hr & H).
        injection H as <- _. apply parse_string_loop_length in Hr. cbn [fst]. lia.
    + split; [tauto | discriminate].
Qed.

(** ** The growing buffer *)

Lemma substring_whole (s : string) : String.substring 0 (String.length s) s = s.
Proof. induction s as [|c s IH]; [reflexivity|]. cbn. rewrite IH. reflexivity. Qed.

Lemma strcpy_at_end (data str : string) :
  strcpy_at data (Z.of_nat (String.length data)) str = String.append data str.
Proof.
  unfold strcpy_at. rewrite Nat2Z.id, Nat.leb_refl, substring_whole. reflexivity.
Qed.

(** The doubling loop ends, at a capacity that is large enough. *)
Lemma grow_enough (fuel : nat) (new_capacity required : Z) :
  0 < new_capacity -> required - new_capacity <= Z.of_nat fuel ->
  exists c, StringBuffer.grow fuel new_capacity required = Some c /\
            required <= c /\ new_capacity <= c.
Proof.
  revert new_capacity. induction fuel as [|fuel IH]; intros c Hc Hfuel.
  - cbn [StringBuffer.grow].
    replace (c <? required) with false by (symmetry; apply Z.ltb_ge; lia).
    exists c. split; [reflexivity | lia].
  - cbn [StringBuffer.grow]. destruct (Z.ltb_spec c required) as [Hlt|Hge].
    + destruct (IH (c * BUFFER_GROW_FACTOR)) as (c' & Hg & H1 & H2);
        [unfold BUFFER_GROW_FACTOR; lia | unfold BUFFER_GROW_FACTOR; lia |].
      exists c'. split; [exact Hg|]. unfold BUFFER_GROW_FACTOR in H2. lia.
    + exists c. split; [reflexivity | lia].
Qed.

Section Buffer.
Context {IO : IoLibc}.

(** What a call of [buffer_append] leaves, whether or not the caller
    looks at the code: the text is appended as a whole or not at all,
    and it is appended when [realloc] succeeds or is not needed. *)
Lemma append_spec (buf : StringBuffer) (str : string) :
  buffer_valid buf ->
  exists buf' kept,
    append buf str = Ret buf' /\
    buffer_valid buf' /\
    StringBuffer.data buf' = String.append (StringBuffer.data buf) kept /\
    StringBuffer.capacity buf <= StringBuffer.capacity buf' /\
    (kept = str \/ kept = EmptyString) /\
    (io_malloc_succeeds AllocGrow = true \/
     StringBuffer.size buf + Z.of_nat (String.length str) + 1 <=
       StringBuffer.capacity buf -> kept = str) /\
    (io_malloc_succeeds AllocGrow = false ->
     StringBuffer.capacity buf' = StringBuffer.capacity buf).
Proof.
  intros [Hsize Hcap]. unfold append, StringBuffer.buffer_append. cbv zeta.
  set (len := Z.of_nat (String.length str)).
  assert (Hdata : strcpy_at (StringBuffer.data buf) (StringBuffer.size buf) str =
                  String.append (StringBuffer.data buf) str).
  { rewrite Hsize. apply strcpy_at_end. }
  rewrite Hdata.
  assert (Hlen : Z.of_nat (String.length (String.append (StringBuffer.data buf) str)) =
                 StringBuffer.size buf + len).
  { rewrite string_length_append. subst len. lia. }
  destruct (Z.gtb_spec (StringBuffer.size buf + len + 1) (StringBuffer.capacity buf))
    as [Hgt|Hle].
  - destruct (grow_enough (Z.to_nat (StringBuffer.size buf + len + 1))
                (StringBuffer.capacity buf * BUFFER_GROW_FACTOR)
                (StringBuffer.size buf + len + 1)) as (c & Hg & H1 & H2).
    { unfold BUFFER_GROW_FACTOR. lia. }
    { unfold BUFFER_GROW_FACTOR. lia. }
    rewrite Hg. destruct (io_malloc_succeeds AllocGrow) eqn:Hio.
    + eexists. exists str. cbn [bind snd]. split; [reflexivity|].
      unfold buffer_valid. cbn [StringBuffer.data StringBuffer.size StringBuffer.capacity].
      unfold BUFFER_GROW_FACTOR in H2.
      repeat split; try reflexivity; auto; try lia; try discriminate.
    + exists buf, EmptyString. cbn [bind snd]. split; [reflexivity|].
      rewrite string_append_nil_r.
      repeat split; try reflexivity; auto; try lia;
        try (intros [H|H]; [discriminate | lia]).
  - eexists. exists str. cbn [bind snd]. split; [reflexivity|].
    unfold buffer_valid. cbn [StringBuffer.data StringBuffer.size StringBuffer.capacity].
    repeat split; try reflexivity; auto; lia.
Qed.

Lemma append_int_append (buf : StringBuffer) (value : Z) :
  append_int buf value = append buf (int_to_string value).
Proof. reflexivity. Qed.

(** The same of a run of calls. *)
Lemma appends_spec (pieces : list string) (buf : StringBuffer) :
  buffer_valid buf ->
  exists buf' kept,
    buffer_valid buf' /\
    StringBuffer.data buf' = String.append (StringBuffer.data buf) kept /\
    StringBuffer.capacity buf <= StringBuffer.capacity buf' /\
    (io_malloc_succeeds AllocGrow = true \/
     StringBuffer.size buf + Z.of_nat (String.length (pieces_text pieces)) + 1 <=
       StringBuffer.capacity buf -> kept = pieces_text pieces) /\
    (io_malloc_succeeds AllocGrow = false ->
     StringBuffer.capacity buf' = StringBuffer.capacity buf) /\
    forall (B : Type) (k : StringBuffer -> outcome B), appends pieces k buf = k buf'.
Proof.
  revert buf. induction pieces as [|str pieces IH]; intros buf Hv.
  - exists buf, EmptyString. rewrite string_append_nil_r.
    split; [exact Hv|]. repeat split; auto; try lia; intros; reflexivity.
  - destruct (append_spec buf str Hv) as (b1 & k1 & Ha & Hv1 & Hd1 & Hc1 & _ & Hk1 & Hf1).
    destruct (IH b1 Hv1) as (b2 & k2 & Hv2 & Hd2 & Hc2 & Hk2 & Hf2 & Hrun).
    exists b2, (String.append k1 k2).
    split; [exact Hv2|]. split; [rewrite Hd2, Hd1, string_append_assoc; reflexivity|].
    split; [lia|]. split; [|split].
    + intros Hfit. cbn [pieces_text fold_right] in *. fold (pieces_text pieces) in *.
      rewrite string_length_append in Hfit.
      assert (E1 : k1 = str).
      { apply Hk1. destruct Hfit as [H|H]; [left; exact H | right; lia]. }
      subst k1. f_equal. apply Hk2.
      destruct Hfit as [H|H]; [left; exact H | right].
      destruct Hv1 as [Hs1 _]. destruct Hv as [Hs _].
      rewrite Hs1, Hd1, string_length_append. lia.
    + intros Hio. rewrite Hf2, Hf1 by assumption. reflexivity.
    + intros B k. cbn [appends]. rewrite Ha. cbn [bind]. apply Hrun.
Qed.

Lemma appends_app {B : Type} (l1 l2 : list string) (k : StringBuffer -> outcome B)
    (buf : StringBuffer) :
  appends (l1 ++ l2) k buf = appends l1 (appends l2 k) buf.
Proof.
  revert buf. induction l1 as [|s l1 IH]; intros buf; [reflexivity|].
  cbn [app appends]. destruct (append buf s) as [b|]; [|reflexivity].
  cbn [bind]. apply IH.
Qed.

Lemma pieces_text_app (l1 l2 : list string) :
  pieces_text (l1 ++ l2) = String.append (pieces_text l1) (pieces_text l2).
Proof.
  induction l1 as [|s l1 IH]; [reflexivity|].
  cbn [app pieces_text fold_right]. fold (pieces_text (l1 ++ l2)). fold (pieces_text l1).
  rewrite IH, string_append_assoc. reflexivity.
Qed.

End Buffer.

(** ** The document of a timeline *)

Lemma slot_text_append (a b c : string) (f k : bool) (x y : string) :
  String.append (slot_text a b c f k x) y = slot_text a b c f k (String.append x y).
Proof. unfold slot_text. rewrite !string_append_assoc. reflexivity. Qed.

Lemma slot_pieces_text (slot : TimeSlot) (comma : bool) :
  pieces_text (slot_pieces slot comma) =
  slot_text (int_to_string (TimeSlot.slot_index slot))
    (int_to_string (TimeSlot.task_id slot))
    (int_to_string (TimeSlot.energy_level slot))
    (TimeSlot.is_fixed slot) comma EmptyString.
Proof.
  unfold slot_pieces, slot_text, pieces_text.
  destruct comma; cbn [app fold_right]; rewrite ?string_append_nil_r; reflexivity.
Qed.

Lemma slots_text_returns (tl : Timeline) (n : nat) (i : Z) :
  0 <= i -> i + Z.of_nat n <= Z.of_nat (length (Timeline.slots tl)) ->
  exists body, slots_text tl n i = Ret body.
Proof.
  revert i. induction n as [|n IH]; intros i Hi Hn.
  - eexists. reflexivity.
  - cbn [slots_text].
    destruct (lookup_lt_is_Some_2 (Timeline.slots tl) (Z.to_nat i)) as [s Hs]; [lia|].
    rewrite (proj2 (array_get_Ret _ _ s)) by (split; [lia | exact Hs]).
    cbn [bind]. destruct (IH (i + 1)) as [body ->]; [lia | lia |].
    eexists. reflexivity.
Qed.

Section Document.
Context {L : Libc} {IO : IoLibc}.

Lemma slots_to_json_step (tl : Timeline) (n : nat) (i : Z) (buf : StringBuffer) :
  slots_to_json tl (S n) i buf =
  (slot <- array_get (Timeline.slots tl) i ;;
   appends (slot_pieces slot (i <? Timeline.num_slots tl - 1))
     (slots_to_json tl n (i + 1)) buf).
Proof.
  cbn [slots_to_json].
  destruct (array_get (Timeline.slots tl) i) as [slot|]; [|reflexivity].
  cbn [bind]. unfold slot_pieces.
  destruct (i <? Timeline.num_slots tl - 1); reflexivity.
Qed.

(** The loop over the slots returns on every buffer; what it appends is
    the text of the slots when [realloc] does not fail. *)
Lemma slots_to_json_spec (tl : Timeline) (n : nat) (i : Z) (buf : StringBuffer) :
  buffer_valid buf ->
  0 <= i -> i + Z.of_nat n <= Z.of_nat (length (Timeline.slots tl)) ->
  exists buf' kept,
    slots_to_json tl n i buf = Ret buf' /\
    buffer_valid buf' /\
    StringBuffer.data buf' = String.append (StringBuffer.data buf) kept /\
    StringBuffer.capacity buf <= StringBuffer.capacity buf' /\
    (io_malloc_succeeds AllocGrow = true -> slots_text tl n i = Ret kept) /\
    (io_malloc_succeeds AllocGrow = false ->
     StringBuffer.capacity buf' = StringBuffer.capacity buf).
Proof.
  revert i buf. induction n as [|n IH]; intros i buf Hv Hi Hn.
  - exists buf, EmptyString. rewrite string_append_nil_r.
    split; [reflexivity|]. split; [exact Hv|]. repeat split; auto; lia.
  - rewrite slots_to_json_step. cbn [slots_text].
    destruct (lookup_lt_is_Some_2 (Timeline.slots tl) (Z.to_nat i)) as [s Hs]; [lia|].
    rewrite (proj2 (array_get_Ret _ _ s)) by (split; [lia | exact Hs]).
    cbn [bind].
    destruct (appends_spec (slot_pieces s (i <? Timeline.num_slots tl - 1)) buf Hv)
      as (b1 & k1 & Hv1 & Hd1 & Hc1 & Hk1 & Hf1 & Hrun).
    rewrite Hrun.
    destruct (IH (i + 1) b1 Hv1) as (b2 & k2 & Hr & Hv2 & Hd2 & Hc2 & Hk2 & Hf2);
      [lia | lia |].
    exists b2, (String.append k1 k2).
    split; [exact Hr|]. split; [exact Hv2|].
    split; [rewrite Hd2, Hd1, string_append_assoc; reflexivity|].
    split; [lia|]. split.
    + intros Hio. rewrite (Hk2 Hio). cbn [bind]. rewrite (Hk1 (or_introl Hio)).
      rewrite slot_pieces_text, slot_text_append. reflexivity.
    + intros Hio. rewrite Hf2, Hf1 by assumption. reflexivity.
Qed.

Lemma timeline_to_json_appends (tl : Timeline) :
  malloc_succeeds AllocBuffer = true ->
  timeline_to_json (Some tl) =
  appends (head_pieces tl)
    (fun buf =>
       buf <- slots_to_json tl (Z.to_nat (Timeline.num_slots tl)) 0 buf ;;
       appends tail_pieces (fun buf => Ret (Some (StringBuffer.data buf))) buf)
    (StringBuffer.mk EmptyString 0 INITIAL_BUFFER_SIZE).
Proof.
  intros Hm. unfold timeline_to_json, StringBuffer.buffer_create. rewrite Hm.
  unfold head_pieces, tail_pieces, escaped_message.
  cbn [appends].
  destruct (json_escape_string (Some (Timeline.error_message tl))); reflexivity.
Qed.

Lemma buffer_create_valid :
  buffer_valid (StringBuffer.mk EmptyString 0 INITIAL_BUFFER_SIZE).
Proof. split; [reflexivity | unfold INITIAL_BUFFER_SIZE; cbn; lia]. Qed.

Lemma head_pieces_text (tl : Timeline) (rest : string) :
  String.append (pieces_text (head_pieces tl)) rest =
  document_head (escaped_message tl) tl rest.
Proof.
  unfold head_pieces, pieces_text, document_head. cbn [fold_right].
  rewrite !string_append_assoc. reflexivity.
Qed.

(** [timeline_to_json] returns a document whenever the buffer could be
    created, and it begins with the first [k] texts of the head when they
    fit the buffer as it is created. *)
Lemma timeline_to_json_prefix (tl : Timeline) (k : nat) :
  malloc_succeeds AllocBuffer = true ->
  Timeline.num_slots tl <= Z.of_nat (length (Timeline.slots tl)) ->
  Z.of_nat (String.length (pieces_text (firstn k (head_pieces tl)))) + 1 <=
    INITIAL_BUFFER_SIZE ->
  exists more,
    timeline_to_json (Some tl) =
    Ret (Some (String.append (pieces_text (firstn k (head_pieces tl))) more)) /\
    (io_malloc_succeeds AllocGrow = false ->
     Z.of_nat (String.length
                 (String.append (pieces_text (firstn k (head_pieces tl))) more)) <
     INITIAL_BUFFER_SIZE).
Proof.
  intros Hm Hlen Hfit. rewrite timeline_to_json_appends by assumption.
  pose proof (fun B k' buf => appends_app (B := B) (firstn k (head_pieces tl))
                (skipn k (head_pieces tl)) k' buf) as Happ.
  rewrite firstn_skipn in Happ. rewrite Happ. clear Happ.
  destruct (appends_spec (firstn k (head_pieces tl)) _ buffer_create_valid)
    as (b1 & k1 & Hv1 & Hd1 & Hc1 & Hk1 & Hf1 & Hrun1).
  rewrite Hrun1. cbn [StringBuffer.data String.append StringBuffer.size
                      StringBuffer.capacity] in *.
  rewrite (Hk1 (or_intror Hfit)) in Hd1.
  destruct (appends_spec (skipn k (head_pieces tl)) b1 Hv1)
    as (b2 & k2 & Hv2 & Hd2 & Hc2 & _ & Hf2 & Hrun2).
  rewrite Hrun2.
  destruct (slots_to_json_spec tl (Z.to_nat (Timeline.num_slots tl)) 0 b2 Hv2)
    as (b3 & k3 & Hr3 & Hv3 & Hd3 & Hc3 & _ & Hf3); [lia | lia |].
  rewrite Hr3. cbn [bind].
  destruct (appends_spec tail_pieces b3 Hv3)
    as (b4 & k4 & Hv4 & Hd4 & Hc4 & _ & Hf4 & Hrun4).
  rewrite Hrun4.
  exists (String.append k2 (String.append k3 k4)).
  assert (Hdata : StringBuffer.data b4 =
                  String.append (pieces_text (firstn k (head_pieces tl)))
                    (String.append k2 (String.append k3 k4))).
  { rewrite Hd4, Hd3, Hd2, Hd1, !string_append_assoc. reflexivity. }
  split; [rewrite Hdata; reflexivity|].
  intros Hio. rewrite <- Hdata.
  destruct Hv4 as [Hs4 Hlt4]. rewrite <- Hs4.
  rewrite (Hf4 Hio), (Hf3 Hio), (Hf2 Hio), (Hf1 Hio) in Hlt4. exact Hlt4.
Qed.

(** When [realloc] does not fail, the document is the whole text. *)
Lemma timeline_to_json_document (tl : Timeline) :
  malloc_succeeds AllocBuffer = true ->
  io_malloc_succeeds AllocGrow = true ->
  0 <= Timeline.num_slots tl <= Z.of_nat (length (Timeline.slots tl)) ->
  exists body,
    slots_text tl (Z.to_nat (Timeline.num_slots tl)) 0 = Ret body /\
    timeline_to_json (Some tl) =
    Ret (Some (document_head (escaped_message tl) tl
                 (String.append body
                    (String.append (String.append "  ]" newline)
                       (String.append "}" newline))))).
Proof.
  intros Hm Hio Hlen. rewrite timeline_to_json_appends by assumption.
  destruct (appends_spec (head_pieces tl) _ buffer_create_valid)
    as (b1 & k1 & Hv1 & Hd1 & _ & Hk1 & _ & Hrun1).
  rewrite Hrun1. cbn [StringBuffer.data String.append] in Hd1.
  rewrite (Hk1 (or_introl Hio)) in Hd1.
  destruct (slots_to_json_spec tl (Z.to_nat (Timeline.num_slots tl)) 0 b1 Hv1)
    as (b2 & k2 & Hr2 & Hv2 & Hd2 & _ & Hk2 & _); [lia | lia |].
  rewrite Hr2. cbn [bind].
  destruct (appends_spec tail_pieces b2 Hv2)
    as (b3 & k3 & Hv3 & Hd3 & _ & Hk3 & _ & Hrun3).
  rewrite Hrun3. exists k2. split; [apply Hk2, Hio|].
  rewrite Hd3, Hd2, Hd1, (Hk3 (or_introl Hio)), !string_append_assoc.
  rewrite head_pieces_text. unfold tail_pieces, pieces_text. cbn [fold_right].
  rewrite string_append_nil_r. reflexivity.
Qed.

End Document.

(** ** Reading a document back *)

Lemma parse_bool_reads (value : bool) (rest : string) :
  parse_bool (String.append (bool_to_json value) rest) = Some (value, rest).
Proof.
  unfold parse_bool. cbv zeta.
  assert (Hs : skip_whitespace (String.append (bool_to_json value) rest) =
               String.append (bool_to_json value) rest) by (destruct value; reflexivity).
  rewrite Hs. destruct value; cbn [bool_to_json].
  - rewrite prefix_append.
    pose proof (string_drop_append "true" rest) as Hd.
    cbn [String.length] in Hd. rewrite Hd. reflexivity.
  - change (String.prefix "true" (String.append "false" rest)) with false.
    cbv iota. rewrite prefix_append.
    pose proof (string_drop_append "false" rest) as Hd.
    cbn [String.length] in Hd. rewrite Hd. reflexivity.
Qed.

(** Steps [strstr] over the characters in front of the key. *)
Ltac strstr_steps := repeat (rewrite strstr_step by reflexivity).

Lemma json_escape_char_length (c : ascii) :
  (String.length (json_escape_char c) <= 6)%nat.
Proof.
  unfold json_escape_char.
  repeat (match goal with
          | |- context [if ?b then _ else _] => destruct b
          end); cbn; lia.
Qed.

Lemma json_escape_body_length (str : string) :
  (String.length (json_escape_body str) <= 6 * String.length str)%nat.
Proof.
  induction str as [|c str IH]; [cbn; lia|].
  cbn [json_escape_body String.length]. rewrite string_length_append.
  pose proof (json_escape_char_length c). lia.
Qed.

Section Document.
Context {L : Libc} {IO : IoLibc}.

Lemma find_key_success (tl : Timeline) (more : string) :
  find_key (String.append (pieces_text (firstn 3 (head_pieces tl))) more) "success" =
  Some (String.append (bool_to_json (Timeline.success tl)) more).
Proof.
  unfold head_pieces, pieces_text. cbn [firstn fold_right].
  rewrite !string_append_assoc. cbn [String.append].
  erewrite find_key_found; [| |reflexivity].
  2:{ unfold json_key, newline, str1. cbn [String.append].
      strstr_steps. rewrite strstr_here by reflexivity. reflexivity. }
  unfold after_colon. cbv zeta. cbn [skip_whitespace String.append].
  change (isspace ":") with false. cbv iota.
  change (Ascii.eqb ":" ":") with true. cbv iota.
  cbn [skip_whitespace]. change (isspace " ") with true. cbv iota.
  destruct (Timeline.success tl); reflexivity.
Qed.

Lemma find_key_error_message (tl : Timeline) (more : string) :
  malloc_succeeds AllocEscaped = true ->
  find_key (String.append (pieces_text (firstn 6 (head_pieces tl))) more)
    "error_message" =
  Some (String quote
          (String.append (json_escape_body (Timeline.error_message tl))
             (String quote more))).
Proof.
  intros He. unfold head_pieces, pieces_text, escaped_message, json_escape_string.
  rewrite He. cbn [firstn fold_right].
  rewrite !string_append_assoc. cbn [String.append str1].
  rewrite !string_append_assoc. cbn [String.append].
  erewrite find_key_found; [| |reflexivity].
  2:{ unfold json_key, newline, str1.
      destruct (Timeline.success tl); cbn [String.append bool_to_json];
        strstr_steps; (rewrite strstr_here by reflexivity); reflexivity. }
  unfold after_colon. cbv zeta. cbn [skip_whitespace String.append].
  change (isspace ":") with false. cbv iota.
  change (Ascii.eqb ":" ":") with true. cbv iota.
  cbn [skip_whitespace]. change (isspace " ") with true. cbv iota.
  change (isspace quote) with false. cbv iota. reflexivity.
Qed.

Lemma head_fits_3 (tl : Timeline) :
  Z.of_nat (String.length (pieces_text (firstn 3 (head_pieces tl)))) + 1 <=
  INITIAL_BUFFER_SIZE.
Proof.
  unfold head_pieces, pieces_text, INITIAL_BUFFER_SIZE. cbn [firstn fold_right].
  destruct (Timeline.success tl); cbn; lia.
Qed.

Lemma head_fits_6 (tl : Timeline) :
  Z.of_nat (String.length (Timeline.error_message tl)) < MAX_ERROR_LEN ->
  Z.of_nat (String.length (pieces_text (firstn 6 (head_pieces tl)))) + 1 <=
  INITIAL_BUFFER_SIZE.
Proof.
  intros Hlen.
  assert (He : (String.length (escaped_message tl) <=
                2 + 6 * String.length (Timeline.error_message tl))%nat).
  { unfold escaped_message, json_escape_string.
    pose proof (json_escape_body_length (Timeline.error_message tl)).
    destruct (malloc_succeeds AllocEscaped); cbn [String.length str2];
      [rewrite string_length_append; cbn [String.length str1]|]; lia. }
  unfold head_pieces, pieces_text, INITIAL_BUFFER_SIZE, MAX_ERROR_LEN in *.
  cbn [firstn fold_right].
  rewrite !string_length_append.
  destruct (Timeline.success tl); cbn [bool_to_json]; cbn -[escaped_message]; lia.
Qed.

(** X18.  In the document [timeline_to_json] writes, the value found
    under ["success"] is read by [parse_bool] as the success flag of the
    timeline; and when the escaped copy of the message could be allocated,
    the message holds no character that needs a [\u] escape and fits
    [MAX_ERROR_LEN], the value found under ["error_message"] is read by
    [parse_string] as the message.  This part of the document fits the
    buffer as it is created, and is there whether or not [realloc] fails
    later. *)
Theorem timeline_json_reads_back (tl : Timeline) :
  malloc_succeeds AllocBuffer = true ->
  Timeline.num_slots tl <= Z.of_nat (length (Timeline.slots tl)) ->
  exists doc,
    timeline_to_json (Some tl) = Ret (Some doc) /\
    (exists value rest,
       find_key doc "success" = Some value /\
       parse_bool value = Some (Timeline.success tl, rest)) /\
    (malloc_succeeds AllocEscaped = true ->
     all_plain (Timeline.error_message tl) = true ->
     Z.of_nat (String.length (Timeline.error_message tl)) < MAX_ERROR_LEN ->
     exists value rest,
       find_key doc "error_message" = Some value /\
       parse_string value MAX_ERROR_LEN =
       Ret (Some (Timeline.error_message tl, rest))).
Proof.
  intros Hm Hlen.
  destruct (timeline_to_json_prefix tl 3 Hm Hlen (head_fits_3 tl)) as (more & Hdoc & _).
  eexists. split; [exact Hdoc|]. split.
  - eexists. exists more. split; [apply find_key_success | apply parse_bool_reads].
  - intros He Hplain Hfit.
    destruct (timeline_to_json_prefix tl 6 Hm Hlen (head_fits_6 tl Hfit))
      as (more6 & Hdoc6 & _).
    assert (E : String.append (pieces_text (firstn 3 (head_pieces tl))) more =
                String.append (pieces_text (firstn 6 (head_pieces tl))) more6)
      by congruence.
    rewrite E. eexists. exists more6. split; [apply find_key_error_message; exact He|].
    unfold parse_string. cbn [skip_whitespace].
    change (isspace quote) with false. cbv iota. rewrite Ascii.eqb_refl.
    rewrite parse_escape_body by (try assumption; unfold MAX_ERROR_LEN in *; lia).
    cbn [bind fst snd]. rewrite Ascii.eqb_refl. reflexivity.
Qed.

End Document.

(** ** Counting the elements of an array *)

(** The loop looks at the character before [p] only to see whether it is
    a backslash. *)
Lemma count_array_loop_prev (p : string) (prev prev' : ascii) (count depth : Z)
    (in_string : bool) :
  Ascii.eqb prev backslash = Ascii.eqb prev' backslash ->
  count_array_loop p prev count depth in_string =
  count_array_loop p prev' count depth in_string.
Proof.
  intros H. destruct p as [|c p]; [reflexivity|].
  cbn [count_array_loop]. rewrite H. reflexivity.
Qed.

(** Outside a string, a numeral changes nothing. *)
Lemma count_array_loop_numeral (s r : string) (prev : ascii) (count depth : Z) :
  numeral s = true -> Ascii.eqb prev backslash = false ->
  count_array_loop (String.append s r) prev count depth false =
  count_array_loop r " " count depth false.
Proof.
  revert prev. induction s as [|c s IH]; intros prev Hs Hprev.
  - cbn [String.append]. apply count_array_loop_prev. rewrite Hprev. reflexivity.
  - cbn [numeral string_forall] in Hs. apply andb_true_iff in Hs as [Hc Hs].
    cbn [String.append count_array_loop].
    rewrite (class_char_neq numeral_char c quote Hc eq_refl).
    rewrite (class_char_neq numeral_char c "{" Hc eq_refl).
    rewrite (class_char_neq numeral_char c "}" Hc eq_refl).
    rewrite (class_char_neq numeral_char c "]" Hc eq_refl).
    cbn [andb negb]. apply IH; [exact Hs|].
    apply (class_char_neq numeral_char c backslash Hc eq_refl).
Qed.


Lemma json_escape_body_ordinary (str : string) :
  ordinary str = true -> json_escape_body str = str.
Proof.
  induction str as [|c str IH]; [reflexivity|].
  cbn [ordinary string_forall]. rewrite andb_true_iff. intros [Hc Hs].
  cbn [json_escape_body]. rewrite (IH Hs).
  unfold json_escape_char.
  rewrite (class_char_neq ordinary_char c quote Hc eq_refl).
  rewrite (class_char_neq ordinary_char c backslash Hc eq_refl).
  rewrite (class_char_neq ordinary_char c char_b Hc eq_refl).
  rewrite (class_char_neq ordinary_char c char_f Hc eq_refl).
  rewrite (class_char_neq ordinary_char c char_n Hc eq_refl).
  rewrite (class_char_neq ordinary_char c char_r Hc eq_refl).
  rewrite (class_char_neq ordinary_char c char_t Hc eq_refl).
  unfold ordinary_char in Hc. rewrite !andb_true_iff in Hc.
  destruct Hc as [[[[Hc _] _] _] _]. apply Nat.leb_le in Hc.
  destruct (Nat.ltb_spec (nat_of_ascii c) 32); [lia | reflexivity].
Qed.

Section Document.
Context {L : Libc} {IO : IoLibc}.







(** The document is there as soon as the buffer is; without [realloc] it
    stays within the buffer as created. *)
Lemma timeline_to_json_returns (tl : Timeline) :
  malloc_succeeds AllocBuffer = true ->
  Timeline.num_slots tl <= Z.of_nat (length (Timeline.slots tl)) ->
  exists doc,
    timeline_to_json (Some tl) = Ret (Some doc) /\
    (io_malloc_succeeds AllocGrow = false ->
     Z.of_nat (String.length doc) < INITIAL_BUFFER_SIZE).
Proof.
  intros Hm Hlen.
  destruct (timeline_to_json_prefix tl 0 Hm Hlen) as (doc & Hdoc & Hcut).
  { unfold INITIAL_BUFFER_SIZE. cbn. lia. }
  change (String.append (pieces_text (firstn 0 (head_pieces tl))) doc) with doc
    in Hdoc, Hcut.
  exists doc. split; [exact Hdoc | exact Hcut].
Qed.


End Document.

(** ** The input parser *)

Lemma parse_tasks_loop_length (p : string) (tasks tasks' : list Task) (n : nat) (i : Z) :
  parse_tasks_loop p tasks n i = Ret tasks' -> length tasks' = length tasks.
Proof.
  revert p tasks i. induction n as [|n IH]; intros p tasks i H.
  - injection H as <-. reflexivity.
  - cbn [parse_tasks_loop] in H.
    destruct (next_object p) as [[obj_start p']|]; [|injection H as <-; reflexivity].
    apply bind_Ret_inv in H as (task & _ & H).
    apply bind_Ret_inv in H as (task' & _ & H).
    apply bind_Ret_inv in H as (tasks1 & Hset & H).
    apply IH in H. apply array_set_Ret_inv in Hset as [_ ->].
    rewrite H. apply length_insert.
Qed.

Lemma parse_slots_loop_length (p : string) (slots slots' : list TimeSlot) (n : nat)
    (i : Z) :
  parse_slots_loop p slots n i = Ret slots' -> length slots' = length slots.
Proof.
  revert p slots i. induction n as [|n IH]; intros p slots i H.
  - injection H as <-. reflexivity.
  - cbn [parse_slots_loop] in H.
    destruct (next_object p) as [[obj_start p']|]; [|injection H as <-; reflexivity].
    apply bind_Ret_inv in H as (slot & _ & H).
    apply bind_Ret_inv in H as (slots1 & Hset & H).
    apply IH in H. apply array_set_Ret_inv in Hset as [_ ->].
    rewrite H. apply length_insert.
Qed.

Section Input.
Context {L : Libc} {IO : IoLibc}.

Lemma task_array_create_length (count : Z) (tasks : list Task) :
  task_array_create count = Some tasks ->
  1 <= count <= MAX_TASKS /\ Z.of_nat (length tasks) = count /\
  malloc_succeeds AllocSortedTasks = true.
Proof.
  unfold task_array_create.
  destruct (_ || _) eqn:E; bool_to_prop E; [discriminate|].
  destruct (malloc_succeeds AllocSortedTasks); [|discriminate].
  intros [= <-]. rewrite length_replicate. split; [lia|]. split; [lia | reflexivity].
Qed.

Lemma timeslot_array_create_length (count : Z) (slots : list TimeSlot) :
  timeslot_array_create count = Some slots ->
  1 <= count <= MAX_SLOTS /\ Z.of_nat (length slots) = count /\
  io_malloc_succeeds AllocFixedSlots = true.
Proof.
  unfold timeslot_array_create.
  destruct (_ || _) eqn:E; bool_to_prop E; [discriminate|].
  destruct (io_malloc_succeeds AllocFixedSlots); [|discriminate].
  intros [= <-]. rewrite init_slots_length. split; [lia|]. split; [lia | reflexivity].
Qed.

Lemma parse_document_cases (json_input : string) (r : Parsed) :
  parse_document json_input = Ret r ->
  (Parsed.status r = 0 /\ parsed_ok r) \/
  (r = Parsed.mk (-1) None 0 None 0 /\
   (malloc_succeeds AllocSortedTasks = false \/
    io_malloc_succeeds AllocFixedSlots = false)).
Proof.
  unfold parse_document. cbv zeta. intros H.
  apply bind_Ret_inv in H as ([[status tasks] num_tasks] & Ht & H).
  assert (Htasks :
    (status = -1 /\ malloc_succeeds AllocSortedTasks = false) \/
    (status = 0 /\ 0 <= num_tasks <= MAX_TASKS /\
     match tasks with
     | Some l => Z.of_nat (length l) = num_tasks /\ 1 <= num_tasks
     | None => num_tasks = 0
     end)).
  { assert (Hnone : forall x, Ret (0, @None (list Task), 0) = Ret x ->
                      x = (0, None, 0)) by (intros x [= <-]; reflexivity).
    destruct (find_key json_input "tasks") as [tasks_start|].
    2:{ apply Hnone in Ht. injection Ht as -> -> ->. right. unfold MAX_TASKS. auto with lia. }
    destruct (starts_with "[" tasks_start).
    2:{ apply Hnone in Ht. injection Ht as -> -> ->. right. unfold MAX_TASKS. auto with lia. }
    destruct (_ && _) eqn:Ec; bool_to_prop Ec.
    2:{ apply Hnone in Ht. injection Ht as -> -> ->. right. unfold MAX_TASKS. auto with lia. }
    destruct (task_array_create _) as [arr|] eqn:Ea.
    - apply task_array_create_length in Ea as (Hr & Hl & _).
      apply bind_Ret_inv in Ht as (arr' & Hloop & Ht). injection Ht as <- <- <-.
      apply parse_tasks_loop_length in Hloop. right.
      split; [reflexivity|]. split; [lia|]. split; [lia | lia].
    - injection Ht as <- <- <-. left. split; [reflexivity|].
      unfold task_array_create in Ea.
      destruct (_ || _) eqn:E; bool_to_prop E; [lia|].
      destruct (malloc_succeeds AllocSortedTasks); [discriminate | reflexivity]. }
  destruct Htasks as [[-> Hm]|(-> & Hn & Hl)].
  { cbn in H. injection H as <-. right. auto. }
  change (0 =? -1) with false in H. cbv iota in H.
  assert (Hnone : forall x, Ret (Parsed.mk 0 tasks num_tasks None 0) = Ret x ->
                    Parsed.status x = 0 /\ parsed_ok x).
  { intros x [= <-]. split; [reflexivity|]. unfold parsed_ok. cbn.
    unfold MAX_SLOTS. auto with lia. }
  destruct (find_key json_input "fixed_slots") as [fixed_start|]; [|left; auto].
  destruct (starts_with "[" fixed_start); [|left; auto].
  destruct (_ && _) eqn:Ec; bool_to_prop Ec; [|left; auto].
  destruct (timeslot_array_create _) as [arr|] eqn:Ea.
  - apply timeslot_array_create_length in Ea as (Hr & Hla & _).
    apply bind_Ret_inv in H as (arr' & Hloop & H). injection H as <-.
    apply parse_slots_loop_length in Hloop. left.
    split; [reflexivity|]. unfold parsed_ok. cbn.
    split; [lia|]. split; [exact Hl|]. split; [lia|]. lia.
  - injection H as <-. right. split; [reflexivity|]. right.
    unfold timeslot_array_create in Ea.
    destruct (_ || _) eqn:E; bool_to_prop E; [lia|].
    destruct (io_malloc_succeeds AllocFixedSlots); [discriminate | reflexivity].
Qed.

End Input.

Lemma numeral_ordinary (s : string) : numeral s = true -> ordinary s = true.
Proof.
  apply string_forall_impl. intros c Hc. unfold ordinary_char.
  rewrite (class_char_neq numeral_char c quote Hc eq_refl).
  rewrite (class_char_neq numeral_char c backslash Hc eq_refl).
  rewrite (class_char_neq numeral_char c "{" Hc eq_refl).
  rewrite (class_char_neq numeral_char c "}" Hc eq_refl).
  cbn [negb andb]. rewrite !andb_true_r. apply Nat.leb_le.
  unfold numeral_char in Hc. apply orb_true_iff in Hc as [Hd|Hm].
  - unfold is_digit in Hd. apply andb_true_iff in Hd as [Hd _].
    apply Nat.leb_le in Hd. lia.
  - apply Ascii.eqb_eq in Hm. subst c. apply Nat.leb_le. reflexivity.
Qed.

Section Program.
Context {L : Libc} {IO : IoLibc}.

Lemma optimize_schedule_result tasks num_tasks fixed_slots num_fixed :
  qsort_conforms L ->
  array_ok tasks num_tasks -> array_ok fixed_slots num_fixed ->
  exists r, optimize_schedule tasks num_tasks fixed_slots num_fixed = Ret r /\
    match r with
    | None => malloc_succeeds AllocTimeline = false
    | Some tl =>
        malloc_succeeds AllocTimeline = true /\
        Timeline.num_slots tl = MAX_SLOTS /\
        Z.of_nat (length (Timeline.slots tl)) = MAX_SLOTS /\
        engine_message (Timeline.error_message tl)
    end.
Proof.
  intros HL Htasks Hfixed.
  destruct (malloc_succeeds AllocTimeline) eqn:Hm.
  2:{ exists None. unfold optimize_schedule, timeline_create. rewrite Hm.
      destruct (_ || _); auto. }
  destruct (decide (0 <= num_tasks <= MAX_TASKS)) as [Hn|Hn].
  - rewrite optimize_schedule_valid by assumption. cbv zeta.
    destruct (with_fixed_shape (input_fixed fixed_slots num_fixed))
      as ([Hnn Hlen0] & Hn0 & Hs0 & Hm0).
    assert (Hempty : engine_message EmptyString).
    { split; [reflexivity|]. split; discriminate. }
    assert (Hfail : engine_message "Memory allocation failed").
    { split; [reflexivity|]. split; discriminate. }
    assert (Hnosol : engine_message NO_SOLUTION_MESSAGE).
    { split; [reflexivity|]. split; discriminate. }
    destruct (decide _) as [Hnil|Hne].
    { eexists. split; [reflexivity|]. cbn. rewrite Hm0. repeat split; auto; try lia;
        apply Hempty. }
    destruct (_ && _).
    2:{ eexists. split; [reflexivity|]. cbn. repeat split; auto; try lia;
          apply Hfail. }
    pose proof (initial_state_ok tasks num_tasks
                  (input_fixed fixed_slots num_fixed) HL ltac:(lia) Htasks Hne) as Hok.
    destruct (backtrack_spec _ _ _ Hok) as ([b st] & -> & [Hw1 Hw2] & _ & _ & Hfalse & Htrue).
    cbn [bind fst snd State.timeline] in *.
    eexists. split; [reflexivity|]. destruct b.
    + destruct (placed_shape _ _ _ _ _ (Htrue eq_refl)) as (H1 & _ & H3 & H4).
      cbn. rewrite H3, Hm0. repeat split; auto; try lia; apply Hempty.
    + rewrite (Hfalse eq_refl). cbn. repeat split; auto; try lia; apply Hnosol.
  - unfold optimize_schedule, timeline_create. rewrite Hm.
    destruct (_ || _) eqn:E; bool_to_prop E; [|lia].
    eexists. split; [reflexivity|].
    destruct timeline_init_7 as (Hns & _ & _ & Hlen & _).
    cbn [set_result Timeline.num_slots Timeline.slots Timeline.error_message].
    split; [reflexivity|]. split; [exact Hns|].
    split; [rewrite Hlen; unfold MAX_SLOTS; lia|].
    split; [|split; discriminate].
    unfold ordinary. rewrite string_forall_append.
    apply andb_true_iff. split; [reflexivity|].
    apply numeral_ordinary, int_to_string_numeral.
Qed.

Lemma parsed_ok_arrays (r : Parsed) :
  parsed_ok r ->
  array_ok (Parsed.tasks r) (Parsed.num_tasks r) /\
  array_ok (Parsed.fixed_slots r) (Parsed.num_fixed r).
Proof.
  intros (_ & Ht & _ & Hf). unfold array_ok.
  destruct (Parsed.tasks r), (Parsed.fixed_slots r); split; try exact I; lia.
Qed.

End Program.

Lemma skip_whitespace_spaces (ws p : string) :
  string_forall isspace ws = true ->
  skip_whitespace (String.append ws p) = skip_whitespace p.
Proof.
  induction ws as [|c ws IH]; [reflexivity|].
  cbn [string_forall]. rewrite andb_true_iff. intros [Hc Hws].
  cbn [String.append skip_whitespace]. rewrite Hc. apply IH, Hws.
Qed.

(** X15.  [parse_int] reads the decimal text of an integer (what
    [snprintf] writes for ["%d"]), also behind leading white space, as the
    integer wrapped around to 32 bits, and stops right behind the numeral
    when no digit follows it: every [int] is read back, [INT_MIN]
    included, and a numeral outside the range of [int] is read as another
    number. *)
Theorem parse_int_reads_back (value : Z) (spaces rest : string) :
  string_forall isspace spaces = true ->
  starts_with_digit rest = false ->
  parse_int (String.append spaces (String.append (int_to_string value) rest)) =
    (wrap_int value, rest) /\
  (INT_MIN <= value <= INT_MAX ->
   parse_int (String.append spaces (String.append (int_to_string value) rest)) =
     (value, rest)).
Proof.
  intros Hws Hrest.
  assert (H : parse_int (String.append spaces (String.append (int_to_string value) rest)) =
              (wrap_int value, rest)).
  { rewrite <- (parse_int_wraps value rest Hrest).
    unfold parse_int. cbv zeta.
    rewrite skip_whitespace_spaces by assumption. reflexivity. }
  split; [exact H|]. intros Hv. rewrite H, wrap_int_id by assumption. reflexivity.
Qed.

(** ** The properties of the documents on sample inputs *)

Lemma json_escape_string_fills_allocation_witness :
  exists escaped,
    json_escape_string (L := stable_libc) (Some control_message) = Some escaped /\
    Z.of_nat (String.length escaped) = escaped_len control_message.
Proof.
  eexists. split; [reflexivity|].
  apply (json_escape_string_fills_allocation (L := stable_libc)). reflexivity.
Defined.

Lemma parse_int_reads_back_witness :
  parse_int (String.append "  " (String.append (int_to_string INT_MIN) ", 7")) =
    (INT_MIN, ", 7"%string) /\
  parse_int (String.append "  " (String.append (int_to_string 3000000000) ", 7")) =
    (-1294967296, ", 7"%string).
Proof.
  split.
  - apply (parse_int_reads_back INT_MIN "  " ", 7"); try reflexivity.
    unfold INT_MIN, INT_MAX. lia.
  - apply (parse_int_reads_back 3000000000 "  " ", 7"); reflexivity.
Defined.

Lemma parse_string_fits_destination_witness :
  (parse_string (String quote "ab") MAX_NAME_LEN = Ret None <->
   starts_with quote (skip_whitespace (String quote "ab")) = false) /\
  forall dest rest,
    parse_string (String quote "ab") MAX_NAME_LEN = Ret (Some (dest, rest)) ->
    Z.of_nat (String.length dest) + 1 <= MAX_NAME_LEN.
Proof.
  apply (parse_string_fits_destination (String quote "ab") MAX_NAME_LEN).
  unfold MAX_NAME_LEN. lia.
Defined.

Lemma timeline_json_reads_back_witness :
  exists doc,
    timeline_to_json (L := stable_libc) (IO := stable_io) (Some short_timeline) =
      Ret (Some doc) /\
    (exists value rest,
       find_key doc "success" = Some value /\ parse_bool value = Some (true, rest)) /\
    (exists value rest,
       find_key doc "error_message" = Some value /\
       parse_string value MAX_ERROR_LEN = Ret (Some ("ok"%string, rest))).
Proof.
  destruct (timeline_json_reads_back (L := stable_libc) (IO := stable_io) short_timeline
              eq_refl ltac:(simpl; lia)) as (doc & Hdoc & Hs & Hm).
  exists doc. split; [exact Hdoc|]. split; [exact Hs|].
  apply Hm; [reflexivity | reflexivity | unfold MAX_ERROR_LEN; simpl; lia].
Defined.


(** * Requests *)

(** ** Searching a request *)

Lemma strstr_step_other (c : ascii) (h needle : string) :
  Ascii.eqb c quote = false ->
  strstr (String c h) (String quote needle) = strstr h (String quote needle).
Proof.
  intros Hc. apply strstr_step. rewrite prefix_cons, Ascii.eqb_sym, Hc. reflexivity.
Qed.

(** The needle does not start at a quote that a character other than its
    first one follows. *)
Lemma needle_not_at (key : string) (c : ascii) (r : string) :
  match key with
  | String a _ => Ascii.eqb a c = false
  | EmptyString => Ascii.eqb quote c = false
  end ->
  String.prefix (String quote (String.append key (str1 quote))) (String quote (String c r))
  = false.
Proof.
  intros H. unfold str1. rewrite prefix_cons, Ascii.eqb_refl. cbn [andb].
  destruct key as [|a key]; cbn [String.append]; rewrite prefix_cons, H; reflexivity.
Qed.

Lemma key_start_neq (key : string) (c : ascii) :
  key_start key = true ->
  In c [":"%char; ","%char; "}"%char] ->
  match key with
  | String a _ => Ascii.eqb a c = false
  | EmptyString => Ascii.eqb quote c = false
  end.
Proof.
  destruct key as [|a key]; [discriminate|]. cbn [key_start].
  rewrite !andb_true_iff, !negb_true_iff. intros [[[H1 H2] H3] _] [<-|[<-|[<-|[]]]];
    assumption.
Qed.

Lemma bool_to_json_no_quote (b : bool) : no_quote (bool_to_json b) = true.
Proof. destruct b; reflexivity. Qed.

Section Needle.
Variable key : string.
Hypothesis key_no_quote : no_quote key = true.
Hypothesis key_starts : key_start key = true.

Local Abbreviation needle := (String quote (String.append key (str1 quote))).

Lemma strstr_skip_token (s : string) (c : ascii) (r : string) :
  no_quote s = true -> s <> key ->
  In c [":"%char; ","%char; "}"%char] ->
  strstr (quoted s (String c r)) needle = strstr (String c r) needle.
Proof.
  intros Hs Hne Hc. unfold quoted.
  apply (strstr_skip_quoted key); try assumption; [reflexivity|].
  apply needle_not_at, key_start_neq; assumption.
Qed.

Lemma strstr_skip_value (v : json_value) (c : ascii) (r : string) :
  match v with JString s => s <> key /\ no_quote s = true | _ => True end ->
  In c [","%char; "}"%char] ->
  strstr (value_text v (String c r)) needle = strstr r needle.
Proof.
  intros Hv Hc.
  assert (Hc' : In c [":"%char; ","%char; "}"%char]) by (right; exact Hc).
  assert (Hcq : Ascii.eqb c quote = false).
  { destruct Hc as [<-|[<-|[]]]; reflexivity. }
  destruct v as [n|s|b]; cbn [value_text].
  - rewrite strstr_skip by apply numeral_no_quote, int_to_string_numeral.
    apply strstr_step_other. exact Hcq.
  - destruct Hv as [Hne Hs]. rewrite strstr_skip_token by assumption.
    apply strstr_step_other. exact Hcq.
  - rewrite strstr_skip by apply bool_to_json_no_quote.
    apply strstr_step_other. exact Hcq.
Qed.

(** Members that are clear of the key are stepped over. *)
Lemma strstr_skip_members (members : list (string * json_value)) (r : string) :
  Forall (member_clear key) members ->
  strstr (members_text members (String "}" r)) needle = strstr r needle.
Proof.
  induction members as [|[k v] members IH]; intros Hall.
  { cbn [members_text]. apply strstr_step_other. reflexivity. }
  apply Forall_cons_1 in Hall as [(Hk & Hkq & Hv) Hall]. cbn [fst snd] in *.
  cbn [members_text]. unfold key_text.
  rewrite strstr_skip_token by (try assumption; left; reflexivity).
  rewrite !strstr_step_other by reflexivity.
  destruct members as [|m members].
  - cbn [separated]. apply strstr_skip_value; [assumption | right; left; reflexivity].
  - cbn [separated]. rewrite strstr_skip_value by (try assumption; left; reflexivity).
    rewrite !strstr_step_other by reflexivity.
    apply IH. exact Hall.
Qed.

Lemma strstr_skip_object (members : list (string * json_value)) (r : string) :
  Forall (member_clear key) members ->
  strstr (object_text members r) needle = strstr r needle.
Proof.
  intros Hall. unfold object_text.
  rewrite strstr_step_other by reflexivity.
  apply strstr_skip_members. assumption.
Qed.

Lemma strstr_skip_elements (elements : list (list (string * json_value))) (r : string) :
  Forall (Forall (member_clear key)) elements ->
  strstr (elements_text elements r) needle = strstr r needle.
Proof.
  induction elements as [|e elements IH]; intros Hall; [reflexivity|].
  apply Forall_cons_1 in Hall as [He Hall].
  cbn [elements_text]. rewrite strstr_skip_object by assumption.
  destruct elements as [|e' elements]; [reflexivity|].
  cbn [separated]. rewrite !strstr_step_other by reflexivity.
  apply IH. exact Hall.
Qed.

(** The first member with the key, behind members that are clear of it. *)
Lemma strstr_member (before after : list (string * json_value)) (v : json_value)
    (r : string) :
  Forall (member_clear key) before ->
  strstr (members_text (before ++ (key, v) :: after) r) needle =
  Some (members_text ((key, v) :: after) r).
Proof.
  induction before as [|[k w] before IH]; intros Hall.
  - cbn [app]. apply strstr_here. cbn [members_text]. unfold key_text, quoted.
    rewrite prefix_cons, Ascii.eqb_refl. cbn [andb].
    assert (H : forall a b x, String.prefix (String.append a b) (String.append a (String.append b x)) = true).
    { intros a b x. rewrite <- string_append_assoc. apply prefix_append. }
    apply (H key (str1 quote)).
  - apply Forall_cons_1 in Hall as [(Hk & Hkq & Hv) Hall]. cbn [fst snd] in *.
    cbn [app members_text]. unfold key_text.
    rewrite strstr_skip_token by (try assumption; left; reflexivity).
    rewrite !strstr_step_other by reflexivity.
    destruct (before ++ (key, v) :: after) as [|m rest] eqn:E.
    { destruct before; discriminate. }
    cbn [separated]. rewrite strstr_skip_value by (try assumption; left; reflexivity).
    rewrite !strstr_step_other by reflexivity.
    apply IH. exact Hall.
Qed.

End Needle.

(** ** The members of an object *)

Lemma value_text_no_space (v : json_value) (r : string) :
  skip_whitespace (value_text v r) = value_text v r.
Proof.
  destruct v as [n|s|b]; cbn [value_text].
  - apply skip_whitespace_int.
  - reflexivity.
  - destruct b; reflexivity.
Qed.

Lemma separated_not_digit {A : Type} (next : list A) (more r : string) :
  starts_with_digit (separated next more (String "}" r)) = false.
Proof. destruct next; reflexivity. Qed.

(** The value of the first member with the key. *)
Lemma find_key_member (key : string) (members before after : list (string * json_value))
    (v : json_value) (r : string) :
  members = before ++ (key, v) :: after ->
  no_quote key = true -> key_start key = true -> key_fits key = true ->
  Forall (member_clear key) before ->
  find_key (object_text members r) key =
  Some (value_text v (separated after (members_text after (String "}" r)) (String "}" r))).
Proof.
  intros -> Hq Hs Hfit Hall.
  erewrite find_key_found; [| |exact Hfit].
  2:{ unfold object_text. rewrite strstr_step_other by reflexivity.
      rewrite (strstr_member key Hq Hs) by assumption.
      cbn [members_text]. unfold key_text. reflexivity. }
  unfold after_colon. cbv zeta. cbn [skip_whitespace].
  change (isspace ":") with false. cbv iota.
  change (Ascii.eqb ":" ":") with true. cbv iota.
  cbn [skip_whitespace]. change (isspace " ") with true. cbv iota.
  apply f_equal, value_text_no_space.
Qed.

Lemma ordinary_all_plain (s : string) : ordinary s = true -> all_plain s = true.
Proof.
  induction s as [|c s IH]; [reflexivity|].
  cbn [ordinary string_forall all_plain]. rewrite !andb_true_iff. intros [Hc Hs].
  split; [|apply IH, Hs].
  unfold ordinary_char in Hc. rewrite !andb_true_iff in Hc.
  destruct Hc as [[[[Hc _] _] _] _]. unfold plain_char. rewrite Hc. reflexivity.
Qed.

Lemma parse_string_quoted (s r : string) (max_len : Z) :
  ordinary s = true -> Z.of_nat (String.length s) < max_len ->
  parse_string (quoted s r) max_len = Ret (Some (s, r)).
Proof.
  intros Ho Hlen. unfold parse_string, quoted. cbn [skip_whitespace].
  change (isspace quote) with false. cbv iota. rewrite Ascii.eqb_refl.
  rewrite <- (json_escape_body_ordinary s Ho) at 1.
  rewrite parse_escape_body by (try apply ordinary_all_plain; try assumption; lia).
  cbn [bind fst snd]. rewrite Ascii.eqb_refl. reflexivity.
Qed.

Lemma type_name_spec (ty : TaskType) :
  ordinary (type_name ty) = true /\
  Z.of_nat (String.length (type_name ty)) < TYPE_STR_LEN /\
  ~ In (type_name ty) request_keys /\
  task_type_from_string (Some (type_name ty)) = Ret (TaskType_to_int ty) /\
  (TaskType_to_int ty >=? 0) = true /\
  TaskType_of_int (TaskType_to_int ty) = Some ty.
Proof.
  destruct ty; (split; [reflexivity|]); (split; [reflexivity|]);
    (split; [cbn; intuition discriminate|]); repeat split; reflexivity.
Qed.

Ltac in_keys := cbn [In request_keys]; repeat (try (left; reflexivity); right).

(** Solves [Forall (member_clear key) before] for the members in front of
    a key of a task; [Hn] and [Ht] say that the name and the type name
    are no keys, [Hnq] and [Htq] that they hold no quote. *)
Ltac members_clear Hn Hnq Ht Htq :=
  unfold task_members, slot_members; cbn [firstn];
  repeat first [apply Forall_nil_2 | apply Forall_cons_2];
  unfold member_clear; cbn [fst snd];
  repeat split; try discriminate; try reflexivity;
  try exact Hnq; try exact Htq;
  try (apply Hn; in_keys); try (apply Ht; in_keys).

Lemma parse_int_value (n : Z) {A : Type} (next : list A) (more r : string) :
  parse_int (value_text (JInt n) (separated next more (String "}" r))) =
  (wrap_int n, separated next more (String "}" r)).
Proof. cbn [value_text]. apply parse_int_wraps, separated_not_digit. Qed.

Lemma parse_task_fields_object (t : Task) (r : string) :
  name_ok (Task.name t) ->
  parse_task_fields (object_text (task_members t) r) task_init = Ret (wrap_task t).
Proof.
  intros Hname.
  destruct (type_name_spec (Task.type t)) as (Hto & Htl & Htk & Htf & Htp & Hti).
  assert (Hn : forall key, In key request_keys -> Task.name t <> key).
  { intros key Hin E. destruct Hname as (_ & _ & Hk). apply Hk. rewrite E. exact Hin. }
  assert (Hnq : no_quote (Task.name t) = true).
  { apply ordinary_no_quote, Hname. }
  assert (Ht : forall key, In key request_keys -> type_name (Task.type t) <> key).
  { intros key Hin E. apply Htk. rewrite E. exact Hin. }
  assert (Htq : no_quote (type_name (Task.type t)) = true).
  { apply ordinary_no_quote, Hto. }
  unfold parse_task_fields. cbv zeta.
  set (M := task_members t).
  rewrite (find_key_member "id" M (firstn 0 M) (skipn 1 M)
             (JInt (Task.id t)) r eq_refl eq_refl eq_refl eq_refl)
    by (subst M; members_clear Hn Hnq Ht Htq).
  rewrite (find_key_member "name" M (firstn 1 M) (skipn 2 M)
             (JString (Task.name t)) r eq_refl eq_refl eq_refl eq_refl)
    by (subst M; members_clear Hn Hnq Ht Htq).
  rewrite (find_key_member "type" M (firstn 2 M) (skipn 3 M)
             (JString (type_name (Task.type t))) r eq_refl eq_refl eq_refl eq_refl)
    by (subst M; members_clear Hn Hnq Ht Htq).
  rewrite (find_key_member "duration_slots" M (firstn 3 M) (skipn 4 M)
             (JInt (Task.duration_slots t)) r eq_refl eq_refl eq_refl eq_refl)
    by (subst M; members_clear Hn Hnq Ht Htq).
  rewrite (find_key_member "priority" M (firstn 4 M) (skipn 5 M)
             (JInt (Task.priority t)) r eq_refl eq_refl eq_refl eq_refl)
    by (subst M; members_clear Hn Hnq Ht Htq).
  rewrite (find_key_member "deadline_slot" M (firstn 5 M) (skipn 6 M)
             (JInt (Task.deadline_slot t)) r eq_refl eq_refl eq_refl eq_refl)
    by (subst M; members_clear Hn Hnq Ht Htq).
  rewrite (find_key_member "is_fixed" M (firstn 6 M) (skipn 7 M)
             (JBool (Task.is_fixed t)) r eq_refl eq_refl eq_refl eq_refl)
    by (subst M; members_clear Hn Hnq Ht Htq).
  rewrite (find_key_member "preferred_energy" M (firstn 7 M) (skipn 8 M)
             (JInt (Task.preferred_energy t)) r eq_refl eq_refl eq_refl eq_refl)
    by (subst M; members_clear Hn Hnq Ht Htq).
  rewrite !parse_int_value. cbn [fst].
  cbn [value_text].
  rewrite parse_string_quoted by apply Hname. cbn [bind].
  rewrite parse_string_quoted by assumption. cbn [bind].
  rewrite Htf. cbn [bind]. rewrite Htp, Hti.
  rewrite parse_bool_reads.
  destruct t; reflexivity.
Qed.

Lemma parse_slot_fields_object (s slot : TimeSlot) (r : string) :
  parse_slot_fields (object_text (slot_members s) r) slot =
  TimeSlot.mk (wrap_int (TimeSlot.slot_index s)) (wrap_int (TimeSlot.task_id s))
    (TimeSlot.energy_level slot) true.
Proof.
  unfold parse_slot_fields. cbv zeta.
  set (M := slot_members s).
  rewrite (find_key_member "slot_index" M (firstn 0 M) (skipn 1 M)
             (JInt (TimeSlot.slot_index s)) r eq_refl eq_refl eq_refl eq_refl)
    by (subst M; cbn [firstn]; constructor).
  rewrite (find_key_member "task_id" M (firstn 1 M) (skipn 2 M)
             (JInt (TimeSlot.task_id s)) r eq_refl eq_refl eq_refl eq_refl)
    by (subst M; unfold slot_members; cbn [firstn]; repeat constructor; discriminate).
  rewrite !parse_int_value. reflexivity.
Qed.

(** ** Scanning the objects of a request *)

Lemma skip_object_no_brace (s r : string) :
  no_brace s = true ->
  skip_object (String.append s r) 1 = skip_object r 1.
Proof.
  induction s as [|c s IH]; [reflexivity|].
  cbn [no_brace string_forall]. rewrite !andb_true_iff, !negb_true_iff.
  intros [[H1 H2] Hs]. cbn [String.append skip_object].
  change (1 >? 0) with true. cbv iota. rewrite H1, H2. apply IH, Hs.
Qed.

Lemma skip_object_char (c : ascii) (r : string) :
  negb (Ascii.eqb c "{") && negb (Ascii.eqb c "}") = true ->
  skip_object (String c r) 1 = skip_object r 1.
Proof.
  intros Hc. apply (skip_object_no_brace (String c EmptyString) r).
  cbn [no_brace string_forall]. rewrite Hc. reflexivity.
Qed.

Lemma skip_object_quoted (s r : string) :
  ordinary s = true -> skip_object (quoted s r) 1 = skip_object r 1.
Proof.
  intros Hs. unfold quoted. cbn [skip_object].
  change (1 >? 0) with true. cbv iota.
  change (Ascii.eqb quote "{") with false. change (Ascii.eqb quote "}") with false.
  cbv iota. rewrite skip_object_no_brace by apply ordinary_no_brace, Hs.
  reflexivity.
Qed.

Lemma skip_object_value (v : json_value) (r : string) :
  match v with JString s => ordinary s = true | _ => True end ->
  skip_object (value_text v r) 1 = skip_object r 1.
Proof.
  intros Hv. destruct v as [n|s|b]; cbn [value_text].
  - apply skip_object_no_brace, numeral_no_brace, int_to_string_numeral.
  - apply skip_object_quoted, Hv.
  - apply skip_object_no_brace. destruct b; reflexivity.
Qed.

Lemma skip_object_members (members : list (string * json_value)) (r : string) :
  Forall member_plain members ->
  skip_object (members_text members (String "}" r)) 1 = r.
Proof.
  induction members as [|[k v] members IH]; intros Hall.
  { cbn [members_text]. destruct r; reflexivity. }
  apply Forall_cons_1 in Hall as [[Hk Hv] Hall]. cbn [fst snd] in *.
  cbn [members_text]. unfold key_text.
  rewrite skip_object_quoted by assumption.
  rewrite !skip_object_char by reflexivity.
  rewrite skip_object_value by assumption.
  destruct members as [|m members].
  - cbn [separated]. destruct r; reflexivity.
  - cbn [separated]. rewrite !skip_object_char by reflexivity.
    apply IH. exact Hall.
Qed.

Lemma next_object_object (p : string) (members : list (string * json_value)) (r : string) :
  Forall member_plain members ->
  skip_whitespace p = object_text members r ->
  next_object p = Some (object_text members r, r).
Proof.
  intros Hall Hp. unfold next_object. cbv zeta. rewrite Hp.
  unfold object_text at 1. rewrite Ascii.eqb_refl.
  rewrite skip_object_members by assumption. reflexivity.
Qed.

(** ** Counting the objects of an array *)

Lemma count_array_loop_in_string (s r : string) (prev : ascii) (count depth : Z) :
  ordinary s = true -> Ascii.eqb prev backslash = false ->
  count_array_loop (String.append s (String quote r)) prev count depth true =
  count_array_loop r quote count depth false.
Proof.
  revert prev. induction s as [|c s IH]; intros prev Hs Hprev.
  - cbn [String.append count_array_loop]. rewrite Ascii.eqb_refl, Hprev. reflexivity.
  - cbn [ordinary string_forall] in Hs. apply andb_true_iff in Hs as [Hc Hs].
    cbn [String.append count_array_loop].
    rewrite (class_char_neq ordinary_char c quote Hc eq_refl).
    cbn [andb negb]. apply IH; [exact Hs|].
    apply (class_char_neq ordinary_char c backslash Hc eq_refl).
Qed.

Lemma count_array_loop_quoted (s r : string) (prev : ascii) (count depth : Z) :
  ordinary s = true -> Ascii.eqb prev backslash = false ->
  count_array_loop (quoted s r) prev count depth false =
  count_array_loop r " " count depth false.
Proof.
  intros Hs Hprev. unfold quoted. cbn [count_array_loop].
  rewrite Ascii.eqb_refl, Hprev. cbn [andb negb].
  rewrite count_array_loop_in_string by (try assumption; reflexivity).
  apply count_array_loop_prev. reflexivity.
Qed.

Lemma count_array_loop_value (v : json_value) (r : string) (prev : ascii)
    (count depth : Z) :
  match v with JString s => ordinary s = true | _ => True end ->
  Ascii.eqb prev backslash = false ->
  count_array_loop (value_text v r) prev count depth false =
  count_array_loop r " " count depth false.
Proof.
  intros Hv Hprev. destruct v as [n|s|b]; cbn [value_text].
  - apply count_array_loop_numeral; [apply int_to_string_numeral | exact Hprev].
  - apply count_array_loop_quoted; assumption.
  - destruct b; cbn [bool_to_json String.append count_array_loop];
      rewrite Hprev; cbn; apply count_array_loop_prev; reflexivity.
Qed.

Lemma count_array_loop_members (members : list (string * json_value)) (r : string)
    (prev : ascii) (count depth : Z) :
  Forall member_plain members -> Ascii.eqb prev backslash = false ->
  depth <> 0 ->
  count_array_loop (members_text members (String "}" r)) prev count depth false =
  count_array_loop r " " count (depth - 1) false.
Proof.
  revert prev. induction members as [|[k v] members IH]; intros prev Hall Hprev Hd.
  { cbn [members_text count_array_loop]. cbn. apply count_array_loop_prev. reflexivity. }
  apply Forall_cons_1 in Hall as [[Hk Hv] Hall]. cbn [fst snd] in *.
  cbn [members_text]. unfold key_text.
  rewrite count_array_loop_quoted by assumption.
  cbn [count_array_loop]. cbn [Ascii.eqb andb negb]. cbn.
  rewrite count_array_loop_value by (try assumption; reflexivity).
  destruct members as [|m members].
  - cbn [separated count_array_loop]. cbn. apply count_array_loop_prev. reflexivity.
  - cbn [separated count_array_loop]. cbn -[members_text count_array_loop].
    apply IH; [exact Hall | reflexivity | exact Hd].
Qed.

Lemma count_array_loop_object (members : list (string * json_value)) (r : string)
    (prev : ascii) (count : Z) :
  Forall member_plain members ->
  count_array_loop (object_text members r) prev count 0 false =
  count_array_loop r " " (count + 1) 0 false.
Proof.
  intros Hall. unfold object_text. cbn [count_array_loop].
  change (Ascii.eqb "{" quote) with false. cbn [andb negb].
  rewrite Ascii.eqb_refl. change (0 =? 0) with true. cbv iota.
  change (0 + 1) with 1.
  rewrite count_array_loop_members by (try assumption; try reflexivity; lia).
  reflexivity.
Qed.

Lemma count_array_loop_elements (elements : list (list (string * json_value)))
    (r : string) (prev : ascii) (count : Z) :
  Forall (Forall member_plain) elements -> Ascii.eqb prev backslash = false ->
  count_array_loop (elements_text elements r) prev count 0 false =
  count_array_loop r " " (count + Z.of_nat (length elements)) 0 false.
Proof.
  revert prev count. induction elements as [|e elements IH]; intros prev count Hall Hprev.
  { cbn [elements_text length]. rewrite Z.add_0_r. apply count_array_loop_prev.
    rewrite Hprev. reflexivity. }
  apply Forall_cons_1 in Hall as [He Hall].
  cbn [elements_text]. rewrite count_array_loop_object by assumption.
  destruct elements as [|e' elements].
  - cbn [separated length]. f_equal.
  - cbn [separated]. cbn [count_array_loop].
    change (Ascii.eqb "," quote) with false. change (Ascii.eqb "," "{") with false.
    change (Ascii.eqb "," "}") with false. change (Ascii.eqb "," "]") with false.
    change (Ascii.eqb " " quote) with false. change (Ascii.eqb " " "{") with false.
    change (Ascii.eqb " " "}") with false. change (Ascii.eqb " " "]") with false.
    cbn [andb negb]. rewrite IH by (try assumption; reflexivity).
    f_equal. cbn [length]. lia.
Qed.

(** The length of an array of plain objects. *)
Lemma count_array_elements_array (elements : list (list (string * json_value)))
    (r : string) :
  Forall (Forall member_plain) elements ->
  count_array_elements (String "[" (elements_text elements (String "]" r))) =
  Z.of_nat (length elements).
Proof.
  intros Hall. unfold count_array_elements. rewrite Ascii.eqb_refl.
  rewrite count_array_loop_elements by (try assumption; reflexivity).
  cbn [count_array_loop]. change (Ascii.eqb "]" quote) with false.
  change (Ascii.eqb "]" "{") with false. change (Ascii.eqb "]" "}") with false.
  rewrite Ascii.eqb_refl. reflexivity.
Qed.

(** ** The loops over the objects *)

Lemma task_members_plain (t : Task) :
  name_ok (Task.name t) -> Forall member_plain (task_members t).
Proof.
  intros (Ho & _ & _).
  destruct (type_name_spec (Task.type t)) as (Hto & _).
  unfold task_members. repeat constructor; cbn [fst snd]; assumption.
Qed.

Lemma slot_members_plain (s : TimeSlot) : Forall member_plain (slot_members s).
Proof. unfold slot_members. repeat constructor. Qed.

Lemma parse_tasks_loop_elements (todo done : list Task) (p rest : string) :
  Forall (fun t => name_ok (Task.name t)) todo ->
  (todo <> [] -> skip_whitespace p = elements_text (map task_members todo) rest) ->
  parse_tasks_loop p (done ++ replicate (length todo) task_init) (length todo)
    (Z.of_nat (length done)) = Ret (done ++ map wrap_task todo).
Proof.
  revert done p. induction todo as [|t todo IH]; intros done p Hall Hp.
  { cbn. reflexivity. }
  apply Forall_cons_1 in Hall as [Ht Hall].
  specialize (Hp ltac:(discriminate)). cbn [map elements_text] in Hp.
  cbn [length parse_tasks_loop replicate].
  rewrite (next_object_object p _ _ (task_members_plain t Ht) Hp).
  assert (Hget : array_get (done ++ task_init :: replicate (length todo) task_init)
                   (Z.of_nat (length done)) = Ret task_init).
  { apply array_get_Ret. split; [lia|]. rewrite Nat2Z.id.
    rewrite lookup_app_r by lia. rewrite Nat.sub_diag. reflexivity. }
  rewrite Hget. cbn [bind].
  rewrite parse_task_fields_object by assumption. cbn [bind].
  rewrite array_set_Ret by (rewrite length_app; cbn [length]; lia). cbn [bind].
  rewrite Nat2Z.id.
  rewrite insert_app_r_alt by lia. rewrite Nat.sub_diag. cbn [insert list_insert].
  replace (done ++ wrap_task t :: replicate (length todo) task_init)
    with ((done ++ [wrap_task t]) ++ replicate (length todo) task_init)
    by (rewrite <- app_assoc; reflexivity).
  replace (Z.of_nat (length done) + 1) with (Z.of_nat (length (done ++ [wrap_task t])))
    by (rewrite length_app; cbn [length]; lia).
  rewrite IH; [rewrite <- app_assoc; reflexivity | exact Hall |].
  intros Hne. destruct todo as [|t' todo]; [contradiction|].
  cbn [map]. reflexivity.
Qed.

Lemma parse_slots_loop_elements (todo done : list TimeSlot) (p rest : string) :
  (todo <> [] -> skip_whitespace p = elements_text (map slot_members todo) rest) ->
  parse_slots_loop p (done ++ init_slots (length todo) (Z.of_nat (length done)))
    (length todo) (Z.of_nat (length done)) =
  Ret (done ++ imap (fun j => parsed_slot (length done + j)) (map wrap_slot todo)).
Proof.
  revert done p. induction todo as [|s todo IH]; intros done p Hp.
  { cbn. reflexivity. }
  specialize (Hp ltac:(discriminate)). cbn [map elements_text] in Hp.
  cbn [length parse_slots_loop init_slots].
  rewrite (next_object_object p _ _ (slot_members_plain s) Hp).
  assert (Hget : array_get (done ++ timeslot_init (Z.of_nat (length done)) ::
                              init_slots (length todo) (Z.of_nat (length done) + 1))
                   (Z.of_nat (length done)) = Ret (timeslot_init (Z.of_nat (length done)))).
  { apply array_get_Ret. split; [lia|]. rewrite Nat2Z.id.
    rewrite lookup_app_r by lia. rewrite Nat.sub_diag. reflexivity. }
  rewrite Hget. cbn [bind].
  rewrite array_set_Ret by (rewrite length_app; cbn [length]; lia). cbn [bind].
  rewrite Nat2Z.id.
  rewrite insert_app_r_alt by lia. rewrite Nat.sub_diag. cbn [insert list_insert].
  rewrite parse_slot_fields_object.
  set (x := TimeSlot.mk _ _ _ _).
  replace (done ++ x :: init_slots (length todo) (Z.of_nat (length done) + 1))
    with ((done ++ [x]) ++ init_slots (length todo) (Z.of_nat (length (done ++ [x]))))
    by (rewrite <- app_assoc, length_app; cbn [length app]; do 3 f_equal; lia).
  replace (Z.of_nat (length done) + 1) with (Z.of_nat (length (done ++ [x])))
    by (rewrite length_app; cbn [length]; lia).
  rewrite IH.
  - rewrite <- app_assoc. cbn [app imap map]. f_equal. f_equal. f_equal.
    + subst x. unfold parsed_slot, wrap_slot. rewrite Nat.add_0_r. reflexivity.
    + apply imap_ext. intros j y _. cbn. rewrite length_app. cbn [length].
      f_equal. lia.
  - intros Hne. destruct todo as [|s' todo]; [contradiction|].
    cbn [map]. reflexivity.
Qed.

(** ** Reading a request *)

Lemma find_key_tasks (tasks : list Task) (fixed_slots : list TimeSlot) :
  exists rest,
    request_document tasks fixed_slots =
      String "{" (key_text "tasks"
        (String "[" (elements_text (map task_members tasks) (String "]" rest)))) /\
    find_key (request_document tasks fixed_slots) "tasks" =
      Some (String "[" (elements_text (map task_members tasks) (String "]" rest))).
Proof.
  eexists. split; [reflexivity|].
  unfold request_document.
  erewrite find_key_found; [| |reflexivity].
  2:{ rewrite strstr_step_other by reflexivity. apply strstr_here. reflexivity. }
  reflexivity.
Qed.

Lemma task_members_clear (key : string) (t : Task) :
  In key ["fixed_slots"; "slot_index"; "task_id"]%string ->
  name_ok (Task.name t) -> Forall (member_clear key) (task_members t).
Proof.
  intros Hkey (Ho & _ & Hk).
  destruct (type_name_spec (Task.type t)) as (Hto & _ & Htk & _).
  assert (Hin : In key request_keys).
  { destruct Hkey as [<-|[<-|[<-|[]]]]; in_keys. }
  assert (Hn : Task.name t <> key) by (intros E; apply Hk; rewrite E; exact Hin).
  assert (Ht : type_name (Task.type t) <> key) by (intros E; apply Htk; rewrite E; exact Hin).
  apply ordinary_no_quote in Ho, Hto.
  unfold task_members.
  repeat first [apply Forall_nil_2 | apply Forall_cons_2];
    unfold member_clear; cbn [fst snd]; repeat split; try reflexivity; try assumption;
    destruct Hkey as [<-|[<-|[<-|[]]]]; discriminate.
Qed.

Lemma find_key_fixed_slots (tasks : list Task) (fixed_slots : list TimeSlot) :
  Forall (fun t => name_ok (Task.name t)) tasks ->
  find_key (request_document tasks fixed_slots) "fixed_slots" =
  Some (String "[" (elements_text (map slot_members fixed_slots)
                      (String "]" (String "}" EmptyString)))).
Proof.
  intros Hall. unfold request_document.
  erewrite find_key_found; [| |reflexivity].
  2:{ rewrite strstr_step_other by reflexivity.
      unfold key_text at 1.
      rewrite (strstr_skip_token "fixed_slots" eq_refl eq_refl)
        by (try reflexivity; try discriminate; left; reflexivity).
      rewrite !strstr_step_other by reflexivity.
      rewrite (strstr_skip_elements "fixed_slots" eq_refl eq_refl).
      2:{ apply Forall_map. eapply Forall_impl; [exact Hall|].
          intros t Ht. apply task_members_clear; [left; reflexivity | exact Ht]. }
      rewrite !strstr_step_other by reflexivity.
      apply strstr_here. reflexivity. }
  reflexivity.
Qed.

Lemma tasks_plain (tasks : list Task) :
  Forall (fun t => name_ok (Task.name t)) tasks ->
  Forall (Forall member_plain) (map task_members tasks).
Proof.
  intros Hall. apply Forall_map. eapply Forall_impl; [exact Hall|].
  intros t Ht. apply task_members_plain, Ht.
Qed.

Lemma slots_plain (slots : list TimeSlot) :
  Forall (Forall member_plain) (map slot_members slots).
Proof. apply Forall_map, Forall_forall. intros s _. apply slot_members_plain. Qed.

Lemma string_drop_one (c : ascii) (p : string) : string_drop 1 (String c p) = p.
Proof. apply (string_drop_append (String c EmptyString) p). Qed.

Lemma wrap_task_ints (t : Task) : task_ints t -> wrap_task t = t.
Proof.
  unfold task_ints, is_int, wrap_task. intros (H1 & H2 & H3 & H4 & H5).
  rewrite !wrap_int_id by assumption. destruct t; reflexivity.
Qed.

Lemma wrap_slot_ints (s : TimeSlot) : slot_ints s -> wrap_slot s = s.
Proof.
  unfold slot_ints, is_int, wrap_slot. intros (H1 & H2).
  rewrite !wrap_int_id by assumption. destruct s; reflexivity.
Qed.

Lemma map_wrap_task (tasks : list Task) :
  Forall task_ints tasks -> map wrap_task tasks = tasks.
Proof.
  induction 1 as [|t tasks Ht _ IH]; [reflexivity|].
  cbn [map]. rewrite wrap_task_ints, IH by assumption. reflexivity.
Qed.

Lemma map_wrap_slot (slots : list TimeSlot) :
  Forall slot_ints slots -> map wrap_slot slots = slots.
Proof.
  induction 1 as [|s slots Hs _ IH]; [reflexivity|].
  cbn [map]. rewrite wrap_slot_ints, IH by assumption. reflexivity.
Qed.

Section Request.
Context {L : Libc} {IO : IoLibc}.

(** Behind the guard, [parse_json_input] is its body. *)
Lemma parse_json_input_body (json_input : string) (tasks : option (list Task))
    (num_tasks : Z) (fixed_slots : option (list TimeSlot)) (num_fixed : Z) :
  parse_json_input (Some json_input)
    (Out.mk (Some tasks) (Some num_tasks) (Some fixed_slots) (Some num_fixed)) =
  (r <- parse_document json_input ;; Ret (Parsed.status r, written r)).
Proof. reflexivity. Qed.

Lemma parse_document_capped (tasks : list Task) (fixed_slots : list TimeSlot) :
  malloc_succeeds AllocSortedTasks = true ->
  io_malloc_succeeds AllocFixedSlots = true ->
  Forall (fun t => name_ok (Task.name t)) tasks ->
  parse_document (request_document tasks fixed_slots) =
  Ret (Parsed.mk 0 (array_of (capped MAX_TASKS (map wrap_task tasks)))
         (Z.of_nat (length (capped MAX_TASKS (map wrap_task tasks))))
         (array_of (capped MAX_SLOTS (imap parsed_slot (map wrap_slot fixed_slots))))
         (Z.of_nat (length (capped MAX_SLOTS
                              (imap parsed_slot (map wrap_slot fixed_slots)))))).
Proof.
  intros Hm Hio Hall.
  unfold parse_document. cbv zeta.
  destruct (find_key_tasks tasks fixed_slots) as (rest & _ & ->).
  rewrite find_key_fixed_slots by assumption.
  cbn [starts_with]. rewrite Ascii.eqb_refl.
  rewrite !count_array_elements_array by (try apply tasks_plain; try apply slots_plain; assumption).
  rewrite !length_map.
  rewrite !string_drop_one.
  assert (Htasks :
    (if (Z.of_nat (length tasks) >? 0) && (Z.of_nat (length tasks) <=? MAX_TASKS)
     then match task_array_create (Z.of_nat (length tasks)) with
          | Some tasks0 =>
              tasks1 <- parse_tasks_loop
                          (elements_text (map task_members tasks) (String "]" rest))
                          tasks0 (Z.to_nat (Z.of_nat (length tasks))) 0 ;;
              Ret (0, Some tasks1, Z.of_nat (length tasks))
          | None => Ret (-1, None, 0)
          end
     else Ret (0, None, 0)) =
    Ret (0, array_of (capped MAX_TASKS (map wrap_task tasks)),
         Z.of_nat (length (capped MAX_TASKS (map wrap_task tasks))))).
  { unfold capped. rewrite length_map.
    destruct tasks as [|t tasks]; [reflexivity|].
    set (ts := t :: tasks) in *.
    assert (Hpos : 0 < Z.of_nat (length ts)) by (subst ts; cbn [length]; lia).
    replace (Z.of_nat (length ts) >? 0) with true by (symmetry; apply Z.gtb_lt; lia).
    cbn [andb].
    destruct (Z.leb_spec (Z.of_nat (length ts)) MAX_TASKS) as [Hle|Hgt]; [|reflexivity].
    unfold task_array_create.
    replace (Z.of_nat (length ts) <=? 0) with false by (symmetry; apply Z.leb_gt; lia).
    replace (Z.of_nat (length ts) >? MAX_TASKS) with false
      by (symmetry; rewrite Z.gtb_ltb; apply Z.ltb_ge; lia).
    cbn [orb]. rewrite Hm. rewrite Nat2Z.id.
    rewrite (parse_tasks_loop_elements ts [] _ (String "]" rest) Hall)
      by (intros _; destruct ts; [reflexivity|]; reflexivity).
    cbn [bind app]. rewrite length_map. subst ts. reflexivity. }
  rewrite Htasks. cbn [bind]. change (0 =? -1) with false. cbv iota.
  unfold capped. rewrite !length_imap, !length_map.
  destruct fixed_slots as [|s slots]; [reflexivity|].
  set (ss := s :: slots) in *.
  assert (Hpos : 0 < Z.of_nat (length ss)) by (subst ss; cbn [length]; lia).
  replace (Z.of_nat (length ss) >? 0) with true by (symmetry; apply Z.gtb_lt; lia).
  cbn [andb].
  destruct (Z.leb_spec (Z.of_nat (length ss)) MAX_SLOTS) as [Hle|Hgt]; [|reflexivity].
  unfold timeslot_array_create.
  replace (Z.of_nat (length ss) <=? 0) with false by (symmetry; apply Z.leb_gt; lia).
  replace (Z.of_nat (length ss) >? MAX_SLOTS) with false
    by (symmetry; rewrite Z.gtb_ltb; apply Z.ltb_ge; lia).
  cbn [orb]. rewrite Hio. rewrite Nat2Z.id.
  rewrite (parse_slots_loop_elements ss [] _ (String "]" (String "}" EmptyString)))
    by (intros _; reflexivity).
  cbn [bind app length]. rewrite length_imap, length_map. subst ss. reflexivity.
Qed.

Lemma capped_within {A : Type} (limit : Z) (l : list A) :
  Z.of_nat (length l) <= limit -> capped limit l = l.
Proof. intros H. unfold capped. apply Z.leb_le in H. rewrite H. reflexivity. Qed.

Lemma capped_beyond {A : Type} (limit : Z) (l : list A) :
  limit < Z.of_nat (length l) -> capped limit l = [].
Proof. intros H. unfold capped. apply Z.leb_gt in H. rewrite H. reflexivity. Qed.

(** A request within the capacities, with numbers that are [int]s, is
    read as it was written. *)
Lemma parse_document_request (tasks : list Task) (fixed_slots : list TimeSlot) :
  malloc_succeeds AllocSortedTasks = true ->
  io_malloc_succeeds AllocFixedSlots = true ->
  Z.of_nat (length tasks) <= MAX_TASKS ->
  Z.of_nat (length fixed_slots) <= MAX_SLOTS ->
  Forall (fun t => name_ok (Task.name t)) tasks ->
  Forall task_ints tasks -> Forall slot_ints fixed_slots ->
  parse_document (request_document tasks fixed_slots) =
  Ret (Parsed.mk 0 (array_of tasks) (Z.of_nat (length tasks))
         (array_of (imap parsed_slot fixed_slots)) (Z.of_nat (length fixed_slots))).
Proof.
  intros Hm Hio Hnt Hnf Hall Hti Hsi.
  rewrite parse_document_capped by assumption.
  rewrite map_wrap_task, map_wrap_slot by assumption.
  rewrite !capped_within by (rewrite ?length_imap; assumption).
  rewrite length_imap. reflexivity.
Qed.

(** X23.  A request written with the tasks and the fixed slots in the
    layout of a JSON library, with no more than 500 tasks of plain names
    and no more than 336 fixed slots, and with every number in the range
    of [int], is read back as it was written, whatever the four variables
    of the caller held: the code returned is 0, and the variables hold
    the tasks with every field, and the fixed slots with their index and
    task id, marked fixed, with the energy level of their position in the
    array.  An empty array is read as no array and the count 0. *)
Theorem parse_json_input_reads_request (tasks : list Task) (fixed_slots : list TimeSlot)
    (tasks0 : option (list Task)) (num_tasks0 : Z)
    (fixed_slots0 : option (list TimeSlot)) (num_fixed0 : Z) :
  malloc_succeeds AllocSortedTasks = true ->
  io_malloc_succeeds AllocFixedSlots = true ->
  Z.of_nat (length tasks) <= MAX_TASKS ->
  Z.of_nat (length fixed_slots) <= MAX_SLOTS ->
  Forall (fun t => name_ok (Task.name t)) tasks ->
  Forall task_ints tasks -> Forall slot_ints fixed_slots ->
  parse_json_input (Some (request_document tasks fixed_slots))
    (Out.mk (Some tasks0) (Some num_tasks0) (Some fixed_slots0) (Some num_fixed0)) =
  Ret (0, Out.mk (Some (array_of tasks)) (Some (Z.of_nat (length tasks)))
            (Some (array_of (imap parsed_slot fixed_slots)))
            (Some (Z.of_nat (length fixed_slots)))).
Proof.
  intros Hm Hio Hnt Hnf Hall Hti Hsi.
  rewrite parse_json_input_body, parse_document_request by assumption.
  reflexivity.
Qed.

(** X24.  An array of the request with more elements than the engine
    holds is dropped as a whole, and the request still parses with status
    0: more than 500 tasks leave no task, more than 336 fixed slots leave
    no fixed slot.  The variables of the caller then hold [NULL] and 0,
    whatever they held before. *)
Theorem parse_json_input_over_capacity (tasks : list Task) (fixed_slots : list TimeSlot)
    (tasks0 : option (list Task)) (num_tasks0 : Z)
    (fixed_slots0 : option (list TimeSlot)) (num_fixed0 : Z) :
  malloc_succeeds AllocSortedTasks = true ->
  io_malloc_succeeds AllocFixedSlots = true ->
  Forall (fun t => name_ok (Task.name t)) tasks ->
  exists out,
    parse_json_input (Some (request_document tasks fixed_slots))
      (Out.mk (Some tasks0) (Some num_tasks0) (Some fixed_slots0) (Some num_fixed0)) =
      Ret (0, out) /\
    (MAX_TASKS < Z.of_nat (length tasks) ->
     Out.tasks out = Some None /\ Out.num_tasks out = Some 0) /\
    (MAX_SLOTS < Z.of_nat (length fixed_slots) ->
     Out.fixed_slots out = Some None /\ Out.num_fixed out = Some 0).
Proof.
  intros Hm Hio Hall. eexists. split.
  { rewrite parse_json_input_body, parse_document_capped by assumption. reflexivity. }
  cbn [written Out.tasks Out.num_tasks Out.fixed_slots Out.num_fixed
       Parsed.tasks Parsed.num_tasks Parsed.fixed_slots Parsed.num_fixed].
  split; intros Hgt.
  - rewrite capped_beyond by (rewrite length_map; assumption). split; reflexivity.
  - rewrite capped_beyond by (rewrite length_imap, length_map; assumption).
    split; reflexivity.
Qed.

End Request.


(** ** The input buffer of the program *)

Lemma c_string_read_input (s : string) (room : Z) :
  no_nul s = true -> Z.of_nat (String.length s) <= room ->
  c_string (read_input s room) = s.
Proof.
  revert room. induction s as [|c s IH]; intros room Hs Hlen; [reflexivity|].
  cbn [no_nul string_forall] in Hs. apply andb_true_iff in Hs as [Hc Hs].
  apply negb_true_iff in Hc.
  cbn [String.length] in Hlen. cbn [read_input].
  replace (room <=? 0) with false by (symmetry; apply Z.leb_gt; lia).
  cbn [c_string]. rewrite Hc. f_equal. apply IH; [exact Hs | lia].
Qed.

Lemma ordinary_no_nul (s : string) : ordinary s = true -> no_nul s = true.
Proof.
  apply string_forall_impl. intros c Hc.
  rewrite (class_char_neq ordinary_char c nul Hc eq_refl). reflexivity.
Qed.

Lemma no_nul_append (a b : string) :
  no_nul a = true -> no_nul b = true -> no_nul (String.append a b) = true.
Proof.
  intros Ha Hb. unfold no_nul. rewrite string_forall_append.
  fold (no_nul a). fold (no_nul b). rewrite Ha, Hb. reflexivity.
Qed.

Lemma no_nul_cons (c : ascii) (s : string) :
  Ascii.eqb c nul = false -> no_nul s = true -> no_nul (String c s) = true.
Proof. intros Hc Hs. cbn [no_nul string_forall]. rewrite Hc. exact Hs. Qed.

Lemma no_nul_quoted (s r : string) :
  ordinary s = true -> no_nul r = true -> no_nul (quoted s r) = true.
Proof.
  intros Hs Hr. unfold quoted. apply no_nul_cons; [reflexivity|].
  apply no_nul_append; [apply ordinary_no_nul, Hs|].
  apply no_nul_cons; [reflexivity | exact Hr].
Qed.

Lemma no_nul_value (v : json_value) (r : string) :
  match v with JString s => ordinary s = true | _ => True end ->
  no_nul r = true -> no_nul (value_text v r) = true.
Proof.
  intros Hv Hr. destruct v as [n|s|b]; cbn [value_text].
  - apply no_nul_append; [|exact Hr].
    apply ordinary_no_nul, numeral_ordinary, int_to_string_numeral.
  - apply no_nul_quoted; assumption.
  - apply no_nul_append; [destruct b; reflexivity | exact Hr].
Qed.

Lemma no_nul_members (members : list (string * json_value)) (r : string) :
  Forall member_plain members -> no_nul r = true ->
  no_nul (members_text members r) = true.
Proof.
  induction members as [|[k v] members IH]; intros Hall Hr; [exact Hr|].
  apply Forall_cons_1 in Hall as [[Hk Hv] Hall]. cbn [fst snd] in *.
  cbn [members_text]. unfold key_text.
  apply no_nul_quoted; [exact Hk|].
  apply no_nul_cons; [reflexivity|]. apply no_nul_cons; [reflexivity|].
  apply no_nul_value; [exact Hv|].
  destruct members as [|m members]; [exact Hr|].
  cbn [separated]. apply no_nul_cons; [reflexivity|]. apply no_nul_cons; [reflexivity|].
  apply IH; assumption.
Qed.

Lemma no_nul_elements (elements : list (list (string * json_value))) (r : string) :
  Forall (Forall member_plain) elements -> no_nul r = true ->
  no_nul (elements_text elements r) = true.
Proof.
  induction elements as [|e elements IH]; intros Hall Hr; [exact Hr|].
  apply Forall_cons_1 in Hall as [He Hall].
  cbn [elements_text]. unfold object_text.
  apply no_nul_cons; [reflexivity|].
  apply no_nul_members; [exact He|]. apply no_nul_cons; [reflexivity|].
  destruct elements as [|e' elements]; [exact Hr|].
  cbn [separated]. apply no_nul_cons; [reflexivity|]. apply no_nul_cons; [reflexivity|].
  apply IH; assumption.
Qed.

Lemma no_nul_request (tasks : list Task) (fixed_slots : list TimeSlot) :
  Forall (fun t => name_ok (Task.name t)) tasks ->
  no_nul (request_document tasks fixed_slots) = true.
Proof.
  intros Hall. unfold request_document, key_text.
  apply no_nul_cons; [reflexivity|].
  apply no_nul_quoted; [reflexivity|].
  do 3 (apply no_nul_cons; [reflexivity|]).
  apply no_nul_elements; [apply tasks_plain, Hall|].
  do 3 (apply no_nul_cons; [reflexivity|]).
  apply no_nul_quoted; [reflexivity|].
  do 3 (apply no_nul_cons; [reflexivity|]).
  apply no_nul_elements; [apply slots_plain|]. reflexivity.
Qed.

Lemma array_of_ok {A : Type} (l : list A) : array_ok (array_of l) (Z.of_nat (length l)).
Proof. destruct l; cbn; [exact I | lia]. Qed.

Section Program.
Context {L : Libc} {IO : IoLibc}.

(** [main] behind the allocation of its input buffer: the four variables
    are handed over by their addresses, so the body of the parser runs. *)
Lemma main_parse_document (stdin : string) :
  io_malloc_succeeds AllocInput = true ->
  main stdin =
  (r <- parse_document (c_string (read_input stdin (MAX_INPUT_SIZE - 1))) ;;
   if negb (Parsed.status r =? 0) then
     Ret (Run.mk 1 EmptyString (error_document "Failed to parse input JSON"))
   else
     timeline <- optimize_schedule (Parsed.tasks r) (Parsed.num_tasks r)
                   (Parsed.fixed_slots r) (Parsed.num_fixed r) ;;
     match timeline with
     | None => Ret (Run.mk 1 EmptyString (error_document "Optimization failed"))
     | Some timeline =>
         json_output <- timeline_to_json (Some timeline) ;;
         match json_output with
         | None =>
             Ret (Run.mk 1 EmptyString (error_document "JSON serialization failed"))
         | Some json_output => Ret (Run.mk 0 json_output EmptyString)
         end
     end).
Proof.
  intros Hio. unfold main. rewrite Hio. cbv zeta.
  unfold main_locals. rewrite parse_json_input_body.
  destruct (parse_document _) as [r|]; reflexivity.
Qed.

(** The run of the program on an input the parser reads with status 0,
    when every allocation succeeds. *)
Lemma main_parsed (stdin : string) (tasks : option (list Task)) (num_tasks : Z)
    (fixed_slots : option (list TimeSlot)) (num_fixed : Z) :
  qsort_conforms L ->
  allocations_succeed L ->
  (forall site, io_malloc_succeeds site = true) ->
  parse_document (c_string (read_input stdin (MAX_INPUT_SIZE - 1))) =
    Ret (Parsed.mk 0 tasks num_tasks fixed_slots num_fixed) ->
  array_ok tasks num_tasks -> array_ok fixed_slots num_fixed ->
  exists tl doc,
    optimize_schedule tasks num_tasks fixed_slots num_fixed = Ret (Some tl) /\
    timeline_to_json (Some tl) = Ret (Some doc) /\
    main stdin = Ret (Run.mk 0 doc EmptyString).
Proof.
  intros HL Hm Hio Hparse Htasks Hfixed.
  rewrite main_parse_document by apply Hio.
  rewrite Hparse.
  cbn [bind Parsed.status Parsed.tasks Parsed.num_tasks
       Parsed.fixed_slots Parsed.num_fixed].
  change (negb (0 =? 0)) with false. cbv iota.
  destruct (optimize_schedule_result tasks num_tasks fixed_slots num_fixed
              HL Htasks Hfixed) as (r & Hr & Hshape).
  rewrite Hr. cbn [bind].
  destruct r as [tl|]; [|rewrite Hm in Hshape; discriminate].
  destruct Hshape as (_ & Hns & Hl & _).
  destruct (timeline_to_json_document tl (Hm AllocBuffer) (Hio AllocGrow))
    as (body & _ & Hdoc); [unfold MAX_SLOTS in *; lia|].
  rewrite Hdoc. cbn [bind].
  exists tl. eexists. split; [reflexivity|]. split; [exact Hdoc | reflexivity].
Qed.

(** X25.  Given a request in the layout above that fits the input
    buffer, with every number in the range of [int], and a C library
    whose allocations succeed, the program schedules exactly the tasks
    and fixed slots that were written: it ends with exit code 0 and
    prints the document of the timeline [optimize_schedule] returns for
    them. *)
Theorem main_request (tasks : list Task) (fixed_slots : list TimeSlot) :
  qsort_conforms L ->
  allocations_succeed L ->
  (forall site, io_malloc_succeeds site = true) ->
  Z.of_nat (length tasks) <= MAX_TASKS ->
  Z.of_nat (length fixed_slots) <= MAX_SLOTS ->
  Forall (fun t => name_ok (Task.name t)) tasks ->
  Forall task_ints tasks -> Forall slot_ints fixed_slots ->
  Z.of_nat (String.length (request_document tasks fixed_slots)) < MAX_INPUT_SIZE ->
  exists tl doc,
    optimize_schedule (array_of tasks) (Z.of_nat (length tasks))
      (array_of (imap parsed_slot fixed_slots)) (Z.of_nat (length fixed_slots)) =
      Ret (Some tl) /\
    timeline_to_json (Some tl) = Ret (Some doc) /\
    main (request_document tasks fixed_slots) = Ret (Run.mk 0 doc EmptyString).
Proof.
  intros HL Hm Hio Hnt Hnf Hall Hti Hsi Hlen.
  apply main_parsed; try assumption.
  - rewrite c_string_read_input by (try apply no_nul_request; try assumption; lia).
    apply parse_document_request; try assumption; [apply Hm | apply Hio].
  - apply array_of_ok.
  - pose proof (array_of_ok (imap parsed_slot fixed_slots)) as H.
    rewrite length_imap in H. exact H.
Qed.

End Program.


(** ** Keys of an object *)



(** X28.  [count_array_elements] returns the number of objects of an
    array of objects with plain keys and strings, and 0 for a text that
    does not open an array. *)
Theorem count_array_elements_counts (elements : list (list (string * json_value)))
    (r : string) :
  Forall (Forall member_plain) elements ->
  count_array_elements (String "[" (elements_text elements (String "]" r))) =
    Z.of_nat (length elements) /\
  forall p, starts_with "[" p = false -> count_array_elements p = 0.
Proof.
  intros Hall. split; [apply count_array_elements_array, Hall|].
  intros [|c p]; [reflexivity|]. cbn [starts_with count_array_elements].
  intros ->. reflexivity.
Qed.

(** ** Appending to the buffer *)

Section Buffer.
Context {IO : IoLibc}.

(** X29.  [buffer_append] on a buffer that holds a string within its
    capacity returns: with 0, the string followed by the appended text,
    again within the capacity, which has not shrunk; or, only when
    [realloc] fails, with -1 and the buffer as it was. *)
Theorem buffer_append_keeps_valid (buf : StringBuffer) (str : string) :
  buffer_valid buf ->
  exists code buf',
    StringBuffer.buffer_append (Some buf) (Some str) = Ret (code, Some buf') /\
    ((code = 0 /\
      StringBuffer.data buf' = String.append (StringBuffer.data buf) str /\
      buffer_valid buf' /\
      StringBuffer.capacity buf <= StringBuffer.capacity buf') \/
     (code = -1 /\ buf' = buf /\ io_malloc_succeeds AllocGrow = false)).
Proof.
  intros [Hsize Hcap]. unfold StringBuffer.buffer_append. cbv zeta.
  set (len := Z.of_nat (String.length str)).
  assert (Hdata : strcpy_at (StringBuffer.data buf) (StringBuffer.size buf) str =
                  String.append (StringBuffer.data buf) str).
  { rewrite Hsize. apply strcpy_at_end. }
  rewrite Hdata.
  assert (Hlen : Z.of_nat (String.length (String.append (StringBuffer.data buf) str)) =
                 StringBuffer.size buf + len).
  { rewrite string_length_append. subst len. lia. }
  destruct (Z.gtb_spec (StringBuffer.size buf + len + 1) (StringBuffer.capacity buf))
    as [Hgt|Hle].
  - destruct (grow_enough (Z.to_nat (StringBuffer.size buf + len + 1))
                (StringBuffer.capacity buf * BUFFER_GROW_FACTOR)
                (StringBuffer.size buf + len + 1)) as (c & Hg & H1 & H2).
    { unfold BUFFER_GROW_FACTOR. lia. }
    { unfold BUFFER_GROW_FACTOR. lia. }
    rewrite Hg. destruct (io_malloc_succeeds AllocGrow) eqn:Hio.
    + eexists. eexists. split; [reflexivity|]. left.
      unfold buffer_valid. cbn [StringBuffer.data StringBuffer.size
        StringBuffer.capacity]. unfold BUFFER_GROW_FACTOR in H2.
      repeat split; try reflexivity; lia.
    + eexists. eexists. split; [reflexivity|]. right. auto.
  - eexists. eexists. split; [reflexivity|]. left.
    unfold buffer_valid. cbn [StringBuffer.data StringBuffer.size
      StringBuffer.capacity].
    repeat split; try reflexivity; lia.
Qed.

End Buffer.

(** ** The properties of requests on sample inputs *)

Lemma sample_names_ok :
  Forall (fun t => name_ok (Task.name t)) [study_task; practice_task].
Proof.
  repeat constructor; cbn; try lia; intuition discriminate.
Qed.

Lemma sample_task_ints : Forall task_ints [study_task; practice_task].
Proof.
  repeat first [apply Forall_nil_2 | apply Forall_cons_2];
    repeat split; apply Z.leb_le; reflexivity.
Qed.

Lemma sample_slot_ints : Forall slot_ints [class_slot].
Proof.
  repeat first [apply Forall_nil_2 | apply Forall_cons_2];
    repeat split; apply Z.leb_le; reflexivity.
Qed.

Lemma parse_json_input_reads_request_witness :
  parse_json_input (L := stable_libc) (IO := stable_io)
    (Some (request_document [study_task; practice_task] [class_slot]))
    (Out.mk (Some (Some [exam_task])) (Some 1) (Some None) (Some 0)) =
  Ret (0, Out.mk (Some (Some [study_task; practice_task])) (Some 2)
            (Some (Some [TimeSlot.mk 16 7 (get_energy_level 0) true])) (Some 1)).
Proof.
  apply (parse_json_input_reads_request (L := stable_libc) (IO := stable_io)
           [study_task; practice_task] [class_slot] (Some [exam_task]) 1 None 0).
  - reflexivity.
  - reflexivity.
  - unfold MAX_TASKS. simpl. lia.
  - unfold MAX_SLOTS. simpl. lia.
  - exact sample_names_ok.
  - exact sample_task_ints.
  - exact sample_slot_ints.
Defined.

Lemma parse_json_input_over_capacity_witness :
  exists out,
    parse_json_input (L := stable_libc) (IO := stable_io)
      (Some (request_document (replicate 501 task_init) []))
      (Out.mk (Some (Some [exam_task])) (Some 1) (Some None) (Some 0)) = Ret (0, out) /\
    Out.tasks out = Some None /\ Out.num_tasks out = Some 0.
Proof.
  destruct (parse_json_input_over_capacity (L := stable_libc) (IO := stable_io)
              (replicate 501 task_init) [] (Some [exam_task]) 1 None 0 eq_refl eq_refl)
    as (out & Hr & Ht & _).
  { apply Forall_replicate. repeat split; cbn; try lia. intuition discriminate. }
  exists out. split; [exact Hr|].
  apply Ht. rewrite length_replicate. unfold MAX_TASKS. lia.
Defined.

Lemma main_request_witness :
  exists doc,
    main (L := stable_libc) (IO := stable_io)
      (request_document [study_task; practice_task] [class_slot]) =
    Ret (Run.mk 0 doc EmptyString).
Proof.
  destruct (main_request (L := stable_libc) (IO := stable_io)
              [study_task; practice_task] [class_slot]
              stable_libc_conforms (fun _ => eq_refl) (fun _ => eq_refl))
    as (tl & doc & _ & _ & Hmain).
  - unfold MAX_TASKS. simpl. lia.
  - unfold MAX_SLOTS. simpl. lia.
  - exact sample_names_ok.
  - exact sample_task_ints.
  - exact sample_slot_ints.
  - vm_compute. reflexivity.
  - exists doc. exact Hmain.
Defined.



Lemma count_array_elements_counts_witness :
  count_array_elements
    (String "[" (elements_text [slot_members class_slot; slot_members class_slot]
                   (String "]" EmptyString))) = 2.
Proof.
  apply (count_array_elements_counts [slot_members class_slot; slot_members class_slot]
           EmptyString).
  repeat constructor.
Defined.

Lemma buffer_append_keeps_valid_witness :
  exists code buf',
    StringBuffer.buffer_append (IO := stable_io)
      (Some (StringBuffer.mk "ab" 2 3)) (Some "cd"%string) = Ret (code, Some buf') /\
    ((code = 0 /\
      StringBuffer.data buf' = String.append "ab" "cd" /\
      buffer_valid buf' /\
      3 <= StringBuffer.capacity buf') \/
     (code = -1 /\ buf' = StringBuffer.mk "ab" 2 3 /\
      io_malloc_succeeds (IoLibc := stable_io) AllocGrow = false)).
Proof.
  apply (buffer_append_keeps_valid (IO := stable_io) (StringBuffer.mk "ab" 2 3) "cd").
  split; [reflexivity | simpl; lia].
Defined.

(** ** Calls of the parser and runs of the program *)

Section Calls.
Context {L : Libc} {IO : IoLibc}.

(** X20.  A call of [parse_json_input] with a null document or a null
    pointer among its four out-pointers returns -1 and writes nothing.
    With the five pointers valid, whatever the document and whatever the
    four variables held: when the call returns 0, the variables hold
    counts within 0..500 and 0..336 and arrays of exactly these sizes (a
    null pointer with count 0), which is what [optimize_schedule] expects;
    it returns -1 only after a failed allocation, and then the variables
    hold null pointers and zero counts. *)
Theorem parse_json_input_fits (json_input : option string) (out out' : Out)
    (status : Z) :
  parse_json_input json_input out = Ret (status, out') ->
  (status = 0 /\ json_input <> None /\ pointers_valid out /\
   exists r, out' = written r /\ parsed_ok r /\
     array_ok (Parsed.tasks r) (Parsed.num_tasks r) /\
     array_ok (Parsed.fixed_slots r) (Parsed.num_fixed r)) \/
  (status = -1 /\
   (((json_input = None \/ ~ pointers_valid out) /\ out' = out) \/
    (json_input <> None /\ pointers_valid out /\
     out' = Out.mk (Some None) (Some 0) (Some None) (Some 0) /\
     (malloc_succeeds AllocSortedTasks = false \/
      io_malloc_succeeds AllocFixedSlots = false)))).
Proof.
  intros H.
  assert (Hnull : json_input = None \/ ~ pointers_valid out ->
                  parse_json_input json_input out = Ret (-1, out)).
  { unfold parse_json_input, pointers_valid.
    destruct json_input as [json_input|]; [|reflexivity].
    destruct out as [[t|] [n|] [f|] [m|]]; try reflexivity.
    intros [Hd|Hp]; [discriminate|]. exfalso. apply Hp. cbn. repeat split; discriminate. }
  destruct json_input as [json_input|].
  2:{ rewrite Hnull in H by (left; reflexivity). injection H as <- <-. right. auto. }
  destruct out as [[t|] [n|] [f|] [m|]];
    try (rewrite Hnull in H
           by (right; unfold pointers_valid; cbn; intros (H1 & H2 & H3 & H4); congruence);
         injection H as <- <-; right; split; [reflexivity|]; left;
         split; [|reflexivity]; right; unfold pointers_valid; cbn;
         intros (H1 & H2 & H3 & H4); congruence).
  assert (Hp : pointers_valid (Out.mk (Some t) (Some n) (Some f) (Some m))).
  { unfold pointers_valid. cbn. repeat split; discriminate. }
  rewrite parse_json_input_body in H.
  apply bind_Ret_inv in H as (r & Hr & H). injection H as <- <-.
  destruct (parse_document_cases _ _ Hr) as [[Hst Hok]|[-> Hfail]].
  - left. split; [exact Hst|]. split; [discriminate|]. split; [exact Hp|].
    exists r. split; [reflexivity|]. split; [exact Hok|].
    apply parsed_ok_arrays, Hok.
  - right. split; [reflexivity|]. right.
    split; [discriminate|]. split; [exact Hp|]. split; [reflexivity | exact Hfail].
Qed.

(** X21.  A run of the program ends with exit code 0, nothing on the
    standard error and, on the standard output, what [timeline_to_json]
    returns for the timeline that [optimize_schedule] returns for what the
    parser left in the four variables; or with exit code 1, nothing on the
    standard output and one of three error documents, each only after a
    failed allocation.  No input text is rejected as malformed. *)
Theorem main_runs (stdin : string) (status : Z) (out : Out) :
  qsort_conforms L ->
  io_malloc_succeeds AllocInput = true ->
  parse_json_input (Some (c_string (read_input stdin (MAX_INPUT_SIZE - 1))))
    main_locals = Ret (status, out) ->
  exists run, main stdin = Ret run /\
    ((Run.exit_code run = 0 /\ Run.stderr run = EmptyString /\ status = 0 /\
      exists tasks num_tasks fixed_slots num_fixed tl,
        out = Out.mk (Some tasks) (Some num_tasks) (Some fixed_slots) (Some num_fixed) /\
        optimize_schedule tasks num_tasks fixed_slots num_fixed = Ret (Some tl) /\
        timeline_to_json (Some tl) = Ret (Some (Run.stdout run))) \/
     (Run.exit_code run = 1 /\ Run.stdout run = EmptyString /\
      ((Run.stderr run = error_document "Failed to parse input JSON" /\
        status = -1 /\
        (malloc_succeeds AllocSortedTasks = false \/
         io_malloc_succeeds AllocFixedSlots = false)) \/
       (Run.stderr run = error_document "Optimization failed" /\
        malloc_succeeds AllocTimeline = false) \/
       (Run.stderr run = error_document "JSON serialization failed" /\
        malloc_succeeds AllocBuffer = false)))).
Proof.
  intros HL Hin Hparse. rewrite main_parse_document by exact Hin.
  unfold main_locals in Hparse. rewrite parse_json_input_body in Hparse.
  apply bind_Ret_inv in Hparse as (r & Hr & Hret). injection Hret as <- <-.
  rewrite Hr. cbn [bind].
  destruct (parse_document_cases _ _ Hr) as [[Hst Hok]|[-> Hfail]].
  2:{ eexists. split; [reflexivity|]. right. cbn. auto 10. }
  rewrite Hst. cbn [Z.eqb negb].
  destruct (parsed_ok_arrays _ Hok) as [Htasks Hfixed].
  destruct (optimize_schedule_result _ _ _ _ HL Htasks Hfixed) as (o & Ho & Hshape).
  rewrite Ho. cbn [bind].
  destruct o as [tl|].
  2:{ eexists. split; [reflexivity|]. right. cbn. auto 10. }
  destruct Hshape as (_ & Hns & Hlen & _).
  destruct (malloc_succeeds AllocBuffer) eqn:Hbuf.
  - destruct (timeline_to_json_returns tl Hbuf ltac:(lia)) as (doc & Hdoc & _).
    rewrite Hdoc. cbn [bind].
    eexists. split; [reflexivity|]. left. cbn [Run.exit_code Run.stderr Run.stdout].
    split; [reflexivity|]. split; [reflexivity|]. split; [reflexivity|].
    exists (Parsed.tasks r), (Parsed.num_tasks r), (Parsed.fixed_slots r),
      (Parsed.num_fixed r), tl.
    split; [reflexivity|]. split; [exact Ho | exact Hdoc].
  - assert (Hnone : timeline_to_json (Some tl) = Ret None).
    { unfold timeline_to_json. unfold StringBuffer.buffer_create. rewrite Hbuf.
      reflexivity. }
    rewrite Hnone. cbn [bind].
    eexists. split; [reflexivity|]. right. cbn. auto 10.
Qed.


End Calls.

(** ** The properties of calls and runs on a sample request *)

Lemma parse_json_input_fits_witness :
  (0 = 0 /\ Some sample_request <> None /\ pointers_valid main_locals /\
   exists r,
     Out.mk (Some (Some [study_task; practice_task])) (Some 2)
       (Some (Some [TimeSlot.mk 16 7 (get_energy_level 0) true])) (Some 1) = written r /\
     parsed_ok r /\
     array_ok (Parsed.tasks r) (Parsed.num_tasks r) /\
     array_ok (Parsed.fixed_slots r) (Parsed.num_fixed r)) \/
  (0 = -1 /\
   (((Some sample_request = None \/ ~ pointers_valid main_locals) /\
     Out.mk (Some (Some [study_task; practice_task])) (Some 2)
       (Some (Some [TimeSlot.mk 16 7 (get_energy_level 0) true])) (Some 1) = main_locals) \/
    (Some sample_request <> None /\ pointers_valid main_locals /\
     Out.mk (Some (Some [study_task; practice_task])) (Some 2)
       (Some (Some [TimeSlot.mk 16 7 (get_energy_level 0) true])) (Some 1) =
     Out.mk (Some None) (Some 0) (Some None) (Some 0) /\
     (malloc_succeeds (Libc := stable_libc) AllocSortedTasks = false \/
      io_malloc_succeeds (IoLibc := stable_io) AllocFixedSlots = false)))).
Proof.
  apply (parse_json_input_fits (L := stable_libc) (IO := stable_io)
           (Some sample_request) main_locals).
  vm_compute. reflexivity.
Defined.

Lemma main_runs_witness :
  exists run, main (L := stable_libc) (IO := stable_io) sample_request = Ret run /\
    ((Run.exit_code run = 0 /\ Run.stderr run = EmptyString /\ 0 = 0 /\
      exists tasks num_tasks fixed_slots num_fixed tl,
        Out.mk (Some (Some [study_task; practice_task])) (Some 2)
          (Some (Some [TimeSlot.mk 16 7 (get_energy_level 0) true])) (Some 1) =
        Out.mk (Some tasks) (Some num_tasks) (Some fixed_slots) (Some num_fixed) /\
        optimize_schedule (L := stable_libc) tasks num_tasks fixed_slots num_fixed =
          Ret (Some tl) /\
        timeline_to_json (L := stable_libc) (IO := stable_io) (Some tl) =
          Ret (Some (Run.stdout run))) \/
     (Run.exit_code run = 1 /\ Run.stdout run = EmptyString /\
      ((Run.stderr run = error_document "Failed to parse input JSON" /\
        0 = -1 /\
        (malloc_succeeds (Libc := stable_libc) AllocSortedTasks = false \/
         io_malloc_succeeds (IoLibc := stable_io) AllocFixedSlots = false)) \/
       (Run.stderr run = error_document "Optimization failed" /\
        malloc_succeeds (Libc := stable_libc) AllocTimeline = false) \/
       (Run.stderr run = error_document "JSON serialization failed" /\
        malloc_succeeds (Libc := stable_libc) AllocBuffer = false)))).
Proof.
  apply (main_runs (L := stable_libc) (IO := stable_io) sample_request 0
           (Out.mk (Some (Some [study_task; practice_task])) (Some 2)
              (Some (Some [TimeSlot.mk 16 7 (get_energy_level 0) true])) (Some 1))
           stable_libc_conforms eq_refl).
  vm_compute. reflexivity.
Defined.

